(** * Wrapper cache, node wrappers and tree reconciliation of ts-simple-ast

  A shallow embedding of [src/utils/KeyValueCache.ts], of the wrapper class
  [Node] (navigation, positional queries, disposal) and of
  [UnwrapParentHandler], with the properties the specification states
  about them.

  JavaScript objects are modelled as references into explicit stores:
  compiler nodes ([ts.Node]) live in an immutable store indexed by their
  identity, wrappers live in a mutable heap, and the factory cache is a
  finite map from compiler-node identity to wrapper reference.  Methods
  are computations in a state-and-exception monad; a thrown exception
  keeps the state reached so far, as in JavaScript. *)

From Stdlib Require Import ZArith String Ascii List Lia.
From stdpp Require Import base option gmap strings functions list.

Local Open Scope string_scope.
Local Open Scope Z_scope.

(** ** Exceptions *)

Module errors.

(** The exception classes the sources throw: [errors.InvalidOperationError],
    [errors.NotImplementedError] and the built-in [Error]. *)
Inductive exn : Type :=
| InvalidOperationError (message : string)
| NotImplementedError (message : string)
| Error (message : string).

(** Outcome of a call: a value, a thrown exception, or exhaustion of the
    fuel that bounds the unbounded loops and recursions of the model. *)
Inductive result (A : Type) : Type :=
| Ok (a : A)
| Throw (e : exn)
| OutOfFuel.

Arguments Ok {A} a.
Arguments Throw {A} e.
Arguments OutOfFuel {A}.

Definition isInvalidOperation (e : exn) : bool :=
  match e with InvalidOperationError _ => true | _ => false end.

End errors.
Export errors.

(** ** JavaScript truthiness *)

(** [value || undefined] and [value == null] depend on the run-time value
  only through its truthiness; a value type states which of its
  inhabitants are truthy. *)
Class JsTruthy (U : Type) := truthy : U -> bool.

(** The primitive values of JavaScript (numbers restricted to integers)
  and object references. *)
Inductive JsValue : Type :=
| JsUndefined
| JsNull
| JsBoolean (b : bool)
| JsNumber (n : Z)
| JsString (s : string)
| JsObject (ref : nat).

#[global] Instance JsValue_truthy : JsTruthy JsValue := fun v =>
  match v with
  | JsUndefined | JsNull => false
  | JsBoolean b => b
  | JsNumber n => negb (Z.eqb n 0)
  | JsString s => negb (String.eqb s "")
  | JsObject _ => true
  end.

(** Object references (wrappers are referred to by number) are always
    truthy. *)
#[global] Instance reference_truthy : JsTruthy nat := fun _ => true.

(** ** [KeyValueCache] *)

Module KeyValueCache.
Section KeyValueCache.
Context {T : Type} `{Countable T} {U : Type} `{JsTruthy U}.

(** [cacheItems] is a [Map<T, U>]. *)
Abbreviation cache := (gmap T U).

(** [get(key)]: [this.cacheItems.get(key) || undefined]. [None] is
    [undefined]. *)
Definition get (key : T) (cacheItems : cache) : option U :=
  match cacheItems !! key with
  | Some value => if truthy value then Some value else None
  | None => None
  end.

(** [set(key, value)]. *)
Definition set (key : T) (value : U) (cacheItems : cache) : cache :=
  <[key := value]> cacheItems.

(** [getOrCreate(key, createFunc)].  [createFunc] may have effects on a
    state [S] of its own; it is called exactly when its result is the
    returned item of the [None] branch. *)
Definition getOrCreate {S : Type} (key : T) (createFunc : S -> U * S)
    (cacheItems : cache) (s : S) : U * cache * S :=
  match get key cacheItems with
  | Some item => (item, cacheItems, s)
  | None =>
      let '(item, s') := createFunc s in
      (item, set key item cacheItems, s')
  end.

(** [replaceKey(key, newKey)]. *)
Definition replaceKey (key newKey : T) (cacheItems : cache) : result cache :=
  match cacheItems !! key with
  | None => Throw (Error "Key not found.")
  | Some value => Ok (<[newKey := value]> (delete key cacheItems))
  end.

(** [removeByKey(key)]. *)
Definition removeByKey (key : T) (cacheItems : cache) : cache :=
  delete key cacheItems.

End KeyValueCache.
End KeyValueCache.

(** ** The compiler's syntax tree *)

(** Identity of a compiler node object. *)
Abbreviation cnid := nat (only parsing).

Module ts.

(** The syntax kinds the sources name, and all the others. *)
Inductive SyntaxKind : Type :=
| SourceFile
| SyntaxList
| EndOfFileToken
| FirstPunctuation
| OtherKind (n : nat).

#[global] Instance SyntaxKind_eq_dec : EqDecision SyntaxKind.
Proof. solve_decision. Defined.

(** What the wrappers consume of a compiler node: its kind, [pos], [end],
    parent pointer, [getChildren()], [getStart()] and [getFullText()]. *)
Record Node : Type := {
  kind : SyntaxKind;
  pos : Z;
  end_ : Z;
  parent : option cnid;
  getChildren : list cnid;
  getStart : Z;
  getFullText : string
}.

End ts.

(** ** Wrappers, the global container and the monad of methods *)

(** Identity of a wrapper object and of a global container. *)
Abbreviation wid := nat (only parsing).
Abbreviation GlobalContainer := nat (only parsing).

(** The fields of the wrapper class [Node]: [_compilerNode] is [None] once
    the wrapper is disposed. *)
Record Node : Type := {
  _compilerNode : option cnid;
  sourceFile : wid;
  global : GlobalContainer
}.

(** The program state of one global container: the compiler's node objects,
    the wrapper objects, the factory's [nodeCache] (a
    [KeyValueCache<ts.Node, Node>]) and the next unused wrapper identity. *)
Record State : Type := {
  nodes : cnid -> ts.Node;
  heap : wid -> Node;
  nodeCache : gmap cnid wid;
  container : GlobalContainer;
  next : wid
}.

Definition set_heap (h : wid -> Node) (s : State) : State :=
  {| nodes := nodes s; heap := h; nodeCache := nodeCache s;
     container := container s; next := next s |}.

Definition set_nodeCache (c : gmap cnid wid) (s : State) : State :=
  {| nodes := nodes s; heap := heap s; nodeCache := c;
     container := container s; next := next s |}.

Definition set_next (n : wid) (s : State) : State :=
  {| nodes := nodes s; heap := heap s; nodeCache := nodeCache s;
     container := container s; next := n |}.

(** A method: from a state to an outcome and the state it leaves. *)
Definition M (A : Type) : Type := State -> result A * State.

Definition ret {A : Type} (a : A) : M A := fun s => (Ok a, s).

Definition bind {A B : Type} (m : M A) (k : A -> M B) : M B := fun s =>
  match m s with
  | (Ok a, s') => k a s'
  | (Throw e, s') => (Throw e, s')
  | (OutOfFuel, s') => (OutOfFuel, s')
  end.

Definition throw {A : Type} (e : exn) : M A := fun s => (Throw e, s).

Definition outOfFuel {A : Type} : M A := fun s => (OutOfFuel, s).

Declare Scope method_scope.
Delimit Scope method_scope with method.
Notation "x <- m ;; k" := (bind m (fun x => k))
  (at level 100, m at next level, right associativity) : method_scope.
Notation "m ;; k" := (bind m (fun _ => k))
  (at level 100, right associativity) : method_scope.
Local Open Scope method_scope.

(** [for (const x of xs) body(x)] over an array. *)
Fixpoint forEach {A : Type} (xs : list A) (body : A -> M unit) : M unit :=
  match xs with
  | [] => ret tt
  | x :: rest => body x ;; forEach rest body
  end.

(** [xs.map(f)] with an effectful [f]. *)
Fixpoint mapM {A B : Type} (f : A -> M B) (xs : list A) : M (list B) :=
  match xs with
  | [] => ret []
  | x :: rest => y <- f x ;; ys <- mapM f rest ;; ret (y :: ys)
  end.

(** Reading a property of a compiler node object. *)
Definition tsGet {A : Type} (f : ts.Node -> A) (c : cnid) : M A :=
  fun s => (Ok (f (nodes s c)), s).

(** Modelled from the spec: [errors.throwIfNullOrUndefined] is not among the
    sources; by the spec every [...OrThrow] accessor fails with a typed
    InvalidOperation error carrying the message. *)
Definition throwIfNullOrUndefined {A : Type} (value : option A) (message : string) : M A :=
  match value with
  | Some a => ret a
  | None => throw (InvalidOperationError message)
  end.

(** ** The wrapper class [Node]: its fields *)

(** [get compilerNode()]. *)
Definition compilerNode (this : wid) : M cnid := fun s =>
  match _compilerNode (heap s this) with
  | None =>
      (Throw (InvalidOperationError
         "Attempted to get information from a node that was removed from the AST."), s)
  | Some c => (Ok c, s)
  end.

(** Reading the field [this.sourceFile]; also [getSourceFile()]. *)
Definition getSourceFile (this : wid) : M wid := fun s =>
  (Ok (sourceFile (heap s this)), s).

(** [replaceCompilerNode(compilerNode)]. *)
Definition replaceCompilerNode (this : wid) (cn : cnid) : M unit := fun s =>
  let node := {| _compilerNode := Some cn; sourceFile := sourceFile (heap s this);
                 global := global (heap s this) |} in
  (Ok tt, set_heap (<[this := node]> (heap s)) s).

(** [this._compilerNode = undefined]. *)
Definition clearCompilerNode (this : wid) : M unit := fun s =>
  let node := {| _compilerNode := None; sourceFile := sourceFile (heap s this);
                 global := global (heap s this) |} in
  (Ok tt, set_heap (<[this := node]> (heap s)) s).

(** ** The wrapper factory *)

Module CompilerFactory.

(** The [createFunc] handed to the cache: [new Node(global, node, sourceFile)]. *)
Definition createNode (compilerNode : cnid) (sf : wid) (s : State) : wid * State :=
  let node := {| _compilerNode := Some compilerNode; sourceFile := sf;
                 global := container s |} in
  (next s, set_next (S (next s)) (set_heap (<[next s := node]> (heap s)) s)).

(** Modelled from the spec: [CompilerFactory.getNodeFromCompilerNode] is not
    among the sources; if [cn] is in the cache the stored wrapper is
    returned, otherwise one is constructed and registered. *)
Definition getNodeFromCompilerNode (compilerNode : cnid) (sf : wid) : M wid := fun s =>
  let '(w, cache', s') :=
    KeyValueCache.getOrCreate compilerNode (createNode compilerNode sf) (nodeCache s) s in
  (Ok w, set_nodeCache cache' s').

(** Modelled from the spec: [CompilerFactory.removeNodeFromCache] is not among
    the sources; it deletes the wrapper's entry, which is keyed by the
    wrapper's compiler node, and is a no-op if the entry is already absent. *)
Definition removeNodeFromCache (w : wid) : M unit := fun s =>
  match _compilerNode (heap s w) with
  | Some c => (Ok tt, set_nodeCache (KeyValueCache.removeByKey c (nodeCache s)) s)
  | None => (Ok tt, s)
  end.

(** Modelled from the spec: [CompilerFactory.replaceCompilerNode] is not
    among the sources; it deletes the old entry, updates the wrapper's
    internal pointer and inserts the new entry.  The failure the spec asks
    for when the new compiler node is already the key of another wrapper is
    not modelled: [UnwrapParentHandler.handleNode] reads the new tree
    through wrappers and rebinds the current wrappers onto the nodes these
    still wrap, so the insertion here overwrites the entry, as
    [KeyValueCache.set] does, and the wrapper it replaces stays live
    without being a cache entry. *)
Definition replaceCompilerNode (w : wid) (cnNew : cnid) : M unit :=
  removeNodeFromCache w ;;
  replaceCompilerNode w cnNew ;;
  fun s => (Ok tt, set_nodeCache (KeyValueCache.set cnNew w (nodeCache s)) s).

End CompilerFactory.

(** ** The wrapper class [Node]: navigation, queries and disposal *)

(** [disposeOnlyThis()]. *)
Definition disposeOnlyThis (this : wid) : M unit :=
  CompilerFactory.removeNodeFromCache this ;;
  clearCompilerNode this.

(** [getKind()], [getPos()], [getEnd()]. *)
Definition getKind (this : wid) : M ts.SyntaxKind :=
  c <- compilerNode this ;; tsGet ts.kind c.

Definition getPos (this : wid) : M Z :=
  c <- compilerNode this ;; tsGet ts.pos c.

Definition getEnd (this : wid) : M Z :=
  c <- compilerNode this ;; tsGet ts.end_ c.

(** [getStart()]: [this.compilerNode.getStart(this.sourceFile.compilerNode)]. *)
Definition getStart (this : wid) : M Z :=
  c <- compilerNode this ;;
  sf <- getSourceFile this ;;
  _ <- compilerNode sf ;;
  tsGet ts.getStart c.

(** [getFullText()]. *)
Definition getFullText (this : wid) : M string :=
  c <- compilerNode this ;;
  sf <- getSourceFile this ;;
  _ <- compilerNode sf ;;
  tsGet ts.getFullText c.

(** [containsRange(pos, end)]. *)
Definition containsRange (this : wid) (pos end_ : Z) : M bool :=
  p <- getPos this ;;
  if p <=? pos then e <- getEnd this ;; ret (end_ <=? e) else ret false.

(** One [yield] of a children walk: the wrapper of a compiler child. *)
Definition wrapChild (this : wid) (compilerChild : cnid) : M wid :=
  sf <- getSourceFile this ;;
  CompilerFactory.getNodeFromCompilerNode compilerChild sf.

(** [getChildren()]. *)
Definition getChildren (this : wid) : M (list wid) :=
  c <- compilerNode this ;;
  cs <- tsGet ts.getChildren c ;;
  mapM (wrapChild this) cs.

(** [getChildrenIterator()] is a generator function: the call itself only
    makes the generator object, and its body starts when the consumer asks
    for the first child.  Every caller among the sources does so at once (a
    [for...of] loop, or the [AdvancedIterator] around it), and the
    definition is that start: it evaluates
    [this.compilerNode.getChildren(this.sourceFile.compilerNode)]; the
    compiler children it still has to wrap are its state, and each of them
    is wrapped by [wrapChild] only when the consumer asks for it. *)
Definition getChildrenIterator (this : wid) : M (list cnid) :=
  c <- compilerNode this ;;
  sf <- getSourceFile this ;;
  _ <- compilerNode sf ;;
  tsGet ts.getChildren c.

(** [dispose()]. The recursion follows the wrappers the factory returns, so
    it is bounded by fuel. *)
Fixpoint dispose (fuel : nat) (this : wid) : M unit :=
  match fuel with
  | O => outOfFuel
  | S fuel' =>
      children <- getChildren this ;;
      forEach children (dispose fuel') ;;
      disposeOnlyThis this
  end.

(** The loop of [getChildAtPos]. *)
Fixpoint getChildAtPos_loop (this : wid) (pos : Z) (pending : list cnid) : M (option wid) :=
  match pending with
  | [] => ret None
  | compilerChild :: rest =>
      child <- wrapChild this compilerChild ;;
      cp <- getPos child ;;
      if pos >=? cp then
        ce <- getEnd child ;;
        if pos <? ce then ret (Some child) else getChildAtPos_loop this pos rest
      else getChildAtPos_loop this pos rest
  end.

(** [getChildAtPos(pos)]. *)
Definition getChildAtPos (this : wid) (pos : Z) : M (option wid) :=
  p <- getPos this ;;
  if pos <? p then ret None else
  e <- getEnd this ;;
  if pos >=? e then ret None else
  pending <- getChildrenIterator this ;;
  getChildAtPos_loop this pos pending.

(** The [while (true)] loop of [getDescendantAtPos]. *)
Fixpoint getDescendantAtPos_loop (fuel : nat) (this : wid) (node : option wid) (pos : Z)
    : M (option wid) :=
  match fuel with
  | O => outOfFuel
  | S fuel' =>
      nextNode <- getChildAtPos (default this node) pos ;;
      match nextNode with
      | None => ret node
      | Some n => getDescendantAtPos_loop fuel' this (Some n) pos
      end
  end.

(** [getDescendantAtPos(pos)]. *)
Definition getDescendantAtPos (fuel : nat) (this : wid) (pos : Z) : M (option wid) :=
  getDescendantAtPos_loop fuel this None pos.

(** [getParent()]. *)
Definition getParent (this : wid) : M (option wid) :=
  c <- compilerNode this ;;
  p <- tsGet ts.parent c ;;
  match p with
  | None => ret None
  | Some pc =>
      sf <- getSourceFile this ;;
      w <- CompilerFactory.getNodeFromCompilerNode pc sf ;;
      ret (Some w)
  end.

(** [getParentOrThrow()]. *)
Definition getParentOrThrow (this : wid) : M wid :=
  p <- getParent this ;;
  throwIfNullOrUndefined p "A parent is required to do this operation.".

(** The loop of [getParentSyntaxList]. *)
Fixpoint getParentSyntaxList_loop (this : wid) (pos end_ : Z) (children : list wid)
    : M (option wid) :=
  match children with
  | [] => ret None
  | child :: rest =>
      cp <- getPos child ;;
      if (cp >? pos) || Nat.eqb child this then ret None else
      k <- getKind child ;;
      if bool_decide (k = ts.SyntaxList) then
        cp' <- getPos child ;;
        if cp' <=? pos then
          ce <- getEnd child ;;
          if ce >=? end_ then ret (Some child)
          else getParentSyntaxList_loop this pos end_ rest
        else getParentSyntaxList_loop this pos end_ rest
      else getParentSyntaxList_loop this pos end_ rest
  end.

(** [getParentSyntaxList()]. *)
Definition getParentSyntaxList (this : wid) : M (option wid) :=
  parent <- getParent this ;;
  match parent with
  | None => ret None
  | Some parent =>
      pos <- getPos this ;;
      end_ <- getEnd this ;;
      children <- getChildren parent ;;
      getParentSyntaxList_loop this pos end_ children
  end.

(** [this.getParentSyntaxList() || this.getParentOrThrow()]. *)
Definition getSiblingContainer (this : wid) : M wid :=
  syntaxList <- getParentSyntaxList this ;;
  match syntaxList with
  | Some l => ret l
  | None => getParentOrThrow this
  end.

(** The loop of [getPreviousSiblings]: [splice(0, 0, child)] prepends. *)
Fixpoint getPreviousSiblings_loop (this parent : wid) (pending : list cnid)
    (previousSiblings : list wid) : M (list wid) :=
  match pending with
  | [] => ret previousSiblings
  | compilerChild :: rest =>
      child <- wrapChild parent compilerChild ;;
      if Nat.eqb child this then ret previousSiblings
      else getPreviousSiblings_loop this parent rest (child :: previousSiblings)
  end.

(** [getPreviousSiblings()]. *)
Definition getPreviousSiblings (this : wid) : M (list wid) :=
  parent <- getSiblingContainer this ;;
  pending <- getChildrenIterator parent ;;
  getPreviousSiblings_loop this parent pending [].

(** The loop of [getNextSiblings]: [push(child)] appends. *)
Fixpoint getNextSiblings_loop (this parent : wid) (pending : list cnid)
    (foundChild : bool) (nextSiblings : list wid) : M (list wid) :=
  match pending with
  | [] => ret nextSiblings
  | compilerChild :: rest =>
      child <- wrapChild parent compilerChild ;;
      if negb foundChild then
        getNextSiblings_loop this parent rest (Nat.eqb child this) nextSiblings
      else getNextSiblings_loop this parent rest foundChild (nextSiblings ++ [child])
  end.

(** [getNextSiblings()]. *)
Definition getNextSiblings (this : wid) : M (list wid) :=
  parent <- getSiblingContainer this ;;
  pending <- getChildrenIterator parent ;;
  getNextSiblings_loop this parent pending false [].

(** The loop of [getFirstChild]. *)
Fixpoint getFirstChild_loop (this : wid) (condition : wid -> M bool) (pending : list cnid)
    : M (option wid) :=
  match pending with
  | [] => ret None
  | compilerChild :: rest =>
      child <- wrapChild this compilerChild ;;
      matches <- condition child ;;
      if matches then ret (Some child) else getFirstChild_loop this condition rest
  end.

(** [getFirstChild(condition)] with a condition. *)
Definition getFirstChild (this : wid) (condition : wid -> M bool) : M (option wid) :=
  pending <- getChildrenIterator this ;;
  getFirstChild_loop this condition pending.

(** [getFirstChildByKind(kind)]. *)
Definition getFirstChildByKind (this : wid) (kind : ts.SyntaxKind) : M (option wid) :=
  getFirstChild this (fun child => k <- getKind child ;; ret (bool_decide (k = kind))).

(** The loop of [isFirstNodeOnLine]: [i] indices remain to be scanned, the
    next one being [i - 1]; an index past the end of the text reads
    [undefined]. *)
Fixpoint isFirstNodeOnLine_loop (sourceFileText : string) (i : nat) : bool :=
  match i with
  | O => false
  | S j =>
      match String.get j sourceFileText with
      | Some currentChar =>
          if Ascii.eqb currentChar " " || Ascii.eqb currentChar "009" then
            isFirstNodeOnLine_loop sourceFileText j
          else if Ascii.eqb currentChar "010" then true
          else false
      | None => false
      end
  end.

(** [isFirstNodeOnLine()]. *)
Definition isFirstNodeOnLine (this : wid) : M bool :=
  sf <- getSourceFile this ;;
  sourceFileText <- getFullText sf ;;
  startPos <- getStart this ;;
  ret (isFirstNodeOnLine_loop sourceFileText (Z.to_nat startPos)).

(** ** The tree reconciler: [UnwrapParentHandler] *)

Module AdvancedIterator.

(** Modelled from the spec: [AdvancedIterator] is not among the sources; it
    is a cursor over a children iterator, which visits the children in
    source order exactly once.  [done] tells that no child is left and
    [next()] wraps the next child and returns it with the advanced cursor;
    what [next()] throws when no child is left is a parameter. *)
Record t : Type := { owner : wid; pending : list cnid }.

Definition create (node : wid) : M t :=
  cs <- getChildrenIterator node ;;
  ret {| owner := node; pending := cs |}.

Definition done (it : t) : bool :=
  match pending it with [] => true | _ :: _ => false end.

Definition next (exhausted : exn) (it : t) : M (wid * t) :=
  match pending it with
  | [] => throw exhausted
  | c :: rest =>
      child <- wrapChild (owner it) c ;;
      ret (child, {| owner := owner it; pending := rest |})
  end.

End AdvancedIterator.

Module UnwrapParentHandler.
Section UnwrapParentHandler.

(** The collaborators that are not among the sources:
    [StraightReplacementNodeHandler.handleNode],
    [CompilerFactory.replaceCompilerNode], the search for the child syntax
    list (its type guards are absent) and the failure of an exhausted
    iterator. *)
Variable straightReplacementNodeHandler_handleNode : wid -> wid -> M unit.
Variable compilerFactory_replaceCompilerNode : wid -> cnid -> M unit.
Variable getChildSyntaxListOrThrow : wid -> M wid.
Variable exhausted : exn.

(** The constructor argument [childIndex]. *)
Variable childIndex : nat.

Abbreviation nextOf := (AdvancedIterator.next exhausted).

(** [while (!cur.done && !new.done && index++ < this.childIndex)], with
    [remaining = childIndex - index]. *)
Fixpoint replaceUntilChild (remaining : nat) (cur new : AdvancedIterator.t)
    : M (AdvancedIterator.t * AdvancedIterator.t) :=
  match remaining with
  | O => ret (cur, new)
  | S remaining' =>
      if AdvancedIterator.done cur || AdvancedIterator.done new then ret (cur, new)
      else
        c <- nextOf cur ;;
        n <- nextOf new ;;
        straightReplacementNodeHandler_handleNode c.1 n.1 ;;
        replaceUntilChild remaining' c.2 n.2
  end.

(** [for (const child of childSyntaxList.getChildren())]. *)
Fixpoint rehostChildren (children : list wid) (new : AdvancedIterator.t)
    : M AdvancedIterator.t :=
  match children with
  | [] => ret new
  | child :: rest =>
      n <- nextOf new ;;
      straightReplacementNodeHandler_handleNode child n.1 ;;
      rehostChildren rest n.2
  end.

(** The local function [disposeNodes]. *)
Fixpoint disposeNodes (fuel : nat) (childSyntaxList node : wid) : M unit :=
  match fuel with
  | O => outOfFuel
  | S fuel' =>
      if Nat.eqb node childSyntaxList then disposeOnlyThis node
      else
        children <- getChildren node ;;
        forEach children (disposeNodes fuel' childSyntaxList) ;;
        disposeOnlyThis node
  end.

(** [while (!currentNodeChildren.done)], by recursion on what the current
    iterator still holds. *)
Fixpoint handleRest_loop (curOwner : wid) (curPending : list cnid)
    (new : AdvancedIterator.t) : M AdvancedIterator.t :=
  match curPending with
  | [] => ret new
  | c :: rest =>
      child <- wrapChild curOwner c ;;
      n <- nextOf new ;;
      straightReplacementNodeHandler_handleNode child n.1 ;;
      handleRest_loop curOwner rest n.2
  end.

Definition handleRest (cur new : AdvancedIterator.t) : M AdvancedIterator.t :=
  handleRest_loop (AdvancedIterator.owner cur) (AdvancedIterator.pending cur) new.

(** [handleNode] up to the check of the new children iterator: the four
    pairing and disposal phases; the result is the new node's iterator. *)
Definition pairChildren (fuel : nat) (currentNode newNode : wid) : M AdvancedIterator.t :=
  currentNodeChildren <- AdvancedIterator.create currentNode ;;
  newNodeChildren <- AdvancedIterator.create newNode ;;
  iterators <- replaceUntilChild childIndex currentNodeChildren newNodeChildren ;;
  currentChild <- nextOf iterators.1 ;;
  childSyntaxList <- getChildSyntaxListOrThrow currentChild.1 ;;
  children <- getChildren childSyntaxList ;;
  newNodeChildren <- rehostChildren children iterators.2 ;;
  disposeNodes fuel childSyntaxList currentChild.1 ;;
  handleRest currentChild.2 newNodeChildren.

(** [handleNode(currentNode, newNode)]. *)
Definition handleNode (fuel : nat) (currentNode newNode : wid) : M unit :=
  newNodeChildren <- pairChildren fuel currentNode newNode ;;
  if negb (AdvancedIterator.done newNodeChildren) then
    throw (Error "Error replacing tree: Should not have more children left over.")
  else
    nc <- compilerNode newNode ;;
    compilerFactory_replaceCompilerNode currentNode nc.

End UnwrapParentHandler.
End UnwrapParentHandler.

(** The spec's TreeReplacementError kind: the sources have no class of that
    name, the reconciler raises an [Error] whose message begins with
    [Error replacing tree]. *)
Definition isTreeReplacementError (e : exn) : bool :=
  match e with
  | Error message => String.prefix "Error replacing tree" message
  | _ => false
  end.

(** ** The wrapper class [Node]: further navigation *)

(** An omitted [condition] argument: [condition == null] holds, so every
    node is accepted without calling anything. *)
Definition noCondition : wid -> M bool := fun _ => ret true.

(** The arrow function [n => n.getKind() === kind]. *)
Definition isKind (kind : ts.SyntaxKind) (node : wid) : M bool :=
  k <- getKind node ;; ret (bool_decide (k = kind)).

(** [for (const x of xs) { if (condition(x)) return x; } return undefined]
    over an array of wrappers. *)
Fixpoint findM (condition : wid -> M bool) (xs : list wid) : M (option wid) :=
  match xs with
  | [] => ret None
  | x :: rest =>
      matches <- condition x ;;
      if matches then ret (Some x) else findM condition rest
  end.

(** [xs.filter(condition)]: the callback runs on every element, in order. *)
Fixpoint filterM (condition : wid -> M bool) (xs : list wid) : M (list wid) :=
  match xs with
  | [] => ret []
  | x :: rest =>
      keep <- condition x ;;
      kept <- filterM condition rest ;;
      ret (if keep then x :: kept else kept)
  end.

(** [x != null && x.getKind() === kind ? x : undefined]; also
    [x == null || x.getKind() !== kind ? undefined : x]. *)
Definition ifKind (kind : ts.SyntaxKind) (node : option wid) : M (option wid) :=
  match node with
  | None => ret None
  | Some n =>
      k <- getKind n ;;
      if bool_decide (k = kind) then ret (Some n) else ret None
  end.

(** [this.sourceFile = sourceFile]. *)
Definition assignSourceFile (this : wid) (sf : wid) : M unit := fun s =>
  let node := {| _compilerNode := _compilerNode (heap s this); sourceFile := sf;
                 global := global (heap s this) |} in
  (Ok tt, set_heap (<[this := node]> (heap s)) s).

(** [setSourceFile(sourceFile)]. *)
Fixpoint setSourceFile (fuel : nat) (this : wid) (sf : wid) : M unit :=
  match fuel with
  | O => outOfFuel
  | S fuel' =>
      assignSourceFile this sf ;;
      children <- getChildren this ;;
      forEach children (fun child => setSourceFile fuel' child sf)
  end.

(** [getLastChild(condition)]: [getChildren()] wraps every child before the
    reversed array is searched. *)
Definition getLastChild (this : wid) (condition : wid -> M bool) : M (option wid) :=
  children <- getChildren this ;;
  findM condition (rev children).



(** The walk of [getDescendantsIterator] over the children that are still
    to be wrapped: each child is yielded, then its own descendants. *)
Fixpoint getDescendants_children (descend : wid -> M (list wid)) (this : wid)
    (pending : list cnid) : M (list wid) :=
  match pending with
  | [] => ret []
  | compilerChild :: rest =>
      child <- wrapChild this compilerChild ;;
      inner <- descend child ;;
      others <- getDescendants_children descend this rest ;;
      ret (child :: inner ++ others)%list
  end.

(** [getDescendants()]: [ArrayUtils.from] runs [getDescendantsIterator()] to
    its end.  The recursion follows the wrappers the factory returns, so it
    is bounded by fuel. *)
Fixpoint getDescendants (fuel : nat) (this : wid) : M (list wid) :=
  match fuel with
  | O => outOfFuel
  | S fuel' =>
      pending <- getChildrenIterator this ;;
      getDescendants_children (getDescendants fuel') this pending
  end.

(** The search of [getFirstDescendant] through [getDescendantsIterator()]:
    the iterator is advanced only as far as the first match, so a child is
    tested before its own children are read. *)
Fixpoint getFirstDescendant_children (search : wid -> M (option wid))
    (condition : wid -> M bool) (this : wid) (pending : list cnid) : M (option wid) :=
  match pending with
  | [] => ret None
  | compilerChild :: rest =>
      child <- wrapChild this compilerChild ;;
      matches <- condition child ;;
      if matches then ret (Some child)
      else
        found <- search child ;;
        match found with
        | Some descendant => ret (Some descendant)
        | None => getFirstDescendant_children search condition this rest
        end
  end.

(** [getFirstDescendant(condition)]. *)
Fixpoint getFirstDescendant (fuel : nat) (this : wid) (condition : wid -> M bool)
    : M (option wid) :=
  match fuel with
  | O => outOfFuel
  | S fuel' =>
      pending <- getChildrenIterator this ;;
      getFirstDescendant_children (fun child => getFirstDescendant fuel' child condition)
        condition this pending
  end.

(** [getFirstDescendantOrThrow(condition)]. *)
Definition getFirstDescendantOrThrow (fuel : nat) (this : wid) (condition : wid -> M bool)
    : M wid :=
  descendant <- getFirstDescendant fuel this condition ;;
  throwIfNullOrUndefined descendant
    "Could not find a descendant that matched the specified condition.".

(** The [while (parent != null)] loop of [getAncestorsIterator], run to its
    end by [ArrayUtils.from]. *)
Fixpoint getAncestors_loop (fuel : nat) (parent : option wid) : M (list wid) :=
  match parent with
  | None => ret []
  | Some p =>
      match fuel with
      | O => outOfFuel
      | S fuel' =>
          grandparent <- getParent p ;;
          rest <- getAncestors_loop fuel' grandparent ;;
          ret (p :: rest)
      end
  end.

(** [getAncestors()]. *)
Definition getAncestors (fuel : nat) (this : wid) : M (list wid) :=
  parent <- getParent this ;;
  getAncestors_loop fuel parent.

(** The loop of [getParentWhile]. *)
Fixpoint getParentWhile_loop (fuel : nat) (condition : wid -> M bool)
    (node nextParent : option wid) : M (option wid) :=
  match nextParent with
  | None => ret node
  | Some p =>
      match fuel with
      | O => outOfFuel
      | S fuel' =>
          matches <- condition p ;;
          if matches then
            grandparent <- getParent p ;;
            getParentWhile_loop fuel' condition (Some p) grandparent
          else ret node
      end
  end.

(** [getParentWhile(condition)]. *)
Definition getParentWhile (fuel : nat) (this : wid) (condition : wid -> M bool)
    : M (option wid) :=
  nextParent <- getParent this ;;
  getParentWhile_loop fuel condition None nextParent.

(** [getParentWhileOrThrow(condition)]. *)
Definition getParentWhileOrThrow (fuel : nat) (this : wid) (condition : wid -> M bool)
    : M wid :=
  node <- getParentWhile fuel this condition ;;
  throwIfNullOrUndefined node "The initial parent did not match the provided condition.".

(** [getParentWhileKind(kind)]. *)
Definition getParentWhileKind (fuel : nat) (this : wid) (kind : ts.SyntaxKind)
    : M (option wid) :=
  getParentWhile fuel this (isKind kind).

(** [isInSyntaxList()]. *)
Definition isInSyntaxList (this : wid) : M bool :=
  syntaxList <- getParentSyntaxList this ;;
  ret (match syntaxList with Some _ => true | None => false end).

(** [getParentSyntaxListOrThrow()]. *)
Definition getParentSyntaxListOrThrow (this : wid) : M wid :=
  syntaxList <- getParentSyntaxList this ;;
  throwIfNullOrUndefined syntaxList "Expected the parent to be a syntax list.".

(** The loop of [getChildIndex], with the [throw] that follows it. *)
Fixpoint getChildIndex_loop (this : wid) (children : list wid) (i : nat) : M nat :=
  match children with
  | [] =>
      throw (NotImplementedError
               "For some reason the child's parent did not contain the child.")
  | child :: rest =>
      if Nat.eqb child this then ret i else getChildIndex_loop this rest (S i)
  end.

(** [getChildIndex()]. *)
Definition getChildIndex (this : wid) : M nat :=
  parent <- getSiblingContainer this ;;
  children <- getChildren parent ;;
  getChildIndex_loop this children O.

(** [sourceFileText[i]]: [undefined] outside the text. *)
Definition charAt (sourceFileText : string) (i : Z) : option ascii :=
  if i <? 0 then None else String.get (Z.to_nat i) sourceFileText.

(** The loop of [getIndentationText]: [remaining] iterations are left, the
    next one reading index [i]. *)
Fixpoint getIndentationText_loop (sourceFileText : string) (remaining : nat) (i : Z)
    (text : string) : string :=
  match remaining with
  | O => text
  | S remaining' =>
      match charAt sourceFileText i with
      | Some currentChar =>
          if Ascii.eqb currentChar " " || Ascii.eqb currentChar "009" then
            getIndentationText_loop sourceFileText remaining' (i - 1)
              (String currentChar text)
          else if Ascii.eqb currentChar "010" then text
          else getIndentationText_loop sourceFileText remaining' (i - 1) ""
      | None => getIndentationText_loop sourceFileText remaining' (i - 1) ""
      end
  end.

Section textSeek.

(** [getPreviousMatchingPos] of the text manipulation helpers is not among
    the sources. *)
Variable getPreviousMatchingPos : string -> Z -> (ascii -> bool) -> Z.

(** [getStartLinePos()]. *)
Definition getStartLinePos (this : wid) : M Z :=
  sf <- getSourceFile this ;;
  sourceFileText <- getFullText sf ;;
  start <- getStart this ;;
  ret (getPreviousMatchingPos sourceFileText start (fun char => Ascii.eqb char "010")).

(** [getIndentationText()]: the loop runs for [i] from [startPos - 1] down
    to [startLinePos]. *)
Definition getIndentationText (this : wid) : M string :=
  sf <- getSourceFile this ;;
  sourceFileText <- getFullText sf ;;
  startLinePos <- getStartLinePos this ;;
  startPos <- getStart this ;;
  ret (getIndentationText_loop sourceFileText (Z.to_nat (startPos - startLinePos))
         (startPos - 1) "").

End textSeek.

(** [getChildrenOfKind(kind)]. *)
Definition getChildrenOfKind (this : wid) (kind : ts.SyntaxKind) : M (list wid) :=
  children <- getChildren this ;;
  filterM (isKind kind) children.

(** [getFirstChildIfKind(kind)]. *)
Definition getFirstChildIfKind (this : wid) (kind : ts.SyntaxKind) : M (option wid) :=
  firstChild <- getFirstChild this noCondition ;;
  ifKind kind firstChild.

(** [getLastChildByKind(kind)]. *)
Definition getLastChildByKind (this : wid) (kind : ts.SyntaxKind) : M (option wid) :=
  getLastChild this (isKind kind).

(** [getLastChildIfKind(kind)]. *)
Definition getLastChildIfKind (this : wid) (kind : ts.SyntaxKind) : M (option wid) :=
  lastChild <- getLastChild this noCondition ;;
  ifKind kind lastChild.

(** [getParentIfKind(kind)]. *)
Definition getParentIfKind (this : wid) (kind : ts.SyntaxKind) : M (option wid) :=
  parentNode <- getParent this ;;
  ifKind kind parentNode.

(** [getFirstAncestorByKind(kind)]. *)
Definition getFirstAncestorByKind (fuel : nat) (this : wid) (kind : ts.SyntaxKind)
    : M (option wid) :=
  ancestors <- getAncestors fuel this ;;
  findM (isKind kind) ancestors.

(** [getDescendantsOfKind(kind)]. *)
Definition getDescendantsOfKind (fuel : nat) (this : wid) (kind : ts.SyntaxKind)
    : M (list wid) :=
  descendants <- getDescendants fuel this ;;
  filterM (isKind kind) descendants.

(** [getFirstDescendantByKind(kind)]: its loop over
    [getDescendantsIterator()] is that of [getFirstDescendant] with the test
    [descendant.getKind() === kind]. *)
Definition getFirstDescendantByKind (fuel : nat) (this : wid) (kind : ts.SyntaxKind)
    : M (option wid) :=
  getFirstDescendant fuel this (isKind kind).

Section getDescendantAtStartWithWidth.

(** What [getWidth()] of a compiler node returns is not among the answers
    [ts.Node] records; it is a parameter. *)
Variable compilerGetWidth : ts.Node -> Z.

(** [getWidth()]. *)
Definition getWidth (this : wid) : M Z :=
  c <- compilerNode this ;;
  sf <- getSourceFile this ;;
  _ <- compilerNode sf ;;
  tsGet compilerGetWidth c.

(** The [do ... while (nextNode != null)] loop of
    [getDescendantAtStartWithWidth]. *)
Fixpoint getDescendantAtStartWithWidth_loop (fuel : nat) (nextNode : wid)
    (foundNode : option wid) (start width : Z) : M (option wid) :=
  match fuel with
  | O => outOfFuel
  | S fuel' =>
      nextNode <- getChildAtPos nextNode start ;;
      match nextNode with
      | None => ret foundNode
      | Some n =>
          nodeStart <- getStart n ;;
          matches <- (if nodeStart =? start then
                        nodeWidth <- getWidth n ;; ret (nodeWidth =? width)
                      else ret false) ;;
          if matches then
            getDescendantAtStartWithWidth_loop fuel' n (Some n) start width
          else
            match foundNode with
            | Some _ => ret foundNode
            | None => getDescendantAtStartWithWidth_loop fuel' n foundNode start width
            end
      end
  end.

(** [getDescendantAtStartWithWidth(start, width)]. *)
Definition getDescendantAtStartWithWidth (fuel : nat) (this : wid) (start width : Z)
    : M (option wid) :=
  sf <- getSourceFile this ;;
  getDescendantAtStartWithWidth_loop fuel sf None start width.

End getDescendantAtStartWithWidth.

(** ** [getRangeFromArray] *)

(** [array.slice(start, end)] of ECMAScript on integer arguments: a negative
    index counts from the end, and both are clamped to the array. *)
Definition slice {A : Type} (array : list A) (start end_ : Z) : list A :=
  let len := Z.of_nat (length array) in
  let k := if start <? 0 then Z.max (len + start) 0 else Z.min start len in
  let final := if end_ <? 0 then Z.max (len + end_) 0 else Z.min end_ len in
  take (Z.to_nat (final - k)) (drop (Z.to_nat k) array).

Section getRangeFromArray.

(** The reverse mapping [ts.SyntaxKind[kind]] of the compiler's enum, and
    the text of a number in a template string. *)
Variable syntaxKindName : ts.SyntaxKind -> string.
Variable numberText : Z -> string.

(** [getKindName()]. *)
Definition getKindName (this : wid) : M string :=
  c <- compilerNode this ;;
  k <- tsGet ts.kind c ;;
  ret (syntaxKindName k).

(** The loop of [getRangeFromArray] over the sliced children. *)
Fixpoint checkKinds (expectedKind : ts.SyntaxKind) (children : list wid) : M unit :=
  match children with
  | [] => ret tt
  | child :: rest =>
      k <- getKind child ;;
      if negb (bool_decide (k = expectedKind)) then
        name <- getKindName child ;;
        throw (NotImplementedError
                 ("Unexpected! Inserting syntax kind of " ++ syntaxKindName expectedKind
                  ++ ", but " ++ name ++ " was inserted."))
      else checkKinds expectedKind rest
  end.

(** [getRangeFromArray(array, index, length, expectedKind)]. *)
Definition getRangeFromArray (array : list wid) (index length_ : Z)
    (expectedKind : ts.SyntaxKind) : M (list wid) :=
  let children := slice array index (index + length_) in
  if negb (Z.of_nat (length children) =? length_) then
    throw (NotImplementedError
             ("Unexpected! Inserted " ++ numberText length_ ++ " child/children, but "
              ++ numberText (Z.of_nat (length children)) ++ " were inserted."))
  else
    checkKinds expectedKind children ;;
    ret children.

End getRangeFromArray.

(** * Specification vocabulary *)

(** ** Wrapper states *)

(** [bound s w c]: wrapper [w] is live and wraps compiler node [c]. *)
Definition bound (s : State) (w : wid) (c : cnid) : Prop :=
  _compilerNode (heap s w) = Some c.

(** [disposed s w]: the internal compiler-node pointer of [w] is null. *)
Definition disposed (s : State) (w : wid) : Prop :=
  _compilerNode (heap s w) = None.

(** The invariants the factory maintains: every cache entry leads to a live
    wrapper of its key; every live wrapper is the cache entry of its
    compiler node (uniqueness); no wrapper exists beyond [next]. *)
Definition cacheBound (s : State) : Prop :=
  forall k w, nodeCache s !! k = Some w -> bound s w k.

Definition liveCached (s : State) : Prop :=
  forall w k, bound s w k -> nodeCache s !! k = Some w.

Definition unallocatedDisposed (s : State) : Prop :=
  forall w, (next s <= w)%nat -> disposed s w.

Definition consistent (s : State) : Prop :=
  cacheBound s /\ liveCached s /\ unallocatedDisposed s.

(** Every live wrapper belongs to a live source-file wrapper. *)
Definition sourceFilesLive (s : State) : Prop :=
  forall w k, bound s w k -> exists c, bound s (sourceFile (heap s w)) c.

(** The message of the [compilerNode] getter. *)
Definition removedFromAst : exn :=
  InvalidOperationError
    "Attempted to get information from a node that was removed from the AST.".

(** [created ks s s1]: from [s] to [s1] the factory has at most created
    wrappers for compiler nodes among [ks]; nothing was removed. *)
Definition created (ks : list cnid) (s s1 : State) : Prop :=
  nodes s1 = nodes s /\
  (next s <= next s1)%nat /\
  (forall k, k ∉ ks -> nodeCache s1 !! k = nodeCache s !! k) /\
  (forall k w, nodeCache s !! k = Some w -> nodeCache s1 !! k = Some w) /\
  (forall w k, bound s w k -> heap s1 w = heap s w) /\
  (forall w k, bound s1 w k -> bound s w k \/ (disposed s w /\ k ∈ ks)).

(** [removed ks s s']: from [s] to [s'] exactly the compiler nodes [ks] lost
    their cache entry and their live wrapper; no wrapper is live in [s']
    that was not live, on the same node, in [s]. *)
Definition removed (ks : list cnid) (s s' : State) : Prop :=
  nodes s' = nodes s /\
  (next s <= next s')%nat /\
  (forall k, k ∈ ks -> nodeCache s' !! k = None) /\
  (forall k, k ∉ ks -> nodeCache s' !! k = nodeCache s !! k) /\
  (forall w k, bound s' w k -> bound s w k /\ k ∉ ks) /\
  (forall w k, bound s w k -> k ∉ ks -> bound s' w k).

(** ** The shape of the compiler tree below a node *)

(** The compiler's object graph below a node is a finite tree; [Tree]
    names that tree, with the identity of each node. *)
#[local] Unset Elimination Schemes.
Inductive Tree : Type :=
| T (root : cnid) (subtrees : list Tree).
#[local] Set Elimination Schemes.

Definition rootOf (t : Tree) : cnid := match t with T r _ => r end.

(** The identities of the nodes of a tree, in preorder. *)
Fixpoint ids (t : Tree) : list cnid :=
  match t with T r ts => r :: concat (map ids ts) end.

Fixpoint height (t : Tree) : nat :=
  match t with T _ ts => S (foldr Nat.max O (map height ts)) end.

(** [shape nodes t]: in the store, the children of each node of [t] are the
    roots of its subtrees, in order. *)
Fixpoint shape (nodes : cnid -> ts.Node) (t : Tree) : bool :=
  match t with
  | T r ts =>
      bool_decide (ts.getChildren (nodes r) = map rootOf ts) && forallb (shape nodes) ts
  end.

(** [containsPos nodes k p]: [k.pos <= p < k.end]. *)
Definition containsPos (nodes : cnid -> ts.Node) (k : cnid) (p : Z) : Prop :=
  ts.pos (nodes k) <= p /\ p < ts.end_ (nodes k).

(** Siblings are disjoint in [pos]-order: an earlier child ends before a
    later child begins. *)
Fixpoint siblingsOrdered (nodes : cnid -> ts.Node) (ks : list cnid) : bool :=
  match ks with
  | [] => true
  | k :: rest =>
      forallb (fun k' => ts.end_ (nodes k) <=? ts.pos (nodes k')) rest
      && siblingsOrdered nodes rest
  end.

Fixpoint positionallyOrdered (nodes : cnid -> ts.Node) (t : Tree) : bool :=
  match t with
  | T r ts => siblingsOrdered nodes (map rootOf ts) && forallb (positionallyOrdered nodes) ts
  end.

(** The test of [getChildAtPos] on a child, and the child the loop stops at. *)
Definition containsPosb (nodes : cnid -> ts.Node) (k : cnid) (p : Z) : bool :=
  (p >=? ts.pos (nodes k)) && (p <? ts.end_ (nodes k)).

Definition childAtPos (nodes : cnid -> ts.Node) (c : cnid) (p : Z) : option cnid :=
  if p <? ts.pos (nodes c) then None
  else if p >=? ts.end_ (nodes c) then None
  else find (fun k => containsPosb nodes k p) (ts.getChildren (nodes c)).

(** The compiler's source file node starts at 0 and is tiled by its children
    (the syntax list of its statements and the end-of-file token): every
    position of the file lies in one of them. *)
Definition tiledSourceFile (nodes : cnid -> ts.Node) (c : cnid) : Prop :=
  ts.pos (nodes c) = 0 /\
  forall p, 0 <= p < ts.end_ (nodes c) ->
    exists k, In k (ts.getChildren (nodes c)) /\ containsPos nodes k p.

(** [descent nodes p c d]: starting at [c], stepping each time to the one
    child that contains [p], one arrives at [d], which has no such child. *)
Inductive descent (nodes : cnid -> ts.Node) (p : Z) : cnid -> cnid -> Prop :=
| descent_stop c :
    (forall k, In k (ts.getChildren (nodes c)) -> ~ containsPos nodes k p) ->
    descent nodes p c c
| descent_step c k d :
    In k (ts.getChildren (nodes c)) ->
    containsPos nodes k p ->
    (forall k', In k' (ts.getChildren (nodes c)) -> containsPos nodes k' p -> k' = k) ->
    descent nodes p k d ->
    descent nodes p c d.

(** [descendsSubtree t]: from a wrapper of the root of [t] that contains
    the position, the loop of [getDescendantAtPos] returns, with enough
    fuel, a wrapper of the node the descent arrives at. *)
Definition descendsSubtree (t : Tree) : Prop :=
  forall fuel s this wn pos,
    (height t <= fuel)%nat -> shape (nodes s) t = true ->
    positionallyOrdered (nodes s) t = true ->
    consistent s -> sourceFilesLive s -> bound s wn (rootOf t) ->
    containsPos (nodes s) (rootOf t) pos ->
    exists wd d s1,
      getDescendantAtPos_loop fuel this (Some wn) pos s = (Ok (Some wd), s1) /\
      consistent s1 /\ sourceFilesLive s1 /\ nodes s1 = nodes s /\
      bound s1 wd d /\ descent (nodes s) pos (rootOf t) d /\
      containsPos (nodes s) d pos.

(** [extends s s1]: from [s] to [s1] the compiler nodes are the same and
    every live wrapper still wraps its node. *)
Definition extends (s s1 : State) : Prop :=
  nodes s1 = nodes s /\ forall w k, bound s w k -> bound s1 w k.

(** What [getParentSyntaxList] computes, on compiler nodes: the first child
    of the parent that is a syntax list spanning the node, unless a child
    that starts after the node, or the node itself, comes first. *)
Fixpoint parentSyntaxList_loop (nodes : cnid -> ts.Node) (c : cnid) (ks : list cnid)
    : option cnid :=
  match ks with
  | [] => None
  | k :: rest =>
      if (ts.pos (nodes k) >? ts.pos (nodes c)) || Nat.eqb k c then None
      else if bool_decide (ts.kind (nodes k) = ts.SyntaxList)
              && (ts.pos (nodes k) <=? ts.pos (nodes c))
              && (ts.end_ (nodes k) >=? ts.end_ (nodes c))
      then Some k
      else parentSyntaxList_loop nodes c rest
  end.

Definition parentSyntaxList (nodes : cnid -> ts.Node) (c : cnid) : option cnid :=
  match ts.parent (nodes c) with
  | None => None
  | Some p => parentSyntaxList_loop nodes c (ts.getChildren (nodes p))
  end.

(** The node whose children [getPreviousSiblings] and [getNextSiblings]
    walk: the parent syntax list if there is one, else the parent. *)
Definition siblingContainer (nodes : cnid -> ts.Node) (c : cnid) : option cnid :=
  match parentSyntaxList nodes c with
  | Some l => Some l
  | None => ts.parent (nodes c)
  end.

(** ** Building concrete states *)

(** A wrapper that was disposed, or never allocated. *)
Definition noNode : Node := {| _compilerNode := None; sourceFile := O; global := O |}.

Definition heapOf (wrappers : list Node) : wid -> Node :=
  fun w => nth w wrappers noNode.

Definition nodesOf (compilerNodes : list ts.Node) : cnid -> ts.Node :=
  fun c => nth c compilerNodes
    {| ts.kind := ts.OtherKind 0; ts.pos := 0; ts.end_ := 0; ts.parent := None;
       ts.getChildren := []; ts.getStart := 0; ts.getFullText := "" |}.

(** The state with the given compiler nodes and wrappers, each live wrapper
    being registered in the cache under its compiler node. *)
Definition cacheOf (wrappers : list Node) : gmap cnid wid :=
  foldr (fun '(w, node) cache =>
           match _compilerNode node with
           | Some c => <[c := w]> cache
           | None => cache
           end) ∅ (imap (fun w node => (w, node)) wrappers).

Definition stateOf (compilerNodes : list ts.Node) (wrappers : list Node) : State :=
  {| nodes := nodesOf compilerNodes; heap := heapOf wrappers;
     nodeCache := cacheOf wrappers; container := O; next := length wrappers |}.

(** The decidable form of [consistent] for such states. *)
Definition consistentb (s : State) : bool :=
  forallb (fun w =>
    match _compilerNode (heap s w) with
    | Some c => bool_decide (nodeCache s !! c = Some w)
    | None => true
    end) (seq 0 (next s))
  && forallb (fun '(k, w) =>
       bool_decide (_compilerNode (heap s w) = Some k) && (w <? next s)%nat)
     (map_to_list (nodeCache s)).

Definition sourceFilesLiveb (s : State) : bool :=
  forallb (fun w =>
    match _compilerNode (heap s w) with
    | Some _ => bool_decide (is_Some (_compilerNode (heap s (sourceFile (heap s w)))))
    | None => true
    end) (seq 0 (next s)).

(** ** A sample file *)

(** The file [a;\n  b;] (a line break after the first statement, two spaces
    before the second) as the compiler parses it: the source file (0) has
    the children syntax list (1) and end-of-file token (8); the syntax list
    holds the two expression statements (2 and 5), each an identifier and a
    semicolon token.  Statements and tokens have the source file as parent
    pointer; the end-of-file token is empty and sits where the syntax list
    ends. *)
Definition sampleText : string := "a;" ++ String "010" "  b;".

Definition tsNode (kind : ts.SyntaxKind) (pos end_ : Z) (parent : option cnid)
    (children : list cnid) (start : Z) : ts.Node :=
  {| ts.kind := kind; ts.pos := pos; ts.end_ := end_; ts.parent := parent;
     ts.getChildren := children; ts.getStart := start;
     ts.getFullText :=
       String.substring (Z.to_nat pos) (Z.to_nat (end_ - pos)) sampleText |}.

Definition sampleNodes : list ts.Node :=
  [ tsNode ts.SourceFile 0 7 None [1; 8]%nat 0;
    tsNode ts.SyntaxList 0 7 (Some 0%nat) [2; 5]%nat 0;
    tsNode (ts.OtherKind 1) 0 2 (Some 0%nat) [3; 4]%nat 0;
    tsNode (ts.OtherKind 2) 0 1 (Some 2%nat) [] 0;
    tsNode (ts.OtherKind 3) 1 2 (Some 2%nat) [] 1;
    tsNode (ts.OtherKind 1) 2 7 (Some 0%nat) [6; 7]%nat 5;
    tsNode (ts.OtherKind 2) 2 6 (Some 5%nat) [] 5;
    tsNode (ts.OtherKind 3) 6 7 (Some 5%nat) [] 6;
    tsNode ts.EndOfFileToken 7 7 (Some 0%nat) [] 7 ].

Definition sampleTree : Tree :=
  T 0 [T 1 [T 2 [T 3 []; T 4 []]; T 5 [T 6 []; T 7 []]]; T 8 []].

(** A live wrapper of compiler node [c] in the source file of wrapper 0. *)
Definition nodeOf (c : cnid) : Node :=
  {| _compilerNode := Some c; sourceFile := O; global := O |}.

(** Only the source file is wrapped. *)
Definition sampleFresh : State := stateOf sampleNodes [nodeOf 0].

(** The source file (wrapper 0), the second statement (1) and the
    end-of-file token (2) are wrapped. *)
Definition sampleWrapped : State := stateOf sampleNodes [nodeOf 0; nodeOf 5; nodeOf 8].

(** The source file is wrapped; wrapper 1 has been disposed. *)
Definition sampleDisposed : State := stateOf sampleNodes [nodeOf 0; noNode].

(** The state that [dispose()] on wrapper 1 of [sampleWrapped] leaves. *)
Definition sampleAfterDispose : State := (dispose 3 1%nat sampleWrapped).2.

(** ** A sample unwrapping *)

(** The current tree: a source file (0) whose syntax list (1) holds one
    namespace declaration (2) with keyword (3), name (4) and block (5); the
    block holds an open brace (6), a syntax list (7) with one statement (9)
    and a close brace (8).  The new tree: a source file (10) whose syntax
    list (11) holds two statements (12 and 13), one more than the
    unwrapping accounts for. *)
Definition unwrapNodes : list ts.Node :=
  [ tsNode ts.SourceFile 0 7 None [1]%nat 0;
    tsNode ts.SyntaxList 0 7 (Some 0%nat) [2]%nat 0;
    tsNode (ts.OtherKind 10) 0 7 (Some 0%nat) [3; 4; 5]%nat 0;
    tsNode (ts.OtherKind 11) 0 1 (Some 2%nat) [] 0;
    tsNode (ts.OtherKind 2) 1 2 (Some 2%nat) [] 1;
    tsNode (ts.OtherKind 12) 2 7 (Some 2%nat) [6; 7; 8]%nat 2;
    tsNode ts.FirstPunctuation 2 3 (Some 5%nat) [] 2;
    tsNode ts.SyntaxList 3 6 (Some 5%nat) [9]%nat 3;
    tsNode (ts.OtherKind 13) 6 7 (Some 5%nat) [] 6;
    tsNode (ts.OtherKind 1) 3 6 (Some 5%nat) [] 3;
    tsNode ts.SourceFile 0 6 None [11]%nat 0;
    tsNode ts.SyntaxList 0 6 (Some 10%nat) [12; 13]%nat 0;
    tsNode (ts.OtherKind 1) 0 3 (Some 10%nat) [] 0;
    tsNode (ts.OtherKind 1) 3 6 (Some 10%nat) [] 3 ].

(** Wrappers 0 and 1: the current source file and its syntax list; wrappers
    2 and 3: the new source file and its syntax list. *)
Definition unwrapState : State :=
  stateOf unwrapNodes
    [ nodeOf 0; nodeOf 1;
      {| _compilerNode := Some 10%nat; sourceFile := 2%nat; global := O |};
      {| _compilerNode := Some 11%nat; sourceFile := 2%nat; global := O |} ].

(** Collaborators for the sample: a straight replacement of a childless
    node, the factory's rebinding, and the syntax list of the last child
    (the body block) of the unwrapped node. *)
Definition sampleStraightReplacement (currentNode newNode : wid) : M unit :=
  nc <- compilerNode newNode ;;
  CompilerFactory.replaceCompilerNode currentNode nc.

Definition sampleChildSyntaxList (node : wid) : M wid :=
  children <- getChildren node ;;
  body <- throwIfNullOrUndefined (last children) "A body was expected." ;;
  syntaxList <- getFirstChildByKind body ts.SyntaxList ;;
  throwIfNullOrUndefined syntaxList "A child syntax list was expected.".

Definition sampleExhausted : exn :=
  InvalidOperationError "Cannot get the next when at the end of the iterator.".

Definition sampleHandler : nat -> wid -> wid -> M unit :=
  UnwrapParentHandler.handleNode sampleStraightReplacement
    CompilerFactory.replaceCompilerNode sampleChildSyntaxList sampleExhausted 0.

Definition samplePairing : nat -> wid -> wid -> M AdvancedIterator.t :=
  UnwrapParentHandler.pairChildren sampleStraightReplacement
    sampleChildSyntaxList sampleExhausted 0.

(** ** Siblings of the end-of-file token *)

(** For a node: its previous and next siblings, the container they are
    taken from with its children, and the parent with its children. *)
Definition siblingsReport (this : wid)
    : M (list wid * list wid * (wid * list wid) * (wid * list wid)) :=
  previous <- getPreviousSiblings this ;;
  following <- getNextSiblings this ;;
  container <- getSiblingContainer this ;;
  containerChildren <- getChildren container ;;
  parent <- getParentOrThrow this ;;
  parentChildren <- getChildren parent ;;
  ret (previous, following, (container, containerChildren), (parent, parentChildren)).

(** ** Conditions and ancestor chains *)

(** [readsNode condition p]: the callback [condition] only reads the node
    it is given; on a live wrapper of [k] it returns [p nodes k] and leaves
    the state alone. *)
Definition readsNode (condition : wid -> M bool)
    (p : (cnid -> ts.Node) -> cnid -> bool) : Prop :=
  forall s w k, bound s w k -> condition w s = (Ok (p (nodes s) k), s).

(** The test of [isKind] on compiler nodes. *)
Definition hasKind (kind : ts.SyntaxKind) (nodes : cnid -> ts.Node) (k : cnid) : bool :=
  bool_decide (ts.kind (nodes k) = kind).

(** [ancestorChain nodes c ps]: following the parent pointers from [c] one
    meets the nodes [ps], nearest first, the last of which has no parent. *)
Fixpoint ancestorChain (nodes : cnid -> ts.Node) (c : cnid) (ps : list cnid) : Prop :=
  match ps with
  | [] => ts.parent (nodes c) = None
  | p :: rest => ts.parent (nodes c) = Some p /\ ancestorChain nodes p rest
  end.

(** The longest prefix whose elements pass the test. *)
Fixpoint takeWhile {A : Type} (f : A -> bool) (l : list A) : list A :=
  match l with
  | [] => []
  | x :: rest => if f x then x :: takeWhile f rest else []
  end.

(** ** Walks of the whole subtree *)

(** The nodes strictly below the root of a tree, in preorder. *)
Definition descendantsOf (t : Tree) : list cnid :=
  match t with T _ ts => concat (map ids ts) end.

(** [collectsDescendants fuel t]: on a wrapper of the root of [t],
    [getDescendants()] returns the wrappers of the nodes below the root, in
    preorder. *)
Definition collectsDescendants (fuel : nat) (t : Tree) : Prop :=
  forall s w, shape (nodes s) t = true -> (height t <= fuel)%nat ->
    consistent s -> sourceFilesLive s -> bound s w (rootOf t) ->
    exists ws s1, getDescendants fuel w s = (Ok ws, s1) /\
      consistent s1 /\ sourceFilesLive s1 /\ extends s s1 /\
      Forall2 (fun k w' => bound s1 w' k) (descendantsOf t) ws.

(** [findsFirstDescendant condition test fuel t]: on a wrapper of the root
    of [t], [getFirstDescendant(condition)] returns the wrapper of the
    first node below the root, in preorder, that passes the test. *)
Definition findsFirstDescendant (condition : wid -> M bool)
    (test : (cnid -> ts.Node) -> cnid -> bool) (fuel : nat) (t : Tree) : Prop :=
  forall s w, shape (nodes s) t = true -> (height t <= fuel)%nat ->
    consistent s -> sourceFilesLive s -> bound s w (rootOf t) ->
    exists r s1, getFirstDescendant fuel w condition s = (Ok r, s1) /\
      consistent s1 /\ sourceFilesLive s1 /\ extends s s1 /\
      match find (test (nodes s)) (descendantsOf t) with
      | Some d => exists wd, r = Some wd /\ bound s1 wd d
      | None => r = None
      end.

(** [retargeted sf ks s s']: from [s] to [s'] every node of [ks] has got a
    live wrapper whose source file is [sf]; live wrappers stay live on
    their node, those of nodes outside [ks] are untouched, and no wrapper
    that had the source file [sf] lost it. *)
Definition retargeted (sf : wid) (ks : list cnid) (s s' : State) : Prop :=
  nodes s' = nodes s /\ consistent s' /\
  (forall w k, bound s w k -> bound s' w k) /\
  (forall w k, bound s w k -> k ∉ ks -> heap s' w = heap s w) /\
  (forall w k, bound s w k -> sourceFile (heap s w) = sf -> sourceFile (heap s' w) = sf) /\
  (forall k, k ∈ ks -> exists w, bound s' w k /\ sourceFile (heap s' w) = sf).

Definition setsSubtree (sf : wid) (fuel : nat) (t : Tree) : Prop :=
  forall s w, shape (nodes s) t = true -> (height t <= fuel)%nat ->
    consistent s -> bound s w (rootOf t) ->
    exists s', setSourceFile fuel w sf s = (Ok tt, s') /\ retargeted sf (ids t) s s'.

(** The nodes of a tree in preorder, without what lies below the node [l]. *)
Fixpoint idsUntil (l : cnid) (t : Tree) : list cnid :=
  match t with
  | T r ts => r :: (if Nat.eqb r l then [] else concat (map (idsUntil l) ts))
  end.

(** The sample file with its source file (wrapper 0) and the identifier of
    its second statement (wrapper 1) wrapped. *)
Definition sampleLeaf : State := stateOf sampleNodes [nodeOf 0; nodeOf 6].

(** ** Releasing an unwrapped node *)

Definition unwrapChildTree : Tree :=
  T 2 [T 3 []; T 4 []; T 5 [T 6 []; T 7 [T 9 []]; T 8 []]].

(** ** States the factory leaves *)

(** [cacheSound s]: every cache entry leads to a live wrapper of its key,
    and no wrapper exists beyond [next].  Unlike [consistent] it does not
    ask that every live wrapper be the cache entry of its node: a
    reconciliation leaves the wrappers of the temporary tree live on nodes
    whose cache entry has become another wrapper. *)
Definition cacheSound (s : State) : Prop :=
  cacheBound s /\ unallocatedDisposed s.

(** [grown ks s s1]: from [s] to [s1] the factory has at most constructed
    wrappers, and registered them, for compiler nodes among [ks]; the
    wrappers that existed and the cache entries that existed are as they
    were, and every wrapper constructed is the cache entry of a node of
    [ks]. *)
Definition grown (ks : list cnid) (s s1 : State) : Prop :=
  nodes s1 = nodes s /\ (next s <= next s1)%nat /\
  (forall u, (u < next s)%nat -> heap s1 u = heap s u) /\
  (forall k u, nodeCache s !! k = Some u -> nodeCache s1 !! k = Some u) /\
  (forall k, k ∉ ks -> nodeCache s1 !! k = nodeCache s !! k) /\
  (forall k u, nodeCache s1 !! k = Some u ->
     nodeCache s !! k = Some u \/ ((next s <= u)%nat /\ k ∈ ks)) /\
  (forall u, (next s <= u < next s1)%nat -> exists k, k ∈ ks /\ nodeCache s1 !! k = Some u).

(** [released ks s s']: from [s] to [s'] the nodes [ks] have lost their
    cache entry, the wrappers the cache held for them and every wrapper
    constructed on the way are disposed, and every other wrapper and cache
    entry is as it was. *)
Definition released (ks : list cnid) (s s' : State) : Prop :=
  nodes s' = nodes s /\ (next s <= next s')%nat /\
  (forall k, k ∈ ks -> nodeCache s' !! k = None) /\
  (forall k, k ∉ ks -> nodeCache s' !! k = nodeCache s !! k) /\
  (forall k u, k ∈ ks -> nodeCache s !! k = Some u -> disposed s' u) /\
  (forall u, (next s <= u)%nat -> disposed s' u) /\
  (forall u, (u < next s)%nat -> (forall k, k ∈ ks -> nodeCache s !! k <> Some u) ->
     heap s' u = heap s u).

(** [releasedFrom w r ks s s']: the same for a walk that starts at the
    wrapper [w] of the node [r], whether or not [w] is the cache entry of
    [r], and goes through the nodes [ks] below it. *)
Definition releasedFrom (w : wid) (r : cnid) (ks : list cnid) (s s' : State) : Prop :=
  nodes s' = nodes s /\ (next s <= next s')%nat /\
  (forall k, k ∈ r :: ks -> nodeCache s' !! k = None) /\
  (forall k, k ∉ r :: ks -> nodeCache s' !! k = nodeCache s !! k) /\
  disposed s' w /\
  (forall k u, k ∈ ks -> nodeCache s !! k = Some u -> disposed s' u) /\
  (forall u, (next s <= u)%nat -> disposed s' u) /\
  (forall u, (u < next s)%nat -> u <> w ->
     (forall k, k ∈ ks -> nodeCache s !! k <> Some u) -> heap s' u = heap s u).

(** [disposesReached fuel t]: on any live wrapper of the root of [t],
    [dispose()] returns, having released the wrapper and the nodes of
    [t]. *)
Definition disposesReached (fuel : nat) (t : Tree) : Prop :=
  forall s w, shape (nodes s) t = true -> NoDup (ids t) -> (height t <= fuel)%nat ->
    cacheSound s -> bound s w (rootOf t) ->
    exists s', dispose fuel w s = (Ok tt, s') /\
      releasedFrom w (rootOf t) (descendantsOf t) s s'.

(** [listMarked s childSyntaxList l ks]: the wrapper [childSyntaxList] is
    the cache entry of [l], or it has been released and [l] is not among
    [ks]. *)
Definition listMarked (s : State) (childSyntaxList : wid) (l : cnid) (ks : list cnid)
    : Prop :=
  nodeCache s !! l = Some childSyntaxList \/
  (disposed s childSyntaxList /\ (childSyntaxList < next s)%nat /\ l ∉ ks).

(** [sparesBelow fuel l t]: on the factory's wrapper of the root of [t],
    the local function [disposeNodes] of [UnwrapParentHandler.handleNode]
    returns, having released the nodes of [t] except those below [l]. *)
Definition sparesBelow (fuel : nat) (l : cnid) (t : Tree) : Prop :=
  forall s childSyntaxList node,
    shape (nodes s) t = true -> NoDup (ids t) -> (height t <= fuel)%nat ->
    cacheSound s -> nodeCache s !! rootOf t = Some node ->
    listMarked s childSyntaxList l (ids t) ->
    exists s', UnwrapParentHandler.disposeNodes fuel childSyntaxList node s = (Ok tt, s') /\
      released (idsUntil l t) s s'.

(** The decidable form of [cacheBound]. *)
Definition cacheBoundb (s : State) : bool :=
  forallb (fun '(k, w) => bool_decide (_compilerNode (heap s w) = Some k))
    (map_to_list (nodeCache s)).

(** The sample unwrapping with a new tree that fits: the new source file
    (10) has a syntax list (11) with the one statement (12) that the
    unwrapping leaves. *)
Definition unwrapFitNodes : list ts.Node :=
  [ tsNode ts.SourceFile 0 7 None [1]%nat 0;
    tsNode ts.SyntaxList 0 7 (Some 0%nat) [2]%nat 0;
    tsNode (ts.OtherKind 10) 0 7 (Some 0%nat) [3; 4; 5]%nat 0;
    tsNode (ts.OtherKind 11) 0 1 (Some 2%nat) [] 0;
    tsNode (ts.OtherKind 2) 1 2 (Some 2%nat) [] 1;
    tsNode (ts.OtherKind 12) 2 7 (Some 2%nat) [6; 7; 8]%nat 2;
    tsNode ts.FirstPunctuation 2 3 (Some 5%nat) [] 2;
    tsNode ts.SyntaxList 3 6 (Some 5%nat) [9]%nat 3;
    tsNode (ts.OtherKind 13) 6 7 (Some 5%nat) [] 6;
    tsNode (ts.OtherKind 1) 3 6 (Some 5%nat) [] 3;
    tsNode ts.SourceFile 0 3 None [11]%nat 0;
    tsNode ts.SyntaxList 0 3 (Some 10%nat) [12]%nat 0;
    tsNode (ts.OtherKind 1) 0 3 (Some 10%nat) [] 0 ].

Definition unwrapFitState : State :=
  stateOf unwrapFitNodes
    [ nodeOf 0; nodeOf 1;
      {| _compilerNode := Some 10%nat; sourceFile := 2%nat; global := O |};
      {| _compilerNode := Some 11%nat; sourceFile := 2%nat; global := O |} ].

(** The phases of [UnwrapParentHandler.handleNode] that come before its
    call of [disposeNodes], with the sample collaborators: the result is
    the unwrapped child, its child syntax list and the two iterators. *)
Definition sampleUntilDispose (currentNode newNode : wid)
    : M (wid * wid * AdvancedIterator.t * AdvancedIterator.t) :=
  currentNodeChildren <- AdvancedIterator.create currentNode ;;
  newNodeChildren <- AdvancedIterator.create newNode ;;
  iterators <- UnwrapParentHandler.replaceUntilChild sampleStraightReplacement
                 sampleExhausted 0 currentNodeChildren newNodeChildren ;;
  currentChild <- AdvancedIterator.next sampleExhausted iterators.1 ;;
  childSyntaxList <- sampleChildSyntaxList currentChild.1 ;;
  children <- getChildren childSyntaxList ;;
  newNodeChildren <- UnwrapParentHandler.rehostChildren sampleStraightReplacement
                       sampleExhausted children iterators.2 ;;
  ret (currentChild.1, childSyntaxList, currentChild.2, newNodeChildren).

(** The state in which the sample unwrapping calls [disposeNodes]: the
    namespace declaration (2) is wrapper 4 and its child syntax list (7) is
    wrapper 9; wrapper 10, made for the statement (9), has been rebound to
    the new statement (12) and is its cache entry, while wrapper 11, through
    which the new tree was read, still wraps that node. *)
Definition unwrapFitBeforeDispose : State :=
  (sampleUntilDispose 1%nat 3%nat unwrapFitState).2.

(** The state the sample unwrapping leaves: wrapper 1 has been rebound to
    the new syntax list (11) and wrapper 10 to the new statement (12); the
    wrappers 3 and 11, through which the new tree was read, still wrap
    these nodes without being their cache entries. *)
Definition unwrapFitAfter : State := (sampleHandler 5 1%nat 3%nat unwrapFitState).2.

(** ** Indentation *)

(** The characters [getIndentationText] keeps: space and tab. *)
Definition isIndentChar (ch : ascii) : bool :=
  Ascii.eqb ch " " || Ascii.eqb ch "009".

(** ** The descendant with a start and a width *)

(** [atStartWithWidth width nodes start w d]: [d] holds the position
    [start], starts there and has the width. *)
Definition atStartWithWidth (compilerGetWidth : ts.Node -> Z) (nodes : cnid -> ts.Node)
    (start width : Z) (d : cnid) : Prop :=
  containsPos nodes d start /\ ts.getStart (nodes d) = start /\
  compilerGetWidth (nodes d) = width.

(** [searchesSubtree compilerGetWidth t]: from a wrapper of the root of [t],
    the loop of [getDescendantAtStartWithWidth] returns, with enough fuel,
    the node it had found before or a node below the root that is at the
    start and of the width. *)
Definition searchesSubtree (compilerGetWidth : ts.Node -> Z) (t : Tree) : Prop :=
  forall fuel s nextNode foundNode start width,
    (height t <= fuel)%nat -> shape (nodes s) t = true ->
    consistent s -> sourceFilesLive s -> bound s nextNode (rootOf t) ->
    exists r s1,
      getDescendantAtStartWithWidth_loop compilerGetWidth fuel nextNode foundNode start width s
        = (Ok r, s1) /\
      consistent s1 /\ sourceFilesLive s1 /\ extends s s1 /\
      (r = foundNode \/
       exists w d, r = Some w /\ bound s1 w d /\ d ∈ descendantsOf t /\
         atStartWithWidth compilerGetWidth (nodes s) start width d).

(** The width of a node of the sample file: from its start to its end. *)
Definition sampleWidth (node : ts.Node) : Z := ts.end_ node - ts.getStart node.

(** * Properties *)

(** ** [KeyValueCache] *)

Section KeyValueCache_properties.
Context {T : Type} `{Countable T} {U : Type} `{JsTruthy U}.

Lemma get_Some (c : gmap T U) (k : T) (v : U) :
  KeyValueCache.get k c = Some v <-> c !! k = Some v /\ truthy v = true.
Proof.
  unfold KeyValueCache.get.
  destruct (c !! k) as [v'|] eqn:Hk; [destruct (truthy v') eqn:Hv|].
  - split; [intros [= <-]; auto | intros [[= <-] _]; reflexivity].
  - split; [discriminate | intros [[= <-] Ht]; congruence].
  - split; [discriminate | intros [? _]; discriminate].
Qed.

Lemma replaceKey_present (c : gmap T U) (k1 k2 : T) (v : U) :
  c !! k1 = Some v ->
  KeyValueCache.replaceKey k1 k2 c = Ok (<[k2 := v]> (delete k1 c)).
Proof. intros Hk. unfold KeyValueCache.replaceKey. rewrite Hk. reflexivity. Qed.

Lemma replaceKey_absent (c : gmap T U) (k1 k2 : T) :
  c !! k1 = None ->
  KeyValueCache.replaceKey k1 k2 c = Throw (Error "Key not found.").
Proof. intros Hk. unfold KeyValueCache.replaceKey. rewrite Hk. reflexivity. Qed.

(** C5 (amended). In a cache holding [k1 ↦ v], [replaceKey(k1, k2)] with
    [k2 ≠ k1] succeeds; the new cache is the old one without [k1] and with
    [k2 ↦ v], so it holds [k2 ↦ v] and [get(k1)] is [undefined].  On a key
    that is not in the cache [replaceKey] throws the built-in [Error] with
    the message [Key not found.], which is no [InvalidOperationError]. *)
Theorem replaceKey_moves_entry (c : gmap T U) (k1 k2 kMissing k : T) (v : U)
    (Hpresent : c !! k1 = Some v) (Hdistinct : k1 <> k2)
    (Hmissing : c !! kMissing = None) :
  (exists c', KeyValueCache.replaceKey k1 k2 c = Ok c' /\
     c' = <[k2 := v]> (delete k1 c) /\
     c' !! k2 = Some v /\
     c' !! k1 = None /\
     KeyValueCache.get k1 c' = None) /\
  KeyValueCache.replaceKey kMissing k c = Throw (Error "Key not found.") /\
  isInvalidOperation (Error "Key not found.") = false.
Proof.
  split; [|split; [by apply replaceKey_absent | reflexivity]].
  exists (<[k2 := v]> (delete k1 c)).
  assert (Hgone : <[k2 := v]> (delete k1 c) !! k1 = None).
  { rewrite lookup_insert_ne by congruence. apply lookup_delete_eq. }
  repeat split.
  - by apply replaceKey_present.
  - apply lookup_insert_eq.
  - exact Hgone.
  - unfold KeyValueCache.get. by rewrite Hgone.
Qed.

(** C9. When the value stored under [k] is falsy, [get(k)] is [undefined]
    although the entry exists, and [getOrCreate(k, createFunc)] runs
    [createFunc], returns its result and overwrites the entry with it. The
    values [0], the empty string, [false] and [null] are falsy. *)
Theorem getOrCreate_falsy_entry {S : Type} (c : gmap T U) (k : T) (v : U)
    (createFunc : S -> U * S) (s : S)
    (Hentry : c !! k = Some v) (Hfalsy : truthy v = false) :
  (forall v' : JsValue,
     In v' [JsNumber 0; JsString ""; JsBoolean false; JsNull] -> truthy v' = false) /\
  is_Some (c !! k) /\
  KeyValueCache.get k c = None /\
  KeyValueCache.getOrCreate k createFunc c s =
    ((createFunc s).1, <[k := (createFunc s).1]> c, (createFunc s).2) /\
  <[k := (createFunc s).1]> c !! k = Some (createFunc s).1.
Proof.
  assert (Hget : KeyValueCache.get k c = None).
  { unfold KeyValueCache.get. by rewrite Hentry, Hfalsy. }
  repeat split.
  - intros v' Hin. simpl in Hin.
    destruct Hin as [<-|[<-|[<-|[<-|[]]]]]; reflexivity.
  - by exists v.
  - exact Hget.
  - unfold KeyValueCache.getOrCreate. rewrite Hget.
    destruct (createFunc s) as [item s']. reflexivity.
  - apply lookup_insert_eq.
Qed.

End KeyValueCache_properties.

(** C5, as stated, fails: the failure on a missing key is not an
    [InvalidOperationError]; and when the new key is the old one the entry
    is put back, so [get(k1)] does not return [undefined]. *)
Lemma replaceKey_missing_not_InvalidOperation :
  KeyValueCache.replaceKey 3%nat 4%nat ({[1%nat := JsObject 7]} : gmap nat JsValue)
    = Throw (Error "Key not found.") /\
  (~ exists message,
      KeyValueCache.replaceKey 3%nat 4%nat ({[1%nat := JsObject 7]} : gmap nat JsValue)
        = Throw (InvalidOperationError message)) /\
  exists c', KeyValueCache.replaceKey 1%nat 1%nat
               ({[1%nat := JsObject 7]} : gmap nat JsValue) = Ok c' /\
    KeyValueCache.get 1%nat c' = Some (JsObject 7).
Proof.
  split; [reflexivity|]. split.
  - intros [message Hm]. vm_compute in Hm. discriminate.
  - eexists. split; reflexivity.
Qed.

Lemma replaceKey_moves_entry_witness :
  (exists c', KeyValueCache.replaceKey 1%nat 2%nat
                ({[1%nat := JsObject 7]} : gmap nat JsValue) = Ok c' /\
     c' = <[2%nat := JsObject 7]> (delete 1%nat {[1%nat := JsObject 7]}) /\
     c' !! 2%nat = Some (JsObject 7) /\
     c' !! 1%nat = None /\
     KeyValueCache.get 1%nat c' = None) /\
  KeyValueCache.replaceKey 3%nat 4%nat ({[1%nat := JsObject 7]} : gmap nat JsValue)
    = Throw (Error "Key not found.") /\
  isInvalidOperation (Error "Key not found.") = false.
Proof.
  apply (replaceKey_moves_entry {[1%nat := JsObject 7]} 1%nat 2%nat 3%nat 4%nat (JsObject 7)).
  - reflexivity.
  - lia.
  - reflexivity.
Defined.

Lemma getOrCreate_falsy_entry_witness :
  (forall v' : JsValue,
     In v' [JsNumber 0; JsString ""; JsBoolean false; JsNull] -> truthy v' = false) /\
  is_Some (({[1%nat := JsNumber 0]} : gmap nat JsValue) !! 1%nat) /\
  KeyValueCache.get 1%nat ({[1%nat := JsNumber 0]} : gmap nat JsValue) = None /\
  KeyValueCache.getOrCreate 1%nat (fun calls : nat => (JsNumber 5, S calls))
      ({[1%nat := JsNumber 0]} : gmap nat JsValue) O =
    (JsNumber 5, <[1%nat := JsNumber 5]> {[1%nat := JsNumber 0]}, 1%nat) /\
  <[1%nat := JsNumber 5]> ({[1%nat := JsNumber 0]} : gmap nat JsValue) !! 1%nat
    = Some (JsNumber 5).
Proof.
  apply (getOrCreate_falsy_entry {[1%nat := JsNumber 0]} 1%nat (JsNumber 0)
           (fun calls : nat => (JsNumber 5, S calls)) O).
  - reflexivity.
  - reflexivity.
Defined.

(** ** Reading a wrapper *)

Lemma bind_Ok {A B : Type} (m : M A) (k : A -> M B) (s s' : State) (a : A) :
  m s = (Ok a, s') -> bind m k s = k a s'.
Proof. intros Hm. unfold bind. by rewrite Hm. Qed.

Lemma bind_Throw {A B : Type} (m : M A) (k : A -> M B) (s s' : State) (e : exn) :
  m s = (Throw e, s') -> bind m k s = (Throw e, s').
Proof. intros Hm. unfold bind. by rewrite Hm. Qed.

Lemma compilerNode_bound (s : State) (w : wid) (c : cnid) :
  bound s w c -> compilerNode w s = (Ok c, s).
Proof. unfold bound, compilerNode. by intros ->. Qed.

Lemma compilerNode_disposed (s : State) (w : wid) :
  disposed s w -> compilerNode w s = (Throw removedFromAst, s).
Proof. unfold disposed, compilerNode. by intros ->. Qed.

(** Any method that begins by reading [this.compilerNode] throws on a
    disposed wrapper and leaves the state as it was. *)
Lemma reads_compilerNode_disposed {A : Type} (k : cnid -> M A) (s : State) (w : wid) :
  disposed s w -> bind (compilerNode w) k s = (Throw removedFromAst, s).
Proof. intros Hd. by apply bind_Throw, compilerNode_disposed. Qed.

(** ** First node on a line *)

Lemma isFirstNodeOnLine_loop_true (text : string) (i : nat) :
  isFirstNodeOnLine_loop text i = true <->
  exists j, (j < i)%nat /\ String.get j text = Some "010"%char /\
    forall k, (j < k < i)%nat ->
      String.get k text = Some " "%char \/ String.get k text = Some "009"%char.
Proof.
  induction i as [|i IH]; simpl.
  - split; [discriminate | intros (j & Hj & _); lia].
  - destruct (String.get i text) as [ch|] eqn:Hget.
    + destruct (Ascii.eqb_spec ch " ") as [->|Hsp]; simpl.
      { rewrite IH. split; intros (j & Hj & Hnl & Hblank).
        - exists j. repeat split; [lia | done |].
          intros k Hk. destruct (decide (k = i)) as [->|]; [by left | apply Hblank; lia].
        - assert (j <> i) by (intros ->; congruence).
          exists j. repeat split; [lia | done | intros k Hk; apply Hblank; lia]. }
      destruct (Ascii.eqb_spec ch "009") as [->|Htab]; simpl.
      { rewrite IH. split; intros (j & Hj & Hnl & Hblank).
        - exists j. repeat split; [lia | done |].
          intros k Hk. destruct (decide (k = i)) as [->|]; [by right | apply Hblank; lia].
        - assert (j <> i) by (intros ->; congruence).
          exists j. repeat split; [lia | done | intros k Hk; apply Hblank; lia]. }
      destruct (Ascii.eqb_spec ch "010") as [->|Hnl].
      { split; [intros _ | done]. exists i. repeat split; [lia | done | intros k Hk; lia]. }
      split; [discriminate|]. intros (j & Hj & Hnl' & Hblank).
      destruct (decide (j = i)) as [->|]; [congruence|].
      destruct (Hblank i) as [Hc|Hc]; [lia | congruence | congruence].
    + split; [discriminate|]. intros (j & Hj & Hnl' & Hblank).
      destruct (decide (j = i)) as [->|]; [congruence|].
      destruct (Hblank i) as [Hc|Hc]; [lia | congruence | congruence].
Qed.

Lemma isFirstNodeOnLine_loop_blank (text : string) (i : nat) :
  (forall k, (k < i)%nat ->
     String.get k text = Some " "%char \/ String.get k text = Some "009"%char) ->
  isFirstNodeOnLine_loop text i = false.
Proof.
  intros Hblank. destruct (isFirstNodeOnLine_loop text i) eqn:Hloop; [|done].
  apply isFirstNodeOnLine_loop_true in Hloop as (j & Hj & Hnl & _).
  destruct (Hblank j Hj); congruence.
Qed.

Lemma isFirstNodeOnLine_run (s : State) (this : wid) (c sfc : cnid) :
  sourceFilesLive s -> bound s this c -> bound s (sourceFile (heap s this)) sfc ->
  isFirstNodeOnLine this s =
    (Ok (isFirstNodeOnLine_loop (ts.getFullText (nodes s sfc))
           (Z.to_nat (ts.getStart (nodes s c)))), s).
Proof.
  intros Hlive Hthis Hsf. destruct (Hlive _ _ Hsf) as [c' Hsf'].
  unfold isFirstNodeOnLine, getFullText, getStart, getSourceFile, tsGet, bind, ret.
  repeat (progress (rewrite ?(compilerNode_bound _ _ _ Hsf), ?(compilerNode_bound _ _ _ Hsf'),
    ?(compilerNode_bound _ _ _ Hthis); cbn beta iota)).
  reflexivity.
Qed.

(** C10. On a live node of a live source file, [isFirstNodeOnLine()] returns
    [true] exactly when, going backward from [getStart()] over spaces and
    tabs only, a newline character is reached; so it returns [false] when
    everything before the start is spaces and tabs, and in particular for a
    node that starts at position 0. *)
Theorem isFirstNodeOnLine_needs_newline (s : State) (this : wid) (c sfc : cnid)
    (Hlive : sourceFilesLive s) (Hthis : bound s this c)
    (Hsf : bound s (sourceFile (heap s this)) sfc) :
  let text := ts.getFullText (nodes s sfc) in
  let start := ts.getStart (nodes s c) in
  exists b, isFirstNodeOnLine this s = (Ok b, s) /\
    (b = true <->
       exists j : nat, Z.of_nat j < start /\ String.get j text = Some "010"%char /\
         forall k : nat, (j < k)%nat -> Z.of_nat k < start ->
           String.get k text = Some " "%char \/ String.get k text = Some "009"%char) /\
    ((forall k : nat, Z.of_nat k < start ->
        String.get k text = Some " "%char \/ String.get k text = Some "009"%char) ->
     b = false) /\
    (start = 0 -> b = false).
Proof.
  intros text start. eexists. split; [by eapply isFirstNodeOnLine_run|].
  fold text start. split; [|split].
  - rewrite isFirstNodeOnLine_loop_true. split; intros (j & Hj & Hnl & Hblank).
    + exists j. repeat split; [lia | done | intros k ? ?; apply Hblank; lia].
    + exists j. repeat split; [lia | done | intros k ?; apply Hblank; lia].
  - intros Hblank. apply isFirstNodeOnLine_loop_blank. intros k Hk. apply Hblank. lia.
  - intros ->. reflexivity.
Qed.

Lemma isFirstNodeOnLine_needs_newline_witness :
  sourceFilesLive sampleWrapped /\ bound sampleWrapped 1%nat 5%nat /\
  bound sampleWrapped (sourceFile (heap sampleWrapped 1%nat)) 0%nat /\
  let text := ts.getFullText (nodes sampleWrapped 0%nat) in
  let start := ts.getStart (nodes sampleWrapped 5%nat) in
  exists b, isFirstNodeOnLine 1%nat sampleWrapped = (Ok b, sampleWrapped) /\
    (b = true <->
       exists j : nat, Z.of_nat j < start /\ String.get j text = Some "010"%char /\
         forall k : nat, (j < k)%nat -> Z.of_nat k < start ->
           String.get k text = Some " "%char \/ String.get k text = Some "009"%char) /\
    ((forall k : nat, Z.of_nat k < start ->
        String.get k text = Some " "%char \/ String.get k text = Some "009"%char) ->
     b = false) /\
    (start = 0 -> b = false).
Proof.
  assert (Hlive : sourceFilesLive sampleWrapped).
  { intros w k Hw. exists 0%nat. unfold bound in *.
    destruct w as [|[|[|w]]]; [reflexivity | reflexivity | reflexivity |].
    unfold sampleWrapped, stateOf, heapOf in Hw. simpl in Hw. by destruct w. }
  split; [exact Hlive|]. split; [reflexivity|]. split; [reflexivity|].
  apply (isFirstNodeOnLine_needs_newline sampleWrapped 1%nat 5%nat 0%nat Hlive);
    reflexivity.
Defined.

(** ** Rebinding *)

(** C8. [replaceCompilerNode(cn)] succeeds on every wrapper [w]; afterwards the
    same reference [w] wraps [cn], its [sourceFile] and [global] fields are
    what they were, every other wrapper is untouched, and so are the
    cache, the compiler nodes and the allocation state. *)
Theorem replaceCompilerNode_changes_only_pointer (s : State) (w : wid) (cn : cnid) :
  exists s', replaceCompilerNode w cn s = (Ok tt, s') /\
    bound s' w cn /\
    sourceFile (heap s' w) = sourceFile (heap s w) /\
    global (heap s' w) = global (heap s w) /\
    (forall w', w' <> w -> heap s' w' = heap s w') /\
    nodeCache s' = nodeCache s /\
    nodes s' = nodes s /\
    container s' = container s /\
    next s' = next s.
Proof.
  eexists. split; [reflexivity|]. unfold bound. simpl.
  rewrite fn_lookup_insert. repeat split.
  intros w' Hw'. by rewrite fn_lookup_insert_ne.
Qed.

(** ** Disposed wrappers *)

Lemma dispose_on_disposed (s : State) (w : wid) (fuel : nat) :
  disposed s w -> dispose (S fuel) w s = (Throw removedFromAst, s).
Proof.
  intros Hdisposed. simpl. unfold getChildren.
  unfold bind at 1 2. by rewrite (compilerNode_disposed _ _ Hdisposed).
Qed.

(** C3 (amended). On a wrapper that is already disposed, [dispose()] throws
    the [InvalidOperationError] of the [compilerNode] getter, and leaves the
    cache and every wrapper as they were. *)
Theorem dispose_of_disposed_throws (s : State) (w : wid) (fuel : nat)
    (Hdisposed : disposed s w) :
  dispose (S fuel) w s = (Throw removedFromAst, s) /\
  isInvalidOperation removedFromAst = true.
Proof.
  split; [by apply dispose_on_disposed | reflexivity].
Qed.

Lemma dispose_of_disposed_throws_witness :
  disposed sampleAfterDispose 1%nat /\
  dispose 3 1%nat sampleAfterDispose = (Throw removedFromAst, sampleAfterDispose) /\
  isInvalidOperation removedFromAst = true.
Proof.
  assert (Hd : disposed sampleAfterDispose 1%nat) by reflexivity.
  split; [exact Hd|]. exact (dispose_of_disposed_throws sampleAfterDispose 1%nat 2 Hd).
Defined.

(** C3, as stated, fails: wrapper 1 is disposed by a first [dispose()], and
    a second [dispose()] raises an error. *)
Lemma dispose_twice_raises :
  (dispose 3 1%nat sampleWrapped).1 = Ok tt /\
  disposed sampleAfterDispose 1%nat /\
  (dispose 3 1%nat sampleAfterDispose).1 = Throw removedFromAst /\
  forall fuel, (dispose fuel 1%nat sampleAfterDispose).1 <> Ok tt.
Proof.
  split; [reflexivity|]. split; [reflexivity|]. split; [reflexivity|].
  intros [|fuel]; [discriminate|].
  rewrite (dispose_on_disposed sampleAfterDispose 1%nat fuel eq_refl).
  discriminate.
Qed.

Ltac throws_on_disposed Hd :=
  repeat match goal with
         | |- context [bind (bind _ _) _] => unfold bind at 1
         end;
  unfold bind; rewrite (compilerNode_disposed _ _ Hd); reflexivity.

Lemma isFirstNodeOnLine_disposed (s : State) (w : wid) :
  disposed s w -> isFirstNodeOnLine w s = (Throw removedFromAst, s).
Proof.
  intros Hd.
  unfold isFirstNodeOnLine, getFullText, getStart, getSourceFile, tsGet, bind, ret.
  unfold compilerNode at 1.
  destruct (_compilerNode (heap s (sourceFile (heap s w)))); [|reflexivity].
  unfold compilerNode at 1.
  destruct (_compilerNode (heap s (sourceFile (heap s (sourceFile (heap s w))))));
    [|reflexivity].
  by rewrite (compilerNode_disposed _ _ Hd).
Qed.

(** C4 (amended). Once a wrapper is disposed, the [compilerNode] getter
    throws an [InvalidOperationError], and so does every operation at the
    point where it reads [this.compilerNode], the wrapper being still
    disposed there: what the operation did before the read stays done.  The
    methods that begin with the read, the loops over the children iterator
    ([getFirstChild]) among them, throw and leave the state as it was;
    [setSourceFile(sf)] throws after having stored [sf] in the wrapper;
    [getSourceFile()], which does not read the pointer, still returns the
    source file. *)
Theorem disposed_wrapper_reads_throw (s : State) (w : wid) (Hdisposed : disposed s w) :
  isInvalidOperation removedFromAst = true /\
  compilerNode w s = (Throw removedFromAst, s) /\
  (forall (A : Type) (k : cnid -> M A),
     bind (compilerNode w) k s = (Throw removedFromAst, s)) /\
  (forall (A B : Type) (before : M A) (k : A -> cnid -> M B) (a : A) (s1 : State),
     before s = (Ok a, s1) -> disposed s1 w ->
     (x <- before ;; c <- compilerNode w ;; k x c) s = (Throw removedFromAst, s1)) /\
  getKind w s = (Throw removedFromAst, s) /\
  getPos w s = (Throw removedFromAst, s) /\
  getEnd w s = (Throw removedFromAst, s) /\
  getStart w s = (Throw removedFromAst, s) /\
  getFullText w s = (Throw removedFromAst, s) /\
  (forall pos end_, containsRange w pos end_ s = (Throw removedFromAst, s)) /\
  getChildren w s = (Throw removedFromAst, s) /\
  (forall condition, getFirstChild w condition s = (Throw removedFromAst, s)) /\
  (forall pos, getChildAtPos w pos s = (Throw removedFromAst, s)) /\
  (forall fuel pos, getDescendantAtPos (S fuel) w pos s = (Throw removedFromAst, s)) /\
  getParent w s = (Throw removedFromAst, s) /\
  getParentOrThrow w s = (Throw removedFromAst, s) /\
  getParentSyntaxList w s = (Throw removedFromAst, s) /\
  getPreviousSiblings w s = (Throw removedFromAst, s) /\
  getNextSiblings w s = (Throw removedFromAst, s) /\
  isFirstNodeOnLine w s = (Throw removedFromAst, s) /\
  (forall fuel, dispose (S fuel) w s = (Throw removedFromAst, s)) /\
  (forall fuel sf, exists s1,
     setSourceFile (S fuel) w sf s = (Throw removedFromAst, s1) /\
     sourceFile (heap s1 w) = sf /\ disposed s1 w /\
     (forall w', w' <> w -> heap s1 w' = heap s w') /\
     nodeCache s1 = nodeCache s /\ nodes s1 = nodes s /\ next s1 = next s) /\
  getSourceFile w s = (Ok (sourceFile (heap s w)), s).
Proof.
  assert (Hparent : getParent w s = (Throw removedFromAst, s)).
  { unfold getParent. throws_on_disposed Hdisposed. }
  assert (Hlist : getParentSyntaxList w s = (Throw removedFromAst, s)).
  { unfold getParentSyntaxList. by rewrite (bind_Throw _ _ _ _ _ Hparent). }
  assert (Hcontainer : getSiblingContainer w s = (Throw removedFromAst, s)).
  { unfold getSiblingContainer. by rewrite (bind_Throw _ _ _ _ _ Hlist). }
  assert (Hchild : forall pos, getChildAtPos w pos s = (Throw removedFromAst, s)).
  { intros pos. unfold getChildAtPos, getPos. throws_on_disposed Hdisposed. }
  split; [reflexivity|].
  split; [by apply compilerNode_disposed|].
  split; [intros A k; by apply reads_compilerNode_disposed|].
  split.
  { intros A B before k a s1 Hbefore Hd. rewrite (bind_Ok _ _ _ _ _ Hbefore).
    by apply reads_compilerNode_disposed. }
  split; [unfold getKind; throws_on_disposed Hdisposed|].
  split; [unfold getPos; throws_on_disposed Hdisposed|].
  split; [unfold getEnd; throws_on_disposed Hdisposed|].
  split; [unfold getStart; throws_on_disposed Hdisposed|].
  split; [unfold getFullText; throws_on_disposed Hdisposed|].
  split; [intros pos end_; unfold containsRange, getPos; throws_on_disposed Hdisposed|].
  split; [unfold getChildren; throws_on_disposed Hdisposed|].
  split.
  { intros condition. unfold getFirstChild, getChildrenIterator.
    throws_on_disposed Hdisposed. }
  split; [exact Hchild|].
  split.
  { intros fuel pos. unfold getDescendantAtPos. simpl.
    by rewrite (bind_Throw _ _ _ _ _ (Hchild pos)). }
  split; [exact Hparent|].
  split; [unfold getParentOrThrow; by rewrite (bind_Throw _ _ _ _ _ Hparent)|].
  split; [exact Hlist|].
  split; [unfold getPreviousSiblings; by rewrite (bind_Throw _ _ _ _ _ Hcontainer)|].
  split; [unfold getNextSiblings; by rewrite (bind_Throw _ _ _ _ _ Hcontainer)|].
  split; [by apply isFirstNodeOnLine_disposed|].
  split; [intros fuel; by apply dispose_on_disposed|].
  split; [|reflexivity].
  intros fuel sf. exists (assignSourceFile w sf s).2.
  assert (Hd : disposed (assignSourceFile w sf s).2 w).
  { unfold disposed, assignSourceFile. simpl. by rewrite fn_lookup_insert. }
  split.
  { cbn [setSourceFile]. unfold bind at 1.
    change (assignSourceFile w sf s) with (Ok tt, (assignSourceFile w sf s).2).
    cbn [snd]. unfold bind at 1. unfold getChildren.
    by rewrite (reads_compilerNode_disposed _ _ _ Hd). }
  split. { unfold assignSourceFile. simpl. by rewrite fn_lookup_insert. }
  split; [done|]. split; [|done].
  intros w' Hne. unfold assignSourceFile. simpl. by rewrite fn_lookup_insert_ne.
Qed.

Lemma disposed_wrapper_reads_throw_witness :
  disposed sampleDisposed 1%nat /\
  compilerNode 1%nat sampleDisposed = (Throw removedFromAst, sampleDisposed) /\
  getKind 1%nat sampleDisposed = (Throw removedFromAst, sampleDisposed) /\
  (exists s1, setSourceFile 1 1%nat 5%nat sampleDisposed = (Throw removedFromAst, s1) /\
     sourceFile (heap s1 1%nat) = 5%nat) /\
  getSourceFile 1%nat sampleDisposed = (Ok 0%nat, sampleDisposed).
Proof.
  assert (Hd : disposed sampleDisposed 1%nat) by reflexivity.
  pose proof (disposed_wrapper_reads_throw sampleDisposed 1%nat Hd)
    as (_ & Hgetter & _ & _ & Hkind & Hrest).
  split; [exact Hd|]. split; [exact Hgetter|]. split; [exact Hkind|].
  split; [|apply Hrest].
  destruct Hrest as (_ & _ & _ & _ & _ & _ & _ & _ & _ & _ & _ & _ & _ & _ & _ & _ & Hset & _).
  destruct (Hset 0%nat 5%nat) as (s1 & Hrun & Hsf & _).
  exists s1. split; [exact Hrun | exact Hsf].
Defined.

(** C4, as stated, fails: [getSourceFile()] is an operation other than
    identity comparison, and on the disposed wrapper 1 it returns normally. *)
Lemma getSourceFile_of_disposed_returns :
  disposed sampleDisposed 1%nat /\
  getSourceFile 1%nat sampleDisposed = (Ok 0%nat, sampleDisposed) /\
  ~ exists e s', getSourceFile 1%nat sampleDisposed = (Throw e, s').
Proof.
  split; [reflexivity|]. split; [reflexivity|].
  intros (e & s' & He). discriminate.
Qed.

(** ** The factory on consistent states *)

Lemma set_nodeCache_same (s : State) : set_nodeCache (nodeCache s) s = s.
Proof. by destruct s. Qed.

Lemma disposed_not_bound (s : State) (w : wid) (k : cnid) :
  disposed s w -> ~ bound s w k.
Proof. unfold disposed, bound. congruence. Qed.

Lemma not_bound_disposed (s : State) (w : wid) :
  (forall k, ~ bound s w k) -> disposed s w.
Proof.
  unfold disposed, bound. intros Hnot.
  destruct (_compilerNode (heap s w)) as [k|] eqn:Hk; [by destruct (Hnot k) | done].
Qed.

Lemma getNodeFromCompilerNode_hit (s : State) (c : cnid) (sf w : wid) :
  nodeCache s !! c = Some w ->
  CompilerFactory.getNodeFromCompilerNode c sf s = (Ok w, s).
Proof.
  intros Hc. unfold CompilerFactory.getNodeFromCompilerNode, KeyValueCache.getOrCreate,
    KeyValueCache.get. rewrite Hc. simpl. by rewrite set_nodeCache_same.
Qed.

Lemma getNodeFromCompilerNode_miss (s : State) (c : cnid) (sf : wid) :
  nodeCache s !! c = None ->
  CompilerFactory.getNodeFromCompilerNode c sf s =
    (Ok (next s),
     {| nodes := nodes s;
        heap := <[next s := {| _compilerNode := Some c; sourceFile := sf;
                               global := container s |}]> (heap s);
        nodeCache := <[c := next s]> (nodeCache s);
        container := container s;
        next := S (next s) |}).
Proof.
  intros Hc. unfold CompilerFactory.getNodeFromCompilerNode, KeyValueCache.getOrCreate,
    KeyValueCache.get. rewrite Hc. reflexivity.
Qed.

Lemma created_refl (ks : list cnid) (s : State) : created ks s s.
Proof. repeat split; auto. Qed.

Lemma bound_kept (s s1 : State) (w : wid) (k : cnid) :
  heap s1 w = heap s w -> bound s w k -> bound s1 w k.
Proof. unfold bound. by intros ->. Qed.

Lemma created_trans (ks1 ks2 : list cnid) (s s1 s2 : State) :
  created ks1 s s1 -> created ks2 s1 s2 -> created (ks1 ++ ks2) s s2.
Proof.
  intros (Hn1 & Hx1 & Hout1 & Hmono1 & Hold1 & Hnew1)
         (Hn2 & Hx2 & Hout2 & Hmono2 & Hold2 & Hnew2).
  split; [congruence|]. split; [lia|]. split; [|split; [|split]].
  - intros k Hk. rewrite elem_of_app in Hk. rewrite Hout2, Hout1; tauto.
  - intros k w Hk. by apply Hmono2, Hmono1.
  - intros w k Hb. pose proof (bound_kept _ _ _ _ (Hold1 w k Hb) Hb) as Hb1.
    rewrite (Hold2 w k Hb1). eauto.
  - intros w k Hb. rewrite elem_of_app.
    destruct (Hnew2 w k Hb) as [Hb1|[Hd1 Hk2]].
    + destruct (Hnew1 w k Hb1) as [?|[? ?]]; auto.
    + right. split; [|auto]. apply not_bound_disposed. intros k' Hb'.
      apply (disposed_not_bound _ _ k' Hd1).
      exact (bound_kept _ _ _ _ (Hold1 w k' Hb') Hb').
Qed.

Lemma created_weaken (ks ks' : list cnid) (s s1 : State) :
  (forall k, k ∈ ks -> k ∈ ks') -> created ks s s1 -> created ks' s s1.
Proof.
  intros Hsub (Hn & Hx & Hout & Hmono & Hold & Hnew).
  repeat split; auto.
  - intros w k Hb. destruct (Hnew w k Hb) as [?|[? ?]]; auto.
Qed.

Lemma wrapChild_consistent (s : State) (this : wid) (k : cnid) :
  consistent s ->
  exists w s1, wrapChild this k s = (Ok w, s1) /\
    created [k] s s1 /\ consistent s1 /\ nodeCache s1 !! k = Some w /\
    (nodeCache s !! k = None ->
       heap s1 w = {| _compilerNode := Some k; sourceFile := sourceFile (heap s this);
                      global := container s |}).
Proof.
  intros Hcons. pose proof Hcons as (Hcb & Hlc & Hun).
  unfold wrapChild, getSourceFile, bind.
  destruct (nodeCache s !! k) as [w|] eqn:Hk.
  - exists w, s. rewrite (getNodeFromCompilerNode_hit _ _ _ _ Hk).
    split; [done|]. split; [apply created_refl|]. split; [done|]. split; [done|]. done.
  - rewrite (getNodeFromCompilerNode_miss _ _ _ Hk). eexists _, _. split; [reflexivity|].
    assert (Hfresh : forall w k', bound s w k' -> w <> next s).
    { intros w k' Hb ->. apply (disposed_not_bound s (next s) k'); [apply Hun; lia | done]. }
    split; [|split; [|split]].
    + split; [done|]. split; [simpl; lia|]. split; [|split; [|split]]; simpl.
      * intros k' Hk'. rewrite lookup_insert_ne; [done|]. set_solver.
      * intros k' w Hk'. rewrite lookup_insert_ne; [done | congruence].
      * intros w k' Hb. rewrite fn_lookup_insert_ne; [done|]. by eapply not_eq_sym, Hfresh.
      * intros w k'. unfold bound, disposed. simpl.
        destruct (decide (w = next s)) as [->|Hne].
        -- rewrite fn_lookup_insert. simpl. intros [= <-]. right.
           split; [apply Hun; lia | set_solver].
        -- rewrite fn_lookup_insert_ne by done. auto.
    + split; [|split].
      * intros k' w. simpl. unfold bound. simpl.
        destruct (decide (k' = k)) as [->|Hne].
        -- rewrite lookup_insert_eq. intros [= <-]. by rewrite fn_lookup_insert.
        -- rewrite lookup_insert_ne by done. intros Hk'.
           pose proof (Hcb _ _ Hk') as Hb.
           rewrite fn_lookup_insert_ne; [done|]. by eapply not_eq_sym, Hfresh.
      * intros w k'. unfold bound. simpl.
        destruct (decide (w = next s)) as [->|Hne].
        -- rewrite fn_lookup_insert. simpl. intros [= <-]. by rewrite lookup_insert_eq.
        -- rewrite fn_lookup_insert_ne by done. intros Hb.
           pose proof (Hlc _ _ Hb) as Hc.
           rewrite lookup_insert_ne; [done | congruence].
      * intros w. simpl. intros Hw. unfold disposed. simpl.
        rewrite fn_lookup_insert_ne by lia. apply Hun. lia.
    + simpl. apply lookup_insert_eq.
    + intros _. simpl. by rewrite fn_lookup_insert.
Qed.

Lemma mapM_wrapChild_consistent (this : wid) (ks : list cnid) (s : State) :
  consistent s ->
  exists ws s1, mapM (wrapChild this) ks s = (Ok ws, s1) /\
    created ks s s1 /\ consistent s1 /\
    Forall2 (fun k w => nodeCache s1 !! k = Some w) ks ws.
Proof.
  revert s. induction ks as [|k ks IH]; intros s Hcons.
  - exists [], s. split; [done|]. split; [apply created_refl|]. split; [done|]. constructor.
  - destruct (wrapChild_consistent s this k Hcons) as (w & s1 & Hw & Hcr1 & Hcons1 & Hk & _).
    destruct (IH s1 Hcons1) as (ws & s2 & Hws & Hcr2 & Hcons2 & Hall).
    exists (w :: ws), s2. simpl. unfold bind at 1. rewrite Hw.
    unfold bind at 1. rewrite Hws. split; [reflexivity|].
    split; [exact (created_trans [k] ks _ _ _ Hcr1 Hcr2)|]. split; [done|].
    constructor; [|done]. destruct Hcr2 as (_ & _ & _ & Hmono & _). by apply Hmono.
Qed.

Lemma getChildren_consistent (s : State) (w : wid) (c : cnid) :
  consistent s -> bound s w c ->
  exists ws s1, getChildren w s = (Ok ws, s1) /\
    created (ts.getChildren (nodes s c)) s s1 /\ consistent s1 /\
    Forall2 (fun k w' => bound s1 w' k) (ts.getChildren (nodes s c)) ws.
Proof.
  intros Hcons Hb.
  destruct (mapM_wrapChild_consistent w (ts.getChildren (nodes s c)) s Hcons)
    as (ws & s1 & Hws & Hcr & Hcons1 & Hall).
  exists ws, s1. unfold getChildren, tsGet, bind.
  rewrite (compilerNode_bound _ _ _ Hb), Hws. split; [done|]. split; [done|].
  split; [done|]. eapply Forall2_impl; [exact Hall|].
  intros k w' Hk. by apply Hcons1.
Qed.

Lemma consistent_unique (s : State) (w w' : wid) (k : cnid) :
  consistent s -> bound s w k -> bound s w' k -> w = w'.
Proof.
  intros (_ & Hlc & _) Hb Hb'. pose proof (Hlc _ _ Hb). pose proof (Hlc _ _ Hb'). congruence.
Qed.

Lemma disposeOnlyThis_consistent (s : State) (w : wid) (c : cnid) :
  consistent s -> bound s w c ->
  exists s', disposeOnlyThis w s = (Ok tt, s') /\ removed [c] s s' /\ disposed s' w.
Proof.
  intros Hcons Hb. eexists. split.
  { unfold disposeOnlyThis, CompilerFactory.removeNodeFromCache, clearCompilerNode, bind.
    unfold bound in Hb. rewrite Hb. reflexivity. }
  split; [|unfold disposed; simpl; by rewrite fn_lookup_insert].
  split; [done|]. split; [simpl; lia|]. simpl. unfold KeyValueCache.removeByKey.
  split; [|split; [|split]].
  - intros k Hk. apply list_elem_of_singleton in Hk as ->. apply lookup_delete_eq.
  - intros k Hk. apply lookup_delete_ne. intros ->. apply Hk, list_elem_of_singleton. done.
  - intros w' k. unfold bound. simpl.
    destruct (decide (w' = w)) as [->|Hne].
    + rewrite fn_lookup_insert. discriminate.
    + rewrite fn_lookup_insert_ne by done. intros Hb'. split; [done|].
      intros Hk. apply list_elem_of_singleton in Hk as ->.
      apply Hne. by eapply consistent_unique.
  - intros w' k Hb' Hk. unfold bound. simpl.
    rewrite fn_lookup_insert_ne; [done|]. intros <-.
    apply Hk, list_elem_of_singleton. unfold bound in *. congruence.
Qed.

Lemma removed_refl (s : State) : removed [] s s.
Proof.
  split; [done|]. split; [done|]. split; [|split; [|split]].
  - intros k Hk. by apply elem_of_nil in Hk.
  - done.
  - intros w k Hb. split; [done|]. by intros ?%elem_of_nil.
  - done.
Qed.

Lemma removed_trans (ks1 ks2 : list cnid) (s s1 s2 : State) :
  removed ks1 s s1 -> removed ks2 s1 s2 -> removed (ks1 ++ ks2) s s2.
Proof.
  intros (Hn1 & Hx1 & Hin1 & Hout1 & Hlive1 & Hkeep1)
         (Hn2 & Hx2 & Hin2 & Hout2 & Hlive2 & Hkeep2).
  split; [congruence|]. split; [lia|]. split; [|split; [|split]].
  - intros k Hk. destruct (decide (k ∈ ks2)) as [|Hk2]; [by apply Hin2|].
    rewrite (Hout2 k Hk2). apply Hin1. apply elem_of_app in Hk. tauto.
  - intros k Hk. apply not_elem_of_app in Hk as [Hk1 Hk2]. by rewrite Hout2, Hout1.
  - intros w k Hb. destruct (Hlive2 w k Hb) as [Hb1 Hk2].
    destruct (Hlive1 w k Hb1) as [Hb0 Hk1]. split; [done | by apply not_elem_of_app].
  - intros w k Hb Hk. apply not_elem_of_app in Hk as [Hk1 Hk2].
    apply Hkeep2; [apply Hkeep1|]; done.
Qed.

Lemma removed_same_elements (ks ks' : list cnid) (s s' : State) :
  (forall k, k ∈ ks <-> k ∈ ks') -> removed ks s s' -> removed ks' s s'.
Proof.
  intros Hsame (Hn & Hx & Hin & Hout & Hlive & Hkeep).
  split; [done|]. split; [done|]. split; [|split; [|split]].
  - intros k Hk. apply Hin. by apply Hsame.
  - intros k Hk. apply Hout. by rewrite Hsame.
  - intros w k Hb. destruct (Hlive w k Hb). split; [done|]. by rewrite <- Hsame.
  - intros w k Hb Hk. apply Hkeep; [done|]. by rewrite Hsame.
Qed.

Lemma removed_consistent (ks : list cnid) (s s' : State) :
  consistent s -> removed ks s s' -> consistent s'.
Proof.
  intros (Hcb & Hlc & Hun) (Hn & Hx & Hin & Hout & Hlive & Hkeep).
  split; [|split].
  - intros k w Hk. destruct (decide (k ∈ ks)) as [Hin'|Hout'].
    + rewrite (Hin k Hin') in Hk. discriminate.
    + rewrite (Hout k Hout') in Hk. by apply Hkeep; [apply Hcb|].
  - intros w k Hb. destruct (Hlive w k Hb) as [Hb0 Hk]. rewrite (Hout k Hk). by apply Hlc.
  - intros w Hw. apply not_bound_disposed. intros k Hb.
    destruct (Hlive w k Hb) as [Hb0 _].
    apply (disposed_not_bound s w k); [apply Hun; lia | done].
Qed.

Lemma created_then_removed (ks ks' : list cnid) (s s1 s' : State) :
  (forall k, k ∈ ks -> k ∈ ks') ->
  created ks s s1 -> removed ks' s1 s' -> removed ks' s s'.
Proof.
  intros Hsub (Hn1 & Hx1 & Hout1 & Hmono1 & Hold1 & Hnew1)
         (Hn & Hx & Hin & Hout & Hlive & Hkeep).
  split; [congruence|]. split; [lia|]. split; [|split; [|split]].
  - done.
  - intros k Hk. rewrite (Hout k Hk). apply Hout1. intros Hk'. by apply Hk, Hsub.
  - intros w k Hb. destruct (Hlive w k Hb) as [Hb1 Hk]. split; [|done].
    destruct (Hnew1 w k Hb1) as [?|[_ Hk']]; [done|]. by destruct Hk; apply Hsub.
  - intros w k Hb Hk. apply Hkeep; [|done].
    exact (bound_kept _ _ _ _ (Hold1 w k Hb) Hb).
Qed.

(** ** Trees *)

Lemma Tree_ind (P : Tree -> Prop) :
  (forall r ts, Forall P ts -> P (T r ts)) -> forall t, P t.
Proof.
  intros Hstep. fix IH 1. intros [r ts]. apply Hstep.
  induction ts as [|t ts IHts]; constructor; [apply IH | exact IHts].
Qed.

Lemma height_subtree (t : Tree) (ts : list Tree) :
  t ∈ ts -> (height t <= foldr Nat.max O (map height ts))%nat.
Proof.
  induction ts as [|t' ts IH]; intros Hin; [by apply elem_of_nil in Hin|].
  apply elem_of_cons in Hin as [->|Hin]; simpl; [lia|]. specialize (IH Hin). lia.
Qed.

Lemma rootOf_in_ids (t : Tree) : rootOf t ∈ ids t.
Proof. destruct t. simpl. apply elem_of_cons. by left. Qed.

Lemma ids_subtree (t : Tree) (ts : list Tree) (k : cnid) :
  t ∈ ts -> k ∈ ids t -> k ∈ concat (map ids ts).
Proof.
  induction ts as [|t' ts IH]; intros Hin Hk; [by apply elem_of_nil in Hin|].
  simpl. apply elem_of_app. apply elem_of_cons in Hin as [->|Hin]; auto.
Qed.

Lemma shape_unfold (nodes : cnid -> ts.Node) (r : cnid) (ts : list Tree) :
  shape nodes (T r ts) =
  bool_decide (ts.getChildren (nodes r) = map rootOf ts) && forallb (shape nodes) ts.
Proof. reflexivity. Qed.

Lemma shape_children (nodes : cnid -> ts.Node) (r : cnid) (ts : list Tree) :
  shape nodes (T r ts) = true ->
  ts.getChildren (nodes r) = map rootOf ts /\ Forall (fun t => shape nodes t = true) ts.
Proof.
  rewrite shape_unfold. intros [Hc Hts]%andb_true_iff.
  split; [apply bool_decide_eq_true in Hc; exact Hc|].
  apply Forall_forall. intros t Ht. rewrite forallb_forall in Hts.
  apply Hts. apply list_elem_of_In. exact Ht.
Qed.

Lemma ids_root_descendants (t : Tree) : ids t = rootOf t :: descendantsOf t.
Proof. by destruct t. Qed.

Lemma subtree_heights (r : cnid) (ts : list Tree) (fuel : nat) :
  (height (T r ts) <= S fuel)%nat -> Forall (fun t => (height t <= fuel)%nat) ts.
Proof.
  intros Hfuel. apply Forall_forall. intros t Ht.
  pose proof (height_subtree t ts Ht). simpl in Hfuel. lia.
Qed.

(** ** Disposal *)

Lemma Forall2_map_l {A B C : Type} (f : A -> B) (P : B -> C -> Prop) (l : list A) (k : list C) :
  Forall2 P (map f l) k -> Forall2 (fun a c => P (f a) c) l k.
Proof.
  revert k. induction l as [|a l IH]; intros k Hall; simpl in Hall.
  - apply Forall2_nil_inv_l in Hall as ->. constructor.
  - apply Forall2_cons_inv_l in Hall as (c & k' & Hc & Hk & ->). constructor; auto.
Qed.

Lemma live_allocated (s : State) (w : wid) (k : cnid) :
  unallocatedDisposed s -> bound s w k -> (w < next s)%nat.
Proof.
  intros Hun Hb. destruct (decide (w < next s)%nat) as [|Hge]; [done|].
  destruct (disposed_not_bound s w k); [apply Hun; lia | done].
Qed.

Lemma cached_allocated (s : State) (k : cnid) (u : wid) :
  cacheSound s -> nodeCache s !! k = Some u -> (u < next s)%nat.
Proof. intros [Hcb Hun] Hk. apply (live_allocated s u k Hun). by apply Hcb. Qed.

Lemma cached_same_node (s : State) (k k' : cnid) (u : wid) :
  cacheBound s -> nodeCache s !! k = Some u -> nodeCache s !! k' = Some u -> k = k'.
Proof.
  intros Hcb Hk Hk'. apply Hcb in Hk, Hk'. unfold bound in *. congruence.
Qed.

Lemma cached_of_decided (s : State) (ks : list cnid) (u : wid) :
  (exists k, k ∈ ks /\ nodeCache s !! k = Some u) \/
  (forall k, k ∈ ks -> nodeCache s !! k <> Some u).
Proof.
  induction ks as [|k ks [(k' & Hin & Hk')|Hnone]].
  - right. intros k Hk. by apply elem_of_nil in Hk.
  - left. exists k'. split; [apply elem_of_cons; by right | done].
  - destruct (decide (nodeCache s !! k = Some u)) as [Hk|Hk].
    + left. exists k. split; [apply elem_of_cons; by left | done].
    + right. intros k' [->|Hin]%elem_of_cons; [done | by apply Hnone].
Qed.

Lemma grown_refl (ks : list cnid) (s : State) : grown ks s s.
Proof.
  split; [done|]. split; [done|]. split; [done|]. split; [done|]. split; [done|].
  split; [intros k u Hk; by left | intros u Hu; lia].
Qed.

Lemma grown_trans (ks1 ks2 : list cnid) (s s1 s2 : State) :
  grown ks1 s s1 -> grown ks2 s1 s2 -> grown (ks1 ++ ks2) s s2.
Proof.
  intros (Hn1 & Hx1 & Hh1 & Hmono1 & Hout1 & Hback1 & Hnew1)
         (Hn2 & Hx2 & Hh2 & Hmono2 & Hout2 & Hback2 & Hnew2).
  split; [congruence|]. split; [lia|]. split; [|split; [|split; [|split]]].
  - intros u Hu. rewrite Hh2 by lia. by apply Hh1.
  - intros k u Hk. by apply Hmono2, Hmono1.
  - intros k Hk. apply not_elem_of_app in Hk as [Hk1 Hk2]. by rewrite Hout2, Hout1.
  - intros k u Hk. rewrite elem_of_app. destruct (Hback2 k u Hk) as [Hk1|[Hu Hin]].
    + destruct (Hback1 k u Hk1) as [Hk0|[Hu Hin]]; [by left | right; auto].
    + right. split; [lia | auto].
  - intros u Hu. destruct (decide (u < next s1)%nat) as [Hlt|Hge].
    + destruct (Hnew1 u) as (k & Hin & Hk); [lia|]. exists k.
      split; [apply elem_of_app; by left | by apply Hmono2].
    + destruct (Hnew2 u) as (k & Hin & Hk); [lia|]. exists k.
      split; [apply elem_of_app; by right | done].
Qed.

Lemma wrapChild_sound (s : State) (this : wid) (k : cnid) :
  cacheSound s ->
  exists u s1, wrapChild this k s = (Ok u, s1) /\ cacheSound s1 /\ grown [k] s s1 /\
    nodeCache s1 !! k = Some u.
Proof.
  intros Hsound. pose proof Hsound as [Hcb Hun].
  unfold wrapChild, getSourceFile, bind.
  destruct (nodeCache s !! k) as [w|] eqn:Hk.
  - exists w, s. rewrite (getNodeFromCompilerNode_hit _ _ _ _ Hk).
    split; [done|]. split; [done|]. split; [apply grown_refl | done].
  - rewrite (getNodeFromCompilerNode_miss _ _ _ Hk). eexists _, _. split; [reflexivity|].
    split; [|split].
    + split.
      * intros k' w. unfold bound. simpl. destruct (decide (k' = k)) as [->|Hne].
        -- rewrite lookup_insert_eq. intros [= <-]. by rewrite fn_lookup_insert.
        -- rewrite lookup_insert_ne by done. intros Hk'.
           pose proof (cached_allocated _ _ _ Hsound Hk').
           rewrite fn_lookup_insert_ne by lia. by apply Hcb.
      * intros w. simpl. intros Hw. unfold disposed. simpl.
        rewrite fn_lookup_insert_ne by lia. apply Hun. lia.
    + split; [done|]. split; [simpl; lia|]. simpl.
      split; [|split; [|split; [|split]]].
      * intros u Hu. apply fn_lookup_insert_ne. lia.
      * intros k' u Hk'. rewrite lookup_insert_ne; [done | congruence].
      * intros k' Hk'. rewrite lookup_insert_ne; [done|]. set_solver.
      * intros k' u. destruct (decide (k' = k)) as [->|Hne].
        -- rewrite lookup_insert_eq. intros [= <-]. right. split; [lia | set_solver].
        -- rewrite lookup_insert_ne by done. by left.
      * intros u Hu. exists k. split; [by apply list_elem_of_singleton|].
        rewrite lookup_insert_eq. f_equal. lia.
    + simpl. apply lookup_insert_eq.
Qed.

Lemma mapM_wrapChild_sound (this : wid) (ks : list cnid) (s : State) :
  cacheSound s ->
  exists ws s1, mapM (wrapChild this) ks s = (Ok ws, s1) /\ cacheSound s1 /\
    grown ks s s1 /\ Forall2 (fun k u => nodeCache s1 !! k = Some u) ks ws.
Proof.
  revert s. induction ks as [|k ks IH]; intros s Hsound.
  - exists [], s. split; [done|]. split; [done|]. split; [apply grown_refl | constructor].
  - destruct (wrapChild_sound s this k Hsound) as (u & s1 & Hu & Hsound1 & Hg1 & Hk).
    destruct (IH s1 Hsound1) as (ws & s2 & Hws & Hsound2 & Hg2 & Hall).
    exists (u :: ws), s2. simpl. unfold bind at 1. rewrite Hu.
    unfold bind at 1. rewrite Hws. split; [reflexivity|]. split; [done|].
    split; [exact (grown_trans [k] ks _ _ _ Hg1 Hg2)|].
    constructor; [|done]. destruct Hg2 as (_ & _ & _ & Hmono & _). by apply Hmono.
Qed.

Lemma getChildren_sound (s : State) (w : wid) (c : cnid) :
  cacheSound s -> bound s w c ->
  exists ws s1, getChildren w s = (Ok ws, s1) /\ cacheSound s1 /\
    grown (ts.getChildren (nodes s c)) s s1 /\
    Forall2 (fun k u => nodeCache s1 !! k = Some u) (ts.getChildren (nodes s c)) ws.
Proof.
  intros Hsound Hb.
  destruct (mapM_wrapChild_sound w (ts.getChildren (nodes s c)) s Hsound)
    as (ws & s1 & Hws & Hsound1 & Hg & Hall).
  exists ws, s1. unfold getChildren, tsGet, bind.
  by rewrite (compilerNode_bound _ _ _ Hb), Hws.
Qed.

Lemma grown_liveCached (ks : list cnid) (s s1 : State) :
  grown ks s s1 -> cacheSound s1 -> liveCached s -> liveCached s1.
Proof.
  intros (_ & _ & Hh & Hmono & _ & _ & Hnew) [Hcb1 Hun1] Hlc u k Hb.
  destruct (decide (u < next s)%nat) as [Hlt|Hge].
  - apply Hmono, Hlc. unfold bound in *. by rewrite <- (Hh u Hlt).
  - pose proof (live_allocated _ _ _ Hun1 Hb).
    destruct (Hnew u) as (k' & _ & Hk'); [lia|].
    pose proof (Hcb1 _ _ Hk') as Hb'. unfold bound in *. congruence.
Qed.

Lemma disposeOnlyThis_sound (s : State) (w : wid) (c : cnid) :
  unallocatedDisposed s -> bound s w c ->
  exists s', disposeOnlyThis w s = (Ok tt, s') /\ releasedFrom w c [] s s'.
Proof.
  intros Hun Hb. eexists. split.
  { unfold disposeOnlyThis, CompilerFactory.removeNodeFromCache, clearCompilerNode, bind.
    unfold bound in Hb. rewrite Hb. reflexivity. }
  split; [done|]. split; [simpl; lia|]. simpl. unfold KeyValueCache.removeByKey.
  split; [|split; [|split; [|split; [|split]]]].
  - intros k Hk. apply list_elem_of_singleton in Hk as ->. apply lookup_delete_eq.
  - intros k Hk. apply lookup_delete_ne. intros ->. apply Hk, list_elem_of_singleton. done.
  - unfold disposed. simpl. by rewrite fn_lookup_insert.
  - intros k u Hk. by apply elem_of_nil in Hk.
  - intros u Hu. unfold disposed. simpl. destruct (decide (u = w)) as [->|Hne].
    + by rewrite fn_lookup_insert.
    + rewrite fn_lookup_insert_ne by done. by apply Hun.
  - intros u _ Hne _. by rewrite fn_lookup_insert_ne.
Qed.

Lemma released_disposed (ks : list cnid) (s s' : State) (u : wid) :
  released ks s s' -> disposed s u -> disposed s' u.
Proof.
  intros (_ & _ & _ & _ & Hgone & Hfresh & Hframe) Hd.
  destruct (decide (u < next s)%nat) as [Hlt|Hge]; [|apply Hfresh; lia].
  destruct (cached_of_decided s ks u) as [(k & Hin & Hk)|Hnone].
  - by apply (Hgone k).
  - unfold disposed. by rewrite Hframe.
Qed.

Lemma releasedFrom_disposed (w : wid) (r : cnid) (ks : list cnid) (s s' : State) (u : wid) :
  releasedFrom w r ks s s' -> disposed s u -> disposed s' u.
Proof.
  intros (_ & _ & _ & _ & Hw & Hgone & Hfresh & Hframe) Hd.
  destruct (decide (u < next s)%nat) as [Hlt|Hge]; [|apply Hfresh; lia].
  destruct (decide (u = w)) as [->|Hne]; [done|].
  destruct (cached_of_decided s ks u) as [(k & Hin & Hk)|Hnone].
  - by apply (Hgone k).
  - unfold disposed. by rewrite Hframe.
Qed.

Lemma released_sound (ks : list cnid) (s s' : State) :
  cacheSound s -> released ks s s' -> cacheSound s'.
Proof.
  intros Hsound (_ & Hx & Hin & Hout & _ & Hfresh & Hframe).
  pose proof Hsound as [Hcb Hun]. split.
  - intros k u Hk. destruct (decide (k ∈ ks)) as [Hk'|Hk'].
    + rewrite (Hin k Hk') in Hk. discriminate.
    + rewrite (Hout k Hk') in Hk. unfold bound.
      rewrite Hframe; [by apply Hcb | by eapply cached_allocated |].
      intros k' Hin' Hu. apply Hk'. by rewrite (cached_same_node s k k' u).
  - intros u Hu. apply Hfresh. lia.
Qed.

Lemma releasedFrom_cached (w : wid) (r : cnid) (ks : list cnid) (s s' : State) :
  nodeCache s !! r = Some w -> releasedFrom w r ks s s' -> released (r :: ks) s s'.
Proof.
  intros Hr (Hn & Hx & Hin & Hout & Hw & Hgone & Hfresh & Hframe).
  split; [done|]. split; [done|]. split; [done|]. split; [done|].
  split; [|split; [done|]].
  - intros k u [->|Hk]%elem_of_cons Hu; [|by apply (Hgone k)].
    assert (u = w) as -> by congruence. done.
  - intros u Hu Hnone. apply Hframe; [done| |].
    + intros ->. apply (Hnone r); [apply elem_of_cons; by left | done].
    + intros k Hk. apply Hnone. apply elem_of_cons. by right.
Qed.

Lemma released_refl (s : State) : unallocatedDisposed s -> released [] s s.
Proof.
  intros Hun. split; [done|]. split; [done|]. split; [|split; [done|split; [|split]]].
  - intros k Hk. by apply elem_of_nil in Hk.
  - intros k u Hk. by apply elem_of_nil in Hk.
  - done.
  - done.
Qed.

Lemma released_trans (ks1 ks2 : list cnid) (s s1 s2 : State) :
  released ks1 s s1 -> released ks2 s1 s2 -> released (ks1 ++ ks2) s s2.
Proof.
  intros Hr1 Hr2.
  pose proof Hr1 as (Hn1 & Hx1 & Hin1 & Hout1 & Hgone1 & Hfresh1 & Hframe1).
  pose proof Hr2 as (Hn2 & Hx2 & Hin2 & Hout2 & Hgone2 & Hfresh2 & Hframe2).
  split; [congruence|]. split; [lia|]. split; [|split; [|split; [|split]]].
  - intros k Hk. destruct (decide (k ∈ ks2)) as [|Hk2]; [by apply Hin2|].
    rewrite (Hout2 k Hk2). apply Hin1. apply elem_of_app in Hk. tauto.
  - intros k Hk. apply not_elem_of_app in Hk as [Hk1 Hk2]. by rewrite Hout2, Hout1.
  - intros k u Hk Hu. destruct (decide (k ∈ ks1)) as [Hk1|Hk1].
    + apply (released_disposed ks2 s1 s2 u Hr2). by apply (Hgone1 k).
    + apply elem_of_app in Hk as [Hk|Hk]; [done|].
      apply (Hgone2 k); [done|]. by rewrite (Hout1 k Hk1).
  - intros u Hu. destruct (decide (next s1 <= u)%nat) as [Hge|Hlt]; [by apply Hfresh2|].
    apply (released_disposed ks2 s1 s2 u Hr2). by apply Hfresh1.
  - intros u Hu Hnone. rewrite Hframe2.
    + apply Hframe1; [done|]. intros k Hk. apply Hnone. apply elem_of_app. by left.
    + lia.
    + intros k Hk. destruct (decide (k ∈ ks1)) as [Hk1|Hk1].
      * by rewrite (Hin1 k Hk1).
      * rewrite (Hout1 k Hk1). apply Hnone. apply elem_of_app. by right.
Qed.

Lemma released_same_elements (ks ks' : list cnid) (s s' : State) :
  (forall k, k ∈ ks <-> k ∈ ks') -> released ks s s' -> released ks' s s'.
Proof.
  intros Hsame (Hn & Hx & Hin & Hout & Hgone & Hfresh & Hframe).
  split; [done|]. split; [done|]. split; [|split; [|split; [|split; [done|]]]].
  - intros k Hk. apply Hin. by apply Hsame.
  - intros k Hk. apply Hout. by rewrite Hsame.
  - intros k u Hk. apply Hgone. by apply Hsame.
  - intros u Hu Hnone. apply Hframe; [done|]. intros k Hk. apply Hnone. by apply Hsame.
Qed.

Lemma grown_then_released (ks ks' : list cnid) (s s1 s2 : State) :
  (forall k, k ∈ ks -> k ∈ ks') ->
  grown ks s s1 -> released ks' s1 s2 -> released ks' s s2.
Proof.
  intros Hsub (Hn1 & Hx1 & Hh1 & Hmono1 & Hout1 & Hback1 & Hnew1)
         (Hn & Hx & Hin & Hout & Hgone & Hfresh & Hframe).
  split; [congruence|]. split; [lia|]. split; [done|]. split; [|split; [|split]].
  - intros k Hk. rewrite (Hout k Hk). apply Hout1. intros Hk'. by apply Hk, Hsub.
  - intros k u Hk Hu. apply (Hgone k); [done | by apply Hmono1].
  - intros u Hu. destruct (decide (next s1 <= u)%nat) as [Hge|Hlt]; [by apply Hfresh|].
    destruct (Hnew1 u) as (k & Hk & Hku); [lia|]. apply (Hgone k); [by apply Hsub | done].
  - intros u Hu Hnone. rewrite Hframe; [by apply Hh1 | lia |].
    intros k Hk Hku. destruct (Hback1 k u Hku) as [Hk0|[Hge _]]; [|lia].
    by apply (Hnone k).
Qed.

Lemma released_then_this (w : wid) (r : cnid) (ks : list cnid) (s s2 s' : State) :
  released ks s s2 -> releasedFrom w r [] s2 s' -> releasedFrom w r ks s s'.
Proof.
  intros Hr2 Hr'.
  pose proof Hr2 as (Hn2 & Hx2 & Hin2 & Hout2 & Hgone2 & Hfresh2 & Hframe2).
  pose proof Hr' as (Hn & Hx & Hin & Hout & Hw & _ & Hfresh & Hframe).
  split; [congruence|]. split; [lia|]. split; [|split; [|split; [done|split; [|split]]]].
  - intros k Hk. destruct (decide (k = r)) as [->|Hne].
    + apply Hin. apply elem_of_cons. by left.
    + rewrite Hout by (rewrite elem_of_cons, elem_of_nil; tauto).
      apply Hin2. apply elem_of_cons in Hk as [?|?]; done.
  - intros k Hk. apply not_elem_of_cons in Hk as [Hne Hk].
    rewrite Hout by (rewrite elem_of_cons, elem_of_nil; tauto). by apply Hout2.
  - intros k u Hk Hu. apply (releasedFrom_disposed w r [] s2 s' u Hr'). by apply (Hgone2 k).
  - intros u Hu. destruct (decide (next s2 <= u)%nat) as [Hge|Hlt]; [by apply Hfresh|].
    apply (releasedFrom_disposed w r [] s2 s' u Hr'). by apply Hfresh2.
  - intros u Hu Hne Hnone. rewrite Hframe; [by apply Hframe2 | lia | done |].
    intros k Hk. by apply elem_of_nil in Hk.
Qed.

Lemma released_keeps_this (ks : list cnid) (s s2 : State) (w : wid) (r : cnid) :
  cacheSound s -> released ks s s2 -> r ∉ ks -> bound s w r -> bound s2 w r.
Proof.
  intros [Hcb Hun] (_ & _ & _ & _ & _ & _ & Hframe) Hr Hb. unfold bound.
  rewrite Hframe; [done | by eapply live_allocated |].
  intros k Hk Hkw. apply Hr. apply Hcb in Hkw. unfold bound in *.
  by assert (r = k) as -> by congruence.
Qed.

Lemma releasedFrom_sound (w : wid) (r : cnid) (ks : list cnid) (s s' : State) :
  cacheSound s -> bound s w r -> releasedFrom w r ks s s' -> cacheSound s'.
Proof.
  intros Hsound Hb (_ & Hx & Hin & Hout & _ & _ & Hfresh & Hframe).
  pose proof Hsound as [Hcb Hun]. split.
  - intros k u Hk. destruct (decide (k ∈ r :: ks)) as [Hk'|Hk'].
    + rewrite (Hin k Hk') in Hk. discriminate.
    + rewrite (Hout k Hk') in Hk. unfold bound.
      rewrite Hframe; [by apply Hcb | by eapply cached_allocated | |].
      * intros ->. apply Hk'. apply elem_of_cons. left.
        apply Hcb in Hk. unfold bound in *. congruence.
      * intros k' Hin' Hu. apply Hk'. apply elem_of_cons. right.
        by rewrite (cached_same_node s k k' u).
  - intros u Hu. apply Hfresh. lia.
Qed.

Lemma released_liveCached (ks : list cnid) (s s' : State) :
  cacheSound s -> liveCached s -> released ks s s' ->
  liveCached s' /\
  (forall k, k ∈ ks -> forall u, ~ bound s' u k) /\
  (forall u k, bound s u k -> k ∈ ks -> disposed s' u) /\
  (forall u k, bound s u k -> k ∉ ks -> bound s' u k).
Proof.
  intros [Hcb Hun] Hlc (_ & Hx & Hin & Hout & Hgone & Hfresh & Hframe).
  assert (Hback : forall u k, bound s' u k -> bound s u k /\ k ∉ ks).
  { intros u k Hb.
    destruct (decide (u < next s)%nat) as [Hlt|Hge];
      [|destruct (disposed_not_bound s' u k); [apply Hfresh; lia | done]].
    destruct (cached_of_decided s ks u) as [(k' & Hin' & Hk')|Hnone];
      [destruct (disposed_not_bound s' u k); [by apply (Hgone k') | done]|].
    assert (Hb0 : bound s u k) by (unfold bound in *; by rewrite <- (Hframe u Hlt Hnone)).
    split; [done|]. intros Hk. by apply (Hnone k Hk), Hlc. }
  split; [|split; [|split]].
  - intros u k Hb. destruct (Hback u k Hb) as [Hb0 Hk]. rewrite (Hout k Hk). by apply Hlc.
  - intros k Hk u Hb. by destruct (Hback u k Hb).
  - intros u k Hb Hk. apply (Hgone k); [done | by apply Hlc].
  - intros u k Hb Hk. unfold bound. rewrite Hframe; [done | by eapply live_allocated |].
    intros k' Hk' Hu. apply Hk. apply Hcb in Hu. unfold bound in *.
    by assert (k = k') as -> by congruence.
Qed.

Lemma cached_after_released (ks : list cnid) (s s1 : State) (ts : list Tree) (ws : list wid) :
  released ks s s1 ->
  (forall t, t ∈ ts -> rootOf t ∉ ks) ->
  Forall2 (fun t u => nodeCache s !! rootOf t = Some u) ts ws ->
  Forall2 (fun t u => nodeCache s1 !! rootOf t = Some u) ts ws.
Proof.
  intros (_ & _ & _ & Hout & _) Hroots Hall.
  induction Hall as [|t u ts ws Hu Hall IH]; constructor.
  - rewrite Hout; [done|]. apply Hroots. apply elem_of_cons. by left.
  - apply IH. intros t' Ht'. apply Hroots. apply elem_of_cons. by right.
Qed.

Lemma forEach_dispose_reached (fuel : nat) (ts : list Tree) (ws : list wid) (s : State) :
  Forall (disposesReached fuel) ts ->
  Forall (fun t => shape (nodes s) t = true) ts ->
  NoDup (concat (map ids ts)) ->
  Forall (fun t => (height t <= fuel)%nat) ts ->
  cacheSound s ->
  Forall2 (fun t u => nodeCache s !! rootOf t = Some u) ts ws ->
  exists s', forEach ws (dispose fuel) s = (Ok tt, s') /\
    released (concat (map ids ts)) s s' /\ cacheSound s'.
Proof.
  revert ws s. induction ts as [|t ts IH]; intros ws s HP Hshape Hnodup Hfuel Hsound Hroots.
  - apply Forall2_nil_inv_l in Hroots as ->. exists s. split; [done|].
    split; [apply released_refl, Hsound | done].
  - apply Forall2_cons_inv_l in Hroots as (w & ws' & Hw & Hws & ->).
    apply Forall_cons_iff in HP as [HPt HPts]. apply Forall_cons_iff in Hshape as [Hst Hsts].
    apply Forall_cons_iff in Hfuel as [Hft Hfts].
    simpl in Hnodup. apply NoDup_app in Hnodup as (Hnd1 & Hdisj & Hnd2).
    pose proof (proj1 Hsound _ _ Hw) as Hb.
    destruct (HPt s w Hst Hnd1 Hft Hsound Hb) as (s1 & Hrun1 & Hfrom).
    pose proof (releasedFrom_sound _ _ _ _ _ Hsound Hb Hfrom) as Hsound1.
    apply (releasedFrom_cached _ _ _ _ _ Hw) in Hfrom. rewrite <- ids_root_descendants in Hfrom.
    pose proof Hfrom as (Hn1 & _).
    destruct (IH ws' s1) as (s2 & Hrun2 & Hrel2 & Hsound2); try done.
    + by rewrite Hn1.
    + apply (cached_after_released (ids t) s); [done| |done].
      intros t' Ht' Hin. apply (Hdisj _ Hin).
      apply (ids_subtree t'); [done | apply rootOf_in_ids].
    + exists s2. split; [|split; [|done]].
      * simpl. unfold bind. by rewrite Hrun1.
      * simpl. by eapply released_trans.
Qed.

Lemma roots_in_ids (ts : list Tree) (k : cnid) :
  k ∈ map rootOf ts -> k ∈ concat (map ids ts).
Proof.
  intros Hk. apply list_elem_of_fmap in Hk as (t & -> & Ht).
  apply (ids_subtree t); [done | apply rootOf_in_ids].
Qed.

Lemma dispose_reached_step (r : cnid) (ts : list Tree) (fuel : nat) (s : State) (w : wid) :
  Forall (disposesReached fuel) ts ->
  shape (nodes s) (T r ts) = true -> NoDup (ids (T r ts)) ->
  (height (T r ts) <= S fuel)%nat ->
  cacheSound s -> bound s w r ->
  exists ws s1 s2 s',
    getChildren w s = (Ok ws, s1) /\
    forEach ws (dispose fuel) s1 = (Ok tt, s2) /\
    disposeOnlyThis w s2 = (Ok tt, s') /\
    cacheSound s1 /\ grown (map rootOf ts) s s1 /\
    Forall2 (fun k u => nodeCache s1 !! k = Some u) (map rootOf ts) ws /\
    released (concat (map ids ts)) s1 s2 /\
    bound s2 w r /\
    releasedFrom w r (concat (map ids ts)) s s'.
Proof.
  intros HP Hshape Hnodup Hfuel Hsound Hb.
  apply shape_children in Hshape as [Hchildren Hshapes].
  simpl in Hnodup. apply NoDup_cons in Hnodup as [Hr Hnodup].
  destruct (getChildren_sound s w r Hsound Hb) as (ws & s1 & Hws & Hsound1 & Hg & Hall).
  rewrite Hchildren in Hg, Hall.
  pose proof Hg as (Hn1 & _).
  destruct (forEach_dispose_reached fuel ts ws s1) as (s2 & Hloop & Hrel2 & Hsound2); try done.
  { by rewrite Hn1. }
  { by apply (subtree_heights r). }
  { by apply Forall2_map_l in Hall. }
  pose proof (grown_then_released _ _ _ _ _ (roots_in_ids ts) Hg Hrel2) as Hrel.
  pose proof (released_keeps_this _ _ _ _ _ Hsound Hrel Hr Hb) as Hb2.
  destruct (disposeOnlyThis_sound s2 w r (proj2 Hsound2) Hb2) as (s' & Hlast & Hfrom).
  exists ws, s1, s2, s'. repeat (split; [done|]).
  by apply (released_then_this w r _ s s2 s').
Qed.

Lemma dispose_reached (t : Tree) : forall fuel, disposesReached fuel t.
Proof.
  induction t as [r ts IH] using Tree_ind.
  intros [|fuel] s w Hshape Hnodup Hfuel Hsound Hb; [simpl in Hfuel; lia|].
  destruct (dispose_reached_step r ts fuel s w)
    as (ws & s1 & s2 & s' & Hws & Hloop & Hlast & _ & _ & _ & _ & _ & Hfrom); try done.
  { eapply Forall_impl; [exact IH|]. intros t Ht. apply Ht. }
  exists s'. split; [|done]. simpl. unfold bind. by rewrite Hws, Hloop.
Qed.

(** C1. Let [w] be a live wrapper, in a state where every cache entry leads
    to a live wrapper of its key and no wrapper exists beyond [next], the
    compiler nodes below [w]'s node forming a tree [t].  Then [w.dispose()]
    returns.  It runs depth-first: [getChildren()] yields the factory's
    wrappers of the children, the loop disposes them, which leaves a state
    [s2] where no descendant has a cache entry and every wrapper the
    factory held or made for a descendant has a null pointer while [w] is
    still live, and only then [w] itself is disposed.  Afterwards no node
    of the subtree, [w]'s included, has a cache entry; [w], every wrapper
    the cache held for a descendant and every wrapper made on the way have
    a null pointer and are not in the cache; the rest of the cache and
    every other wrapper are as before.  The wrappers of the subtree are
    those the factory returns for its nodes: a wrapper that wraps one of
    these nodes without being its cache entry, as a reconciliation leaves
    them, is not reached and stays as it was.  Where every live wrapper is
    the cache entry of its node, no wrapper at all is left on a node of
    the subtree. *)
Theorem dispose_depth_first (s : State) (w : wid) (t : Tree) (fuel : nat)
    (Hcache : cacheBound s) (Hfresh : unallocatedDisposed s)
    (Hbound : bound s w (rootOf t))
    (Hshape : shape (nodes s) t = true) (Hnodup : NoDup (ids t))
    (Hfuel : (height t <= fuel)%nat) :
  exists s', dispose fuel w s = (Ok tt, s') /\
    (exists children s1 s2,
       getChildren w s = (Ok children, s1) /\
       forEach children (dispose (pred fuel)) s1 = (Ok tt, s2) /\
       disposeOnlyThis w s2 = (Ok tt, s') /\
       Forall2 (fun k u => nodeCache s1 !! k = Some u)
         (ts.getChildren (nodes s (rootOf t))) children /\
       (forall k, k ∈ descendantsOf t ->
          nodeCache s2 !! k = None /\
          forall u, nodeCache s1 !! k = Some u -> disposed s2 u) /\
       (forall u, (next s1 <= u)%nat -> disposed s2 u) /\
       bound s2 w (rootOf t) /\
       (liveCached s ->
          (forall k, k ∈ descendantsOf t -> forall u, ~ bound s2 u k) /\
          nodeCache s2 !! rootOf t = Some w)) /\
    (forall k, k ∈ ids t -> nodeCache s' !! k = None) /\
    disposed s' w /\
    (forall k u, k ∈ descendantsOf t -> nodeCache s !! k = Some u -> disposed s' u) /\
    (forall u, (next s <= u)%nat -> disposed s' u) /\
    (forall u k, disposed s' u -> nodeCache s' !! k <> Some u) /\
    (forall k, k ∉ ids t -> nodeCache s' !! k = nodeCache s !! k) /\
    (forall u, (u < next s)%nat -> u <> w ->
       (forall k, k ∈ descendantsOf t -> nodeCache s !! k <> Some u) ->
       heap s' u = heap s u) /\
    cacheBound s' /\ unallocatedDisposed s' /\
    (liveCached s ->
       (forall k, k ∈ ids t -> forall u, ~ bound s' u k) /\
       (forall u k, bound s u k -> k ∈ ids t -> disposed s' u) /\
       (forall u k, bound s u k -> k ∉ ids t -> bound s' u k) /\
       liveCached s').
Proof.
  assert (Hsound : cacheSound s) by done.
  destruct t as [r ts]. destruct fuel as [|fuel]; [simpl in Hfuel; lia|].
  destruct (dispose_reached_step r ts fuel s w)
    as (ws & s1 & s2 & s' & Hws & Hloop & Hlast & Hsound1 & Hg & Hall & Hrel2 & Hb2 & Hfrom);
    try done.
  { apply Forall_forall. intros t _. apply dispose_reached. }
  pose proof (releasedFrom_sound _ _ _ _ _ Hsound Hbound Hfrom) as [Hcb' Hun'].
  pose proof Hfrom as (_ & _ & Hin & Hout & Hw & Hgone & Hnew & Hframe).
  apply shape_children in Hshape as [Hchildren _].
  exists s'. split; [simpl; unfold bind; by rewrite Hws, Hloop|].
  split; [|split; [|split; [|split; [|split; [|split; [|split; [|split; [|split; [|split]]]]]]]]].
  - exists ws, s1, s2. repeat (split; [done|]).
    split; [simpl; by rewrite Hchildren|].
    pose proof Hrel2 as (_ & _ & Hin2 & _ & Hgone2 & Hnew2 & _).
    split. { intros k Hk. split; [by apply Hin2 | intros u; by apply Hgone2]. }
    split; [done|]. split; [done|].
    intros Hlc. pose proof (grown_liveCached _ _ _ Hg Hsound1 Hlc) as Hlc1.
    destruct (released_liveCached _ _ _ Hsound1 Hlc1 Hrel2) as (Hlc2 & Hnone & _).
    split; [done | by apply Hlc2].
  - done.
  - done.
  - done.
  - done.
  - intros u k Hd Hk. apply (disposed_not_bound _ _ k Hd). by apply Hcb'.
  - done.
  - done.
  - done.
  - done.
  - intros Hlc. pose proof (releasedFrom_cached _ _ _ _ _ (Hlc _ _ Hbound) Hfrom) as Hrel.
    destruct (released_liveCached _ _ _ Hsound Hlc Hrel) as (Hlc' & Hnone & Hdead & Hkeep).
    done.
Qed.

(** ** Concrete states *)

Lemma stateOf_unallocated (compilerNodes : list ts.Node) (wrappers : list Node) :
  unallocatedDisposed (stateOf compilerNodes wrappers).
Proof.
  intros w Hw. unfold disposed, stateOf, heapOf in *. simpl in *.
  by rewrite nth_overflow.
Qed.

Lemma consistentb_sound (s : State) :
  consistentb s = true -> unallocatedDisposed s -> consistent s.
Proof.
  unfold consistentb. intros [Hlive Hcache]%andb_true_iff Hun.
  rewrite forallb_forall in Hlive. rewrite forallb_forall in Hcache.
  split; [|split; [|done]].
  - intros k w Hk. apply elem_of_map_to_list in Hk. apply list_elem_of_In in Hk.
    specialize (Hcache _ Hk). simpl in Hcache.
    apply andb_true_iff in Hcache as [Hb _]. by apply bool_decide_eq_true in Hb.
  - intros w k Hb.
    assert (Hw : (w < next s)%nat).
    { destruct (decide (w < next s)%nat) as [|Hge]; [done|].
      destruct (disposed_not_bound s w k); [apply Hun; lia | done]. }
    specialize (Hlive w). unfold bound in Hb. rewrite Hb in Hlive.
    eapply bool_decide_eq_true_1. apply Hlive. apply in_seq. lia.
Qed.

Lemma sourceFilesLiveb_sound (s : State) :
  sourceFilesLiveb s = true -> unallocatedDisposed s -> sourceFilesLive s.
Proof.
  unfold sourceFilesLiveb. intros Hlive Hun w k Hb. rewrite forallb_forall in Hlive.
  assert (Hw : (w < next s)%nat).
  { destruct (decide (w < next s)%nat) as [|Hge]; [done|].
    destruct (disposed_not_bound s w k); [apply Hun; lia | done]. }
  specialize (Hlive w). unfold bound in Hb. rewrite Hb in Hlive.
  assert (Hsome : is_Some (_compilerNode (heap s (sourceFile (heap s w))))).
  { eapply bool_decide_eq_true_1. apply Hlive. apply in_seq. lia. }
  destruct Hsome as [c Hc]. by exists c.
Qed.

Lemma sampleWrapped_consistent : consistent sampleWrapped.
Proof. apply consistentb_sound; [reflexivity | apply stateOf_unallocated]. Qed.

Lemma cacheBoundb_sound (s : State) : cacheBoundb s = true -> cacheBound s.
Proof.
  unfold cacheBoundb. intros Hcache k w Hk. rewrite forallb_forall in Hcache.
  apply elem_of_map_to_list in Hk. apply list_elem_of_In in Hk.
  specialize (Hcache _ Hk). simpl in Hcache. by apply bool_decide_eq_true in Hcache.
Qed.

Lemma unwrapFitAfter_cacheBound : cacheBound unwrapFitAfter.
Proof. apply cacheBoundb_sound. vm_compute. reflexivity. Qed.

Lemma unwrapFitAfter_next : next unwrapFitAfter = 13%nat.
Proof. vm_compute. reflexivity. Qed.

Lemma unwrapFitAfter_unallocated : unallocatedDisposed unwrapFitAfter.
Proof.
  intros w. rewrite unwrapFitAfter_next. intros Hw. unfold disposed.
  do 13 (destruct w as [|w]; [exfalso; clear -Hw; lia|]). clear Hw.
  vm_compute. reflexivity.
Qed.

Lemma dispose_depth_first_witness :
  cacheBound unwrapFitAfter /\ bound unwrapFitAfter 1%nat 11%nat /\
  bound unwrapFitAfter 3%nat 11%nat /\
  exists s', dispose 3 1%nat unwrapFitAfter = (Ok tt, s') /\
    nodeCache s' !! 11%nat = None /\ nodeCache s' !! 12%nat = None /\
    disposed s' 1%nat /\ disposed s' 10%nat /\
    nodeCache s' !! 0%nat = Some 0%nat /\
    bound s' 3%nat 11%nat.
Proof.
  split; [exact unwrapFitAfter_cacheBound|].
  split; [vm_compute; reflexivity|]. split; [vm_compute; reflexivity|].
  destruct (dispose_depth_first unwrapFitAfter 1%nat (T 11 [T 12 []]) 3
              unwrapFitAfter_cacheBound unwrapFitAfter_unallocated)
    as (s' & Hrun & _ & Hgone & Hd & Hdead & _ & _ & Hout & Hframe & _).
  - vm_compute. reflexivity.
  - vm_compute. reflexivity.
  - apply (bool_decide_unpack _). vm_compute. exact I.
  - simpl. lia.
  - exists s'. split; [exact Hrun|].
    split. { apply Hgone. apply (bool_decide_unpack _). vm_compute. exact I. }
    split. { apply Hgone. apply (bool_decide_unpack _). vm_compute. exact I. }
    split; [exact Hd|].
    split.
    { apply (Hdead 12%nat); [|vm_compute; reflexivity].
      apply (bool_decide_unpack _). vm_compute. exact I. }
    split.
    { rewrite Hout; [vm_compute; reflexivity|]. apply (bool_decide_unpack _). vm_compute. exact I. }
    unfold bound. rewrite Hframe; [vm_compute; reflexivity | | discriminate |].
    + rewrite unwrapFitAfter_next. lia.
    + intros k Hk. change (k ∈ [12%nat]) in Hk. apply list_elem_of_singleton in Hk as ->.
      vm_compute. discriminate.
Defined.

(** ** Descending to a position *)

Lemma containsPosb_true (nodes : cnid -> ts.Node) (k : cnid) (p : Z) :
  containsPosb nodes k p = true <-> containsPos nodes k p.
Proof. unfold containsPosb, containsPos. lia. Qed.

Lemma siblingsOrdered_unique (nodes : cnid -> ts.Node) (ks : list cnid) (k k' : cnid) (p : Z) :
  siblingsOrdered nodes ks = true -> In k ks -> In k' ks ->
  containsPos nodes k p -> containsPos nodes k' p -> k' = k.
Proof.
  unfold containsPos. induction ks as [|k0 ks IH]; simpl; [done|].
  intros [Hk0 Hks]%andb_true_iff Hin Hin' Hc Hc'. rewrite forallb_forall in Hk0.
  destruct Hin as [->|Hin], Hin' as [->|Hin']; [done| | |by apply IH].
  - specialize (Hk0 _ Hin'). lia.
  - specialize (Hk0 _ Hin). lia.
Qed.

Lemma wrapChild_live (s : State) (this : wid) (c k : cnid) :
  consistent s -> sourceFilesLive s -> bound s this c ->
  exists w s1, wrapChild this k s = (Ok w, s1) /\
    created [k] s s1 /\ consistent s1 /\ sourceFilesLive s1 /\ bound s1 w k.
Proof.
  intros Hcons Hlive Hthis.
  destruct (wrapChild_consistent s this k Hcons) as (w & s1 & Hw & Hcr & Hcons1 & Hk & Hnew).
  exists w, s1. split; [done|]. split; [done|]. split; [done|].
  split; [|by apply Hcons1].
  pose proof Hcr as (_ & _ & _ & _ & Hold & Hcreated).
  assert (Hkept : forall w' k', bound s w' k' -> exists c', bound s1 (sourceFile (heap s1 w')) c').
  { intros w' k' Hb'. destruct (Hlive w' k' Hb') as [c' Hc'].
    exists c'. rewrite (Hold w' k' Hb').
    exact (bound_kept _ _ _ _ (Hold _ _ Hc') Hc'). }
  intros w' k' Hb'. destruct (Hcreated w' k' Hb') as [Hb0|[Hd0 Hin]]; [by eapply Hkept|].
  apply list_elem_of_singleton in Hin as ->.
  assert (w' = w) as -> by (eapply consistent_unique; [exact Hcons1 | done | by apply Hcons1]).
  destruct (nodeCache s !! k) as [w0|] eqn:Hk0.
  - destruct Hcons as (Hcb & _). pose proof (Hcb _ _ Hk0) as Hb0.
    destruct Hcr as (_ & _ & _ & Hmono & _). rewrite (Hmono _ _ Hk0) in Hk.
    injection Hk as ->. by destruct (disposed_not_bound _ _ _ Hd0 Hb0).
  - rewrite (Hnew eq_refl). simpl. destruct (Hlive this c Hthis) as [c' Hc'].
    exists c'. exact (bound_kept _ _ _ _ (Hold _ _ Hc') Hc').
Qed.

Lemma getPos_bound (s : State) (w : wid) (k : cnid) :
  bound s w k -> getPos w s = (Ok (ts.pos (nodes s k)), s).
Proof. intros Hb. unfold getPos, tsGet, bind. by rewrite (compilerNode_bound _ _ _ Hb). Qed.

Lemma getEnd_bound (s : State) (w : wid) (k : cnid) :
  bound s w k -> getEnd w s = (Ok (ts.end_ (nodes s k)), s).
Proof. intros Hb. unfold getEnd, tsGet, bind. by rewrite (compilerNode_bound _ _ _ Hb). Qed.

Lemma getChildAtPos_loop_find (this : wid) (c : cnid) (pos : Z) (pending : list cnid) (s : State) :
  consistent s -> sourceFilesLive s -> bound s this c ->
  exists r s1, getChildAtPos_loop this pos pending s = (Ok r, s1) /\
    consistent s1 /\ sourceFilesLive s1 /\ created pending s s1 /\
    match find (fun k => containsPosb (nodes s) k pos) pending with
    | Some k => exists wk, r = Some wk /\ bound s1 wk k
    | None => r = None
    end.
Proof.
  revert s. induction pending as [|k rest IH]; intros s Hcons Hlive Hthis.
  - exists None, s. repeat (split; [done|]). split; [apply created_refl | done].
  - destruct (wrapChild_live s this c k Hcons Hlive Hthis)
      as (w & s1 & Hw & Hcr1 & Hcons1 & Hlive1 & Hbk).
    pose proof Hcr1 as (Hn1 & _ & _ & _ & Hold1 & _).
    assert (Hthis1 : bound s1 this c) by exact (bound_kept _ _ _ _ (Hold1 _ _ Hthis) Hthis).
    destruct (IH s1 Hcons1 Hlive1 Hthis1) as (r & s2 & Hrest & Hcons2 & Hlive2 & Hcr2 & Hfind).
    assert (Hcr : created (k :: rest) s s2) by exact (created_trans [k] rest _ _ _ Hcr1 Hcr2).
    simpl. unfold bind at 1. rewrite Hw. unfold bind at 1. rewrite (getPos_bound _ _ _ Hbk).
    unfold containsPosb at 1. rewrite <- Hn1.
    destruct (pos >=? ts.pos (nodes s1 k)) eqn:Hge; simpl.
    + unfold bind at 1. rewrite (getEnd_bound _ _ _ Hbk).
      destruct (pos <? ts.end_ (nodes s1 k)) eqn:Hlt; simpl.
      * exists (Some w), s1. split; [done|]. split; [done|]. split; [done|].
        split; [|by exists w].
        eapply created_weaken; [|exact Hcr1]. intros k' Hk'.
        apply list_elem_of_singleton in Hk' as ->. apply elem_of_cons. by left.
      * exists r, s2. rewrite Hrest. repeat (split; [done|]). exact Hfind.
    + exists r, s2. rewrite Hrest. repeat (split; [done|]). exact Hfind.
Qed.

Lemma getChildAtPos_childAtPos (this : wid) (c : cnid) (pos : Z) (s : State) :
  consistent s -> sourceFilesLive s -> bound s this c ->
  exists r s1, getChildAtPos this pos s = (Ok r, s1) /\
    consistent s1 /\ sourceFilesLive s1 /\ nodes s1 = nodes s /\
    (forall w k, bound s w k -> bound s1 w k) /\
    match childAtPos (nodes s) c pos with
    | Some k => exists wk, r = Some wk /\ bound s1 wk k
    | None => r = None
    end.
Proof.
  intros Hcons Hlive Hthis. unfold getChildAtPos, childAtPos.
  unfold bind at 1. rewrite (getPos_bound _ _ _ Hthis).
  destruct (pos <? ts.pos (nodes s c)).
  { exists None, s. repeat (split; [done|]). done. }
  unfold bind at 1. rewrite (getEnd_bound _ _ _ Hthis).
  destruct (pos >=? ts.end_ (nodes s c)).
  { exists None, s. repeat (split; [done|]). done. }
  destruct (Hlive _ _ Hthis) as [sfc Hsf].
  unfold bind at 1. unfold getChildrenIterator, getSourceFile, tsGet, bind at 1.
  rewrite (compilerNode_bound _ _ _ Hthis). unfold bind at 1. unfold bind at 1.
  rewrite (compilerNode_bound _ _ _ Hsf).
  destruct (getChildAtPos_loop_find this c pos (ts.getChildren (nodes s c)) s Hcons Hlive Hthis)
    as (r & s1 & Hrun & Hcons1 & Hlive1 & Hcr & Hfind).
  exists r, s1. split; [done|]. split; [done|]. split; [done|].
  destruct Hcr as (Hn & _ & _ & _ & Hold & _). split; [done|]. split; [|done].
  intros w k Hb. exact (bound_kept _ _ _ _ (Hold _ _ Hb) Hb).
Qed.

Lemma positionallyOrdered_children (nodes : cnid -> ts.Node) (r : cnid) (ts : list Tree) :
  positionallyOrdered nodes (T r ts) = true ->
  siblingsOrdered nodes (map rootOf ts) = true /\
  forall t, In t ts -> positionallyOrdered nodes t = true.
Proof.
  change (positionallyOrdered nodes (T r ts))
    with (siblingsOrdered nodes (map rootOf ts) && forallb (positionallyOrdered nodes) ts).
  intros [Hs Hts]%andb_true_iff. split; [done|]. by rewrite forallb_forall in Hts.
Qed.

Lemma childAtPos_inside (nodes : cnid -> ts.Node) (c : cnid) (p : Z) :
  containsPos nodes c p ->
  childAtPos nodes c p = find (fun k => containsPosb nodes k p) (ts.getChildren (nodes c)).
Proof.
  unfold containsPos, childAtPos. intros [Hlo Hhi].
  destruct (p <? ts.pos (nodes c)) eqn:H1; [lia|].
  destruct (p >=? ts.end_ (nodes c)) eqn:H2; [lia|]. done.
Qed.

Lemma descend_subtree (t : Tree) : descendsSubtree t.
Proof.
  induction t as [c ts IH] using Tree_ind.
  intros [|fuel] s this wn pos Hfuel Hshape Hord Hcons Hlive Hwn Hin; [simpl in Hfuel; lia|].
  apply shape_children in Hshape as [Hchildren Hshapes].
  apply positionallyOrdered_children in Hord as [Hsiblings Hords].
  simpl in Hwn, Hin.
  destruct (getChildAtPos_childAtPos wn c pos s Hcons Hlive Hwn)
    as (r & s1 & Hrun & Hcons1 & Hlive1 & Hn1 & Hkept & Hchild).
  rewrite (childAtPos_inside _ _ _ Hin) in Hchild.
  simpl. unfold bind. rewrite Hrun.
  destruct (find (fun k => containsPosb (nodes s) k pos) (ts.getChildren (nodes s c)))
    as [k|] eqn:Hfind.
  - destruct Hchild as (wk & -> & Hwk).
    apply find_some in Hfind as [Hk Hkpos]. apply containsPosb_true in Hkpos.
    pose proof Hk as Hk'. rewrite Hchildren in Hk'.
    apply in_map_iff in Hk' as (tk & <- & Htk).
    rewrite Forall_forall in IH. rewrite Forall_forall in Hshapes.
    destruct (IH tk (proj2 (list_elem_of_In _ _) Htk) fuel s1 this wk pos)
      as (wd & d & s2 & Hloop & Hcons2 & Hlive2 & Hn2 & Hwd & Hdesc & Hdpos); try done.
    + pose proof (height_subtree tk ts (proj2 (list_elem_of_In _ _) Htk)).
      simpl in Hfuel. lia.
    + rewrite Hn1. apply Hshapes. by apply list_elem_of_In.
    + rewrite Hn1. by apply Hords.
    + by rewrite Hn1.
    + exists wd, d, s2. split; [done|]. split; [done|]. split; [done|].
      split; [congruence|]. split; [done|]. rewrite Hn1 in Hdesc, Hdpos.
      split; [|done]. simpl. eapply descent_step; [exact Hk | exact Hkpos | | exact Hdesc].
      intros k' Hk' Hkpos'.
      rewrite Hchildren in Hk, Hk'.
      by eapply (siblingsOrdered_unique (nodes s) (map rootOf ts)).
  - subst r. exists wn, c, s1. split; [done|]. split; [done|]. split; [done|].
    split; [done|]. split; [by apply Hkept|]. split; [|done].
    simpl. apply descent_stop. intros k Hk Hkpos.
    apply containsPosb_true in Hkpos.
    pose proof (find_none _ _ Hfind k Hk) as Hno. simpl in Hno. congruence.
Qed.

Lemma containsRange_at (s : State) (w : wid) (k : cnid) (p : Z) :
  bound s w k -> containsPos (nodes s) k p -> containsRange w p p s = (Ok true, s).
Proof.
  unfold containsPos. intros Hb [Hlo Hhi]. unfold containsRange, bind, ret.
  rewrite (getPos_bound _ _ _ Hb).
  destruct (ts.pos (nodes s k) <=? p) eqn:H1; [|lia].
  rewrite (getEnd_bound _ _ _ Hb). f_equal. f_equal. lia.
Qed.

(** C2. Let [sf] wrap a source file node, in a consistent state whose
    wrappers have live source files; the nodes below it form a tree with
    disjoint, ordered siblings, and the file is tiled by its children.
    For every [pos] in [[0, sf.getEnd())], [sf.getDescendantAtPos(pos)]
    returns a wrapper [w] (not [undefined]) and [w.containsRange(pos, pos)]
    is [true].  The node [d] of [w] is found by iterating from the root:
    each step goes to the one direct child [c] with
    [c.getPos() <= pos < c.getEnd()] (there is a first step, to [k]), and
    the last node has no such child. *)
Theorem getDescendantAtPos_returns_deepest (s : State) (sf : wid) (t : Tree)
    (pos : Z) (fuel : nat)
    (Hconsistent : consistent s) (Hlive : sourceFilesLive s)
    (Hbound : bound s sf (rootOf t))
    (Hshape : shape (nodes s) t = true)
    (Hordered : positionallyOrdered (nodes s) t = true)
    (Htiled : tiledSourceFile (nodes s) (rootOf t))
    (Hfuel : (height t <= fuel)%nat)
    (Hpos : 0 <= pos < ts.end_ (nodes s (rootOf t))) :
  exists w d s',
    getDescendantAtPos fuel sf pos s = (Ok (Some w), s') /\
    bound s' w d /\
    containsRange w pos pos s' = (Ok true, s') /\
    (exists k,
       In k (ts.getChildren (nodes s (rootOf t))) /\
       containsPos (nodes s) k pos /\
       (forall k', In k' (ts.getChildren (nodes s (rootOf t))) ->
          containsPos (nodes s) k' pos -> k' = k) /\
       descent (nodes s) pos k d) /\
    (forall k, In k (ts.getChildren (nodes s d)) -> ~ containsPos (nodes s) k pos) /\
    consistent s' /\ nodes s' = nodes s.
Proof.
  destruct t as [c ts]. destruct fuel as [|fuel]; [simpl in Hfuel; lia|].
  simpl in Hbound, Htiled, Hpos. destruct Htiled as [Hstart Hcover].
  assert (Hin : containsPos (nodes s) c pos) by (unfold containsPos; lia).
  apply shape_children in Hshape as [Hchildren Hshapes].
  apply positionallyOrdered_children in Hordered as [Hsiblings Hords].
  destruct (getChildAtPos_childAtPos sf c pos s Hconsistent Hlive Hbound)
    as (r & s1 & Hrun & Hcons1 & Hlive1 & Hn1 & Hkept & Hchild).
  rewrite (childAtPos_inside _ _ _ Hin) in Hchild.
  unfold getDescendantAtPos. simpl. unfold bind. rewrite Hrun.
  destruct (find (fun k => containsPosb (nodes s) k pos) (ts.getChildren (nodes s c)))
    as [k|] eqn:Hfind.
  - destruct Hchild as (wk & -> & Hwk).
    apply find_some in Hfind as [Hk Hkpos]. apply containsPosb_true in Hkpos.
    pose proof Hk as Hk'. rewrite Hchildren in Hk'.
    apply in_map_iff in Hk' as (tk & <- & Htk).
    rewrite Forall_forall in Hshapes.
    destruct (descend_subtree tk fuel s1 sf wk pos)
      as (wd & d & s2 & Hloop & Hcons2 & Hlive2 & Hn2 & Hwd & Hdesc & Hdpos); try done.
    + pose proof (height_subtree tk ts (proj2 (list_elem_of_In _ _) Htk)).
      simpl in Hfuel. lia.
    + rewrite Hn1. apply Hshapes. by apply list_elem_of_In.
    + rewrite Hn1. by apply Hords.
    + by rewrite Hn1.
    + rewrite Hn1 in Hdesc, Hdpos.
      exists wd, d, s2. split; [done|]. split; [done|].
      split; [apply (containsRange_at _ _ d); [done | by rewrite Hn2, Hn1]|].
      split; [|split; [|split; [done | congruence]]].
      * exists (rootOf tk). split; [done|]. split; [done|]. split; [|done].
        intros k' Hk' Hkpos'. simpl. rewrite Hchildren in Hk, Hk'.
        by eapply (siblingsOrdered_unique (nodes s) (map rootOf ts)).
      * clear -Hdesc. induction Hdesc; auto.
  - exfalso. destruct (Hcover pos Hpos) as (k & Hk & Hkpos).
    apply containsPosb_true in Hkpos.
    pose proof (find_none _ _ Hfind k Hk) as Hno. simpl in Hno. congruence.
Qed.

Lemma sampleFresh_consistent : consistent sampleFresh.
Proof. apply consistentb_sound; [reflexivity | apply stateOf_unallocated]. Qed.

Lemma sampleFresh_sourceFilesLive : sourceFilesLive sampleFresh.
Proof. apply sourceFilesLiveb_sound; [reflexivity | apply stateOf_unallocated]. Qed.

Lemma sampleNodes_tiled : tiledSourceFile (nodes sampleFresh) 0%nat.
Proof.
  split; [reflexivity|]. intros p Hp. exists 1%nat. split; [by left|].
  unfold containsPos. simpl in *. lia.
Qed.

Lemma getDescendantAtPos_returns_deepest_witness :
  consistent sampleFresh /\ sourceFilesLive sampleFresh /\
  tiledSourceFile (nodes sampleFresh) 0%nat /\
  exists w s',
    getDescendantAtPos 4 0%nat 5 sampleFresh = (Ok (Some w), s') /\
    bound s' w 6%nat /\
    containsRange w 5 5 s' = (Ok true, s').
Proof.
  split; [exact sampleFresh_consistent|]. split; [exact sampleFresh_sourceFilesLive|].
  split; [exact sampleNodes_tiled|].
  destruct (getDescendantAtPos_returns_deepest sampleFresh 0%nat sampleTree 5 4)
    as (w & d & s' & Hrun & Hb & Hrange & _).
  - exact sampleFresh_consistent.
  - exact sampleFresh_sourceFilesLive.
  - reflexivity.
  - reflexivity.
  - reflexivity.
  - exact sampleNodes_tiled.
  - simpl. lia.
  - simpl. lia.
  - exists w, s'. split; [exact Hrun|]. split; [|exact Hrange].
    vm_compute in Hrun. injection Hrun as <- <-. reflexivity.
Defined.

(** ** The tree reconciler *)

Lemma bind_Ok_inv {A B : Type} (m : M A) (k : A -> M B) (s s' : State) (b : B) :
  bind m k s = (Ok b, s') -> exists a s1, m s = (Ok a, s1) /\ k a s1 = (Ok b, s').
Proof.
  unfold bind. destruct (m s) as [[a|e|] s1]; [eauto | discriminate | discriminate].
Qed.

Section UnwrapParentHandler_counts.
Variable straight : wid -> wid -> M unit.
Variable finder : wid -> M wid.
Variable exhausted : exn.

Lemma next_Ok_inv (it it' : AdvancedIterator.t) (child : wid) (s s' : State) :
  AdvancedIterator.next exhausted it s = (Ok (child, it'), s') ->
  AdvancedIterator.owner it' = AdvancedIterator.owner it /\
  exists c, AdvancedIterator.pending it = c :: AdvancedIterator.pending it'.
Proof.
  unfold AdvancedIterator.next. destruct (AdvancedIterator.pending it) as [|c rest]; [discriminate|].
  intros Hnext. apply bind_Ok_inv in Hnext as (w & s1 & _ & Hret).
  injection Hret as <- <- <-. simpl. eauto.
Qed.

Lemma replaceUntilChild_counts (remaining : nat) (cur new cur' new' : AdvancedIterator.t)
    (s s' : State) :
  UnwrapParentHandler.replaceUntilChild straight exhausted remaining cur new s
    = (Ok (cur', new'), s') ->
  AdvancedIterator.owner cur' = AdvancedIterator.owner cur /\
  AdvancedIterator.owner new' = AdvancedIterator.owner new /\
  exists j,
    AdvancedIterator.pending cur' = drop j (AdvancedIterator.pending cur) /\
    AdvancedIterator.pending new' = drop j (AdvancedIterator.pending new) /\
    (j <= length (AdvancedIterator.pending cur))%nat /\
    (j <= length (AdvancedIterator.pending new))%nat.
Proof.
  revert cur new s. induction remaining as [|remaining IH]; intros cur new s; simpl.
  - intros [= <- <- <-]. split; [done|]. split; [done|]. exists O. repeat split; lia.
  - destruct (AdvancedIterator.done cur || AdvancedIterator.done new).
    { intros [= <- <- <-]. split; [done|]. split; [done|]. exists O. repeat split; lia. }
    intros Hrun.
    apply bind_Ok_inv in Hrun as ([c cur1] & s1 & Hc & Hrun).
    apply bind_Ok_inv in Hrun as ([n new1] & s2 & Hn & Hrun).
    apply bind_Ok_inv in Hrun as ([] & s3 & _ & Hrun). simpl in Hrun.
    apply next_Ok_inv in Hc as (Hoc & cc & Hpc). apply next_Ok_inv in Hn as (Hon & cn & Hpn).
    destruct (IH _ _ _ Hrun) as (Ho1 & Ho2 & j & Hj1 & Hj2 & Hl1 & Hl2).
    split; [congruence|]. split; [congruence|]. exists (S j).
    rewrite Hpc, Hpn. simpl. repeat split; try done; lia.
Qed.

Lemma rehostChildren_counts (children : list wid) (new new' : AdvancedIterator.t)
    (s s' : State) :
  UnwrapParentHandler.rehostChildren straight exhausted children new s = (Ok new', s') ->
  AdvancedIterator.owner new' = AdvancedIterator.owner new /\
  AdvancedIterator.pending new' = drop (length children) (AdvancedIterator.pending new) /\
  (length children <= length (AdvancedIterator.pending new))%nat.
Proof.
  revert new s. induction children as [|child rest IH]; intros new s; simpl.
  - intros [= <- <-]. split; [done|]. split; [done | lia].
  - intros Hrun. apply bind_Ok_inv in Hrun as ([n new1] & s1 & Hn & Hrun).
    apply bind_Ok_inv in Hrun as ([] & s2 & _ & Hrun). simpl in Hrun.
    apply next_Ok_inv in Hn as (Hon & cn & Hpn).
    destruct (IH _ _ Hrun) as (Ho & Hp & Hl). rewrite Hpn. simpl.
    split; [congruence|]. split; [done | lia].
Qed.

Lemma handleRest_loop_counts (curOwner : wid) (curPending : list cnid)
    (new new' : AdvancedIterator.t) (s s' : State) :
  UnwrapParentHandler.handleRest_loop straight exhausted curOwner curPending new s
    = (Ok new', s') ->
  AdvancedIterator.owner new' = AdvancedIterator.owner new /\
  AdvancedIterator.pending new' = drop (length curPending) (AdvancedIterator.pending new) /\
  (length curPending <= length (AdvancedIterator.pending new))%nat.
Proof.
  revert new s. induction curPending as [|c rest IH]; intros new s; simpl.
  - intros [= <- <-]. split; [done|]. split; [done | lia].
  - intros Hrun. apply bind_Ok_inv in Hrun as (child & s0 & _ & Hrun).
    apply bind_Ok_inv in Hrun as ([n new1] & s1 & Hn & Hrun).
    apply bind_Ok_inv in Hrun as ([] & s2 & _ & Hrun). simpl in Hrun.
    apply next_Ok_inv in Hn as (Hon & cn & Hpn).
    destruct (IH _ _ Hrun) as (Ho & Hp & Hl). rewrite Hpn. simpl.
    split; [congruence|]. split; [done | lia].
Qed.

Lemma create_Ok_inv (node : wid) (it : AdvancedIterator.t) (s s' : State) :
  AdvancedIterator.create node s = (Ok it, s') ->
  s' = s /\ AdvancedIterator.owner it = node /\
  getChildrenIterator node s = (Ok (AdvancedIterator.pending it), s).
Proof.
  unfold AdvancedIterator.create. intros Hrun.
  apply bind_Ok_inv in Hrun as (cs & s1 & Hcs & Hret). injection Hret as <- <-.
  assert (s1 = s) as ->.
  { unfold getChildrenIterator, getSourceFile, tsGet, bind, compilerNode in Hcs.
    destruct (_compilerNode (heap s node)); [|discriminate].
    destruct (_compilerNode (heap s (sourceFile (heap s node)))); [|discriminate].
    by injection Hcs. }
  done.
Qed.

(** What the four phases of [handleNode] leave of the new node's children
    iterator: all its children but as many as the current node has, less
    the unwrapped one, plus those of the unwrapped child's syntax list. *)
Lemma pairChildren_counts (childIndex fuel : nat) (currentNode newNode : wid)
    (s s' : State) (newNodeChildren : AdvancedIterator.t) :
  UnwrapParentHandler.pairChildren straight finder exhausted childIndex fuel
    currentNode newNode s = (Ok newNodeChildren, s') ->
  exists currentChildren newChildren currentChild childSyntaxList rehosted s1 s2 s3,
    getChildrenIterator currentNode s = (Ok currentChildren, s) /\
    getChildrenIterator newNode s = (Ok newChildren, s) /\
    finder currentChild s1 = (Ok childSyntaxList, s2) /\
    getChildren childSyntaxList s2 = (Ok rehosted, s3) /\
    (1 <= length currentChildren)%nat /\
    AdvancedIterator.pending newNodeChildren
      = drop (length currentChildren - 1 + length rehosted) newChildren /\
    (length currentChildren - 1 + length rehosted <= length newChildren)%nat.
Proof.
  unfold UnwrapParentHandler.pairChildren. intros Hrun.
  apply bind_Ok_inv in Hrun as (cur0 & sa & Hcur0 & Hrun).
  apply create_Ok_inv in Hcur0 as (-> & Hocur & Hcur0).
  apply bind_Ok_inv in Hrun as (new0 & sb & Hnew0 & Hrun).
  apply create_Ok_inv in Hnew0 as (-> & Honew & Hnew0).
  apply bind_Ok_inv in Hrun as ([cur1 new1] & s1 & Hlead & Hrun). simpl in Hrun.
  apply replaceUntilChild_counts in Hlead as (_ & _ & j & Hj1 & Hj2 & Hl1 & Hl2).
  apply bind_Ok_inv in Hrun as ([currentChild cur2] & s2 & Hchild & Hrun). simpl in Hrun.
  apply next_Ok_inv in Hchild as (_ & c & Hpc).
  apply bind_Ok_inv in Hrun as (childSyntaxList & s3 & Hfind & Hrun).
  apply bind_Ok_inv in Hrun as (rehosted & s4 & Hchildren & Hrun).
  apply bind_Ok_inv in Hrun as (new2 & s5 & Hrehost & Hrun).
  apply rehostChildren_counts in Hrehost as (_ & Hp2 & Hl3).
  apply bind_Ok_inv in Hrun as ([] & s6 & _ & Hrun).
  unfold UnwrapParentHandler.handleRest in Hrun.
  apply handleRest_loop_counts in Hrun as (_ & Hp3 & Hl4).
  exists (AdvancedIterator.pending cur0), (AdvancedIterator.pending new0),
    currentChild, childSyntaxList, rehosted, s2, s3, s4.
  split; [done|]. split; [done|]. split; [done|]. split; [done|].
  assert (Hlen : length (AdvancedIterator.pending cur0)
                 = (j + S (length (AdvancedIterator.pending cur2)))%nat).
  { rewrite <- (take_drop j (AdvancedIterator.pending cur0)) at 1.
    rewrite length_app, length_take, <- Hj1, Hpc. simpl. lia. }
  rewrite Hp2, Hj2 in Hp3. rewrite !drop_drop in Hp3.
  rewrite Hp2, Hj2, !length_drop in Hl4. rewrite Hj2, length_drop in Hl3.
  split; [lia|]. split; [|lia].
  rewrite Hp3. f_equal. lia.
Qed.

End UnwrapParentHandler_counts.

(** C6. In [UnwrapParentHandler.handleNode], when the pairing up to
    [childIndex], the re-hosting of the unwrapped child's syntax-list
    children, the disposal of the unwrapped subtree and the pairing of the
    remaining current children have completed and the new node's children
    iterator is not exhausted, the handler throws the [Error] whose message
    begins with [Error replacing tree] (the spec's TreeReplacementError), in
    the state the pairing left: the current node is not rebound.  The
    iterator is not exhausted exactly because the new node has more
    children than the count the phases pair: the current node's children
    less the unwrapped one, plus the re-hosted children of its syntax
    list. *)
Theorem handleNode_leftover_new_children
    (straightReplacementNodeHandler_handleNode : wid -> wid -> M unit)
    (compilerFactory_replaceCompilerNode : wid -> cnid -> M unit)
    (getChildSyntaxListOrThrow : wid -> M wid) (exhausted : exn)
    (childIndex fuel : nat) (currentNode newNode : wid) (s s' : State)
    (newNodeChildren : AdvancedIterator.t)
    (Hpaired :
       UnwrapParentHandler.pairChildren straightReplacementNodeHandler_handleNode
         getChildSyntaxListOrThrow exhausted childIndex fuel currentNode newNode s
       = (Ok newNodeChildren, s'))
    (Hleftover : AdvancedIterator.done newNodeChildren = false) :
  UnwrapParentHandler.handleNode straightReplacementNodeHandler_handleNode
    compilerFactory_replaceCompilerNode getChildSyntaxListOrThrow exhausted
    childIndex fuel currentNode newNode s
  = (Throw (Error "Error replacing tree: Should not have more children left over."), s') /\
  isTreeReplacementError
    (Error "Error replacing tree: Should not have more children left over.") = true /\
  exists currentChildren newChildren currentChild childSyntaxList rehosted s1 s2 s3,
    getChildrenIterator currentNode s = (Ok currentChildren, s) /\
    getChildrenIterator newNode s = (Ok newChildren, s) /\
    getChildSyntaxListOrThrow currentChild s1 = (Ok childSyntaxList, s2) /\
    getChildren childSyntaxList s2 = (Ok rehosted, s3) /\
    AdvancedIterator.pending newNodeChildren
      = drop (length currentChildren - 1 + length rehosted) newChildren /\
    (length currentChildren - 1 + length rehosted < length newChildren)%nat.
Proof.
  split; [|split; [reflexivity|]].
  - unfold UnwrapParentHandler.handleNode. rewrite (bind_Ok _ _ _ _ _ Hpaired).
    by rewrite Hleftover.
  - destruct (pairChildren_counts _ _ _ _ _ _ _ _ _ _ Hpaired)
      as (currentChildren & newChildren & currentChild & childSyntaxList & rehosted
          & s1 & s2 & s3 & Hcur & Hnew & Hfind & Hchildren & _ & Hpending & Hle).
    exists currentChildren, newChildren, currentChild, childSyntaxList, rehosted, s1, s2, s3.
    repeat (split; [done|]).
    unfold AdvancedIterator.done in Hleftover. rewrite Hpending in Hleftover.
    destruct (decide (length currentChildren - 1 + length rehosted < length newChildren)%nat)
      as [|Hge]; [done|].
    rewrite drop_ge in Hleftover by lia. discriminate.
Qed.

Lemma handleNode_leftover_new_children_witness :
  samplePairing 5 1%nat 3%nat unwrapState
    = (Ok {| AdvancedIterator.owner := 3%nat; AdvancedIterator.pending := [13%nat] |},
       (samplePairing 5 1%nat 3%nat unwrapState).2) /\
  sampleHandler 5 1%nat 3%nat unwrapState
    = (Throw (Error "Error replacing tree: Should not have more children left over."),
       (samplePairing 5 1%nat 3%nat unwrapState).2) /\
  bound (samplePairing 5 1%nat 3%nat unwrapState).2 1%nat 1%nat.
Proof.
  assert (Hpaired : samplePairing 5 1%nat 3%nat unwrapState
    = (Ok {| AdvancedIterator.owner := 3%nat; AdvancedIterator.pending := [13%nat] |},
       (samplePairing 5 1%nat 3%nat unwrapState).2)).
  { vm_compute. reflexivity. }
  split; [exact Hpaired|]. split; [|reflexivity].
  apply (handleNode_leftover_new_children sampleStraightReplacement
           CompilerFactory.replaceCompilerNode sampleChildSyntaxList sampleExhausted
           0 5 1%nat 3%nat unwrapState _ _ Hpaired).
  reflexivity.
Defined.

(** ** Siblings of a node that its container holds *)

Lemma extends_refl (s : State) : extends s s.
Proof. by split. Qed.

Lemma extends_trans (s s1 s2 : State) : extends s s1 -> extends s1 s2 -> extends s s2.
Proof. intros [Hn1 Hb1] [Hn2 Hb2]. split; [congruence | auto]. Qed.

Lemma created_extends (ks : list cnid) (s s1 : State) : created ks s s1 -> extends s s1.
Proof.
  intros (Hn & _ & _ & _ & Hold & _). split; [done|].
  intros w k Hb. exact (bound_kept _ _ _ _ (Hold _ _ Hb) Hb).
Qed.

Lemma Forall2_bound_extends (s s1 : State) (ks : list cnid) (ws : list wid) :
  extends s s1 ->
  Forall2 (fun k w => bound s w k) ks ws -> Forall2 (fun k w => bound s1 w k) ks ws.
Proof. intros [_ Hb] Hall. eapply Forall2_impl; [exact Hall|]. intros k w. apply Hb. Qed.


Lemma mapM_wrapChild_live (this : wid) (c : cnid) (ks : list cnid) (s : State) :
  consistent s -> sourceFilesLive s -> bound s this c ->
  exists ws s1, mapM (wrapChild this) ks s = (Ok ws, s1) /\
    consistent s1 /\ sourceFilesLive s1 /\ extends s s1 /\
    Forall2 (fun k w => bound s1 w k) ks ws.
Proof.
  revert s. induction ks as [|k ks IH]; intros s Hcons Hlive Hthis.
  - exists [], s. split; [done|]. split; [done|]. split; [done|].
    split; [apply extends_refl | constructor].
  - destruct (wrapChild_live s this c k Hcons Hlive Hthis)
      as (w & s1 & Hw & Hcr1 & Hcons1 & Hlive1 & Hbk).
    pose proof (created_extends _ _ _ Hcr1) as Hext1.
    destruct (IH s1 Hcons1 Hlive1 (proj2 Hext1 _ _ Hthis))
      as (ws & s2 & Hws & Hcons2 & Hlive2 & Hext2 & Hall).
    exists (w :: ws), s2. simpl. unfold bind at 1. rewrite Hw.
    unfold bind at 1. rewrite Hws. split; [reflexivity|].
    split; [done|]. split; [done|]. split; [by eapply extends_trans|].
    constructor; [by apply Hext2 | done].
Qed.

Lemma getChildren_live (s : State) (w : wid) (c : cnid) :
  consistent s -> sourceFilesLive s -> bound s w c ->
  exists ws s1, getChildren w s = (Ok ws, s1) /\
    consistent s1 /\ sourceFilesLive s1 /\ extends s s1 /\
    Forall2 (fun k w' => bound s1 w' k) (ts.getChildren (nodes s c)) ws.
Proof.
  intros Hcons Hlive Hb.
  destruct (mapM_wrapChild_live w c (ts.getChildren (nodes s c)) s Hcons Hlive Hb)
    as (ws & s1 & Hws & Hrest).
  exists ws, s1. unfold getChildren, tsGet, bind.
  by rewrite (compilerNode_bound _ _ _ Hb), Hws.
Qed.

Lemma getChildrenIterator_live (s : State) (w : wid) (c : cnid) :
  sourceFilesLive s -> bound s w c ->
  getChildrenIterator w s = (Ok (ts.getChildren (nodes s c)), s).
Proof.
  intros Hlive Hb. destruct (Hlive _ _ Hb) as [sfc Hsf].
  unfold getChildrenIterator, getSourceFile, tsGet, bind.
  by rewrite (compilerNode_bound _ _ _ Hb), (compilerNode_bound _ _ _ Hsf).
Qed.

Lemma getParent_live (s : State) (this : wid) (c : cnid) :
  consistent s -> sourceFilesLive s -> bound s this c ->
  exists r s1, getParent this s = (Ok r, s1) /\
    consistent s1 /\ sourceFilesLive s1 /\ extends s s1 /\
    match ts.parent (nodes s c) with
    | Some p => exists wp, r = Some wp /\ bound s1 wp p
    | None => r = None
    end.
Proof.
  intros Hcons Hlive Hthis. unfold getParent, tsGet.
  unfold bind at 1. rewrite (compilerNode_bound _ _ _ Hthis). unfold bind at 1.
  destruct (ts.parent (nodes s c)) as [p|].
  - destruct (wrapChild_live s this c p Hcons Hlive Hthis)
      as (w & s1 & Hw & Hcr1 & Hcons1 & Hlive1 & Hbp).
    exists (Some w), s1. unfold wrapChild in Hw.
    unfold bind at 1. unfold bind in Hw.
    destruct (getSourceFile this s) as [[sf|e|] s0]; try discriminate.
    unfold bind. rewrite Hw. split; [done|]. split; [done|]. split; [done|].
    split; [by eapply created_extends | by exists w].
  - exists None, s. split; [done|]. split; [done|]. split; [done|].
    split; [apply extends_refl | done].
Qed.

Lemma getKind_bound (s : State) (w : wid) (k : cnid) :
  bound s w k -> getKind w s = (Ok (ts.kind (nodes s k)), s).
Proof. intros Hb. unfold getKind, tsGet, bind. by rewrite (compilerNode_bound _ _ _ Hb). Qed.

Lemma same_wrapper_same_node (s : State) (w w' : wid) (k k' : cnid) :
  consistent s -> bound s w k -> bound s w' k' -> Nat.eqb w w' = Nat.eqb k k'.
Proof.
  intros Hcons Hb Hb'. destruct (Nat.eqb_spec w w') as [->|Hw], (Nat.eqb_spec k k') as [->|Hk];
    try done.
  - unfold bound in *. congruence.
  - destruct Hw. by eapply consistent_unique.
Qed.

Lemma getParentSyntaxList_loop_pure (s : State) (this : wid) (c : cnid)
    (ks : list cnid) (ws : list wid) :
  consistent s -> bound s this c ->
  Forall2 (fun k w => bound s w k) ks ws ->
  exists r,
    getParentSyntaxList_loop this (ts.pos (nodes s c)) (ts.end_ (nodes s c)) ws s = (Ok r, s) /\
    match parentSyntaxList_loop (nodes s) c ks with
    | Some l => exists wl, r = Some wl /\ bound s wl l
    | None => r = None
    end.
Proof.
  intros Hcons Hthis Hall. induction Hall as [|k w ks ws Hb Hall IH]; simpl.
  - by exists None.
  - unfold bind at 1. rewrite (getPos_bound _ _ _ Hb).
    rewrite (same_wrapper_same_node s w this k c Hcons Hb Hthis).
    destruct ((ts.pos (nodes s k) >? ts.pos (nodes s c)) || Nat.eqb k c); [by exists None|].
    unfold bind at 1. rewrite (getKind_bound _ _ _ Hb).
    destruct (bool_decide (ts.kind (nodes s k) = ts.SyntaxList)); simpl; [|exact IH].
    unfold bind at 1. rewrite (getPos_bound _ _ _ Hb).
    destruct (ts.pos (nodes s k) <=? ts.pos (nodes s c)); simpl; [|exact IH].
    unfold bind at 1. rewrite (getEnd_bound _ _ _ Hb).
    destruct (ts.end_ (nodes s k) >=? ts.end_ (nodes s c)); simpl; [|exact IH].
    exists (Some w). split; [done | by exists w].
Qed.

Lemma getParentSyntaxList_live (s : State) (this : wid) (c : cnid) :
  consistent s -> sourceFilesLive s -> bound s this c ->
  exists r s1, getParentSyntaxList this s = (Ok r, s1) /\
    consistent s1 /\ sourceFilesLive s1 /\ extends s s1 /\
    match parentSyntaxList (nodes s) c with
    | Some l => exists wl, r = Some wl /\ bound s1 wl l
    | None => r = None
    end.
Proof.
  intros Hcons Hlive Hthis.
  destruct (getParent_live s this c Hcons Hlive Hthis)
    as (rp & s1 & Hrp & Hcons1 & Hlive1 & Hext1 & Hparent).
  unfold getParentSyntaxList, parentSyntaxList. unfold bind at 1. rewrite Hrp.
  destruct (ts.parent (nodes s c)) as [p|].
  - destruct Hparent as (wp & -> & Hwp).
    pose proof (proj2 Hext1 _ _ Hthis) as Hthis1.
    unfold bind at 1. rewrite (getPos_bound _ _ _ Hthis1).
    unfold bind at 1. rewrite (getEnd_bound _ _ _ Hthis1).
    destruct (getChildren_live s1 wp p Hcons1 Hlive1 Hwp)
      as (ws & s2 & Hws & Hcons2 & Hlive2 & Hext2 & Hall).
    unfold bind at 1. rewrite Hws.
    pose proof (proj2 Hext2 _ _ Hthis1) as Hthis2.
    destruct (getParentSyntaxList_loop_pure s2 this c _ ws Hcons2 Hthis2 Hall)
      as (r & Hloop & Hr).
    destruct Hext1 as [Hn1 Hb1]. destruct Hext2 as [Hn2 Hb2].
    rewrite Hn2 in Hloop. rewrite Hloop. exists r, s2.
    split; [done|]. split; [done|]. split; [done|].
    split; [split; [congruence | auto]|].
    rewrite Hn2, Hn1 in Hr. exact Hr.
  - subst rp. exists None, s1. done.
Qed.

Lemma getSiblingContainer_live (s : State) (this : wid) (c p : cnid) :
  consistent s -> sourceFilesLive s -> bound s this c ->
  siblingContainer (nodes s) c = Some p ->
  exists wp s1, getSiblingContainer this s = (Ok wp, s1) /\
    consistent s1 /\ sourceFilesLive s1 /\ extends s s1 /\ bound s1 wp p.
Proof.
  intros Hcons Hlive Hthis Hcontainer.
  destruct (getParentSyntaxList_live s this c Hcons Hlive Hthis)
    as (r & s1 & Hr & Hcons1 & Hlive1 & Hext1 & Hlist).
  unfold getSiblingContainer, siblingContainer in *. unfold bind. rewrite Hr.
  destruct (parentSyntaxList (nodes s) c) as [l|].
  - injection Hcontainer as ->. destruct Hlist as (wl & -> & Hwl). by exists wl, s1.
  - subst r. pose proof (proj2 Hext1 _ _ Hthis) as Hthis1.
    destruct (getParent_live s1 this c Hcons1 Hlive1 Hthis1)
      as (rp & s2 & Hrp & Hcons2 & Hlive2 & Hext2 & Hparent).
    unfold getParentOrThrow, bind. rewrite Hrp.
    rewrite (proj1 Hext1), Hcontainer in Hparent. destruct Hparent as (wp & -> & Hwp).
    exists wp, s2. simpl. split; [done|]. split; [done|]. split; [done|].
    split; [by eapply extends_trans | done].
Qed.

Lemma Forall2_rev {A B : Type} (P : A -> B -> Prop) (l : list A) (k : list B) :
  Forall2 P l k -> Forall2 P (rev l) (rev k).
Proof.
  induction 1 as [|a b l k Hab Hlk IH]; simpl; [constructor|].
  apply Forall2_app; [exact IH | by constructor].
Qed.





(** ** Siblings of the end-of-file token *)

(** C7, evaluated on the end-of-file token of the file [a;\n  b;] (wrapper 2):
    [getParentSyntaxList()] takes the syntax list (node 1, wrapper 3), a
    sibling that ends where the empty token sits, for the token's
    container, and the token is not among its children.  The previous
    siblings are then the two statements, closest first, and there is no
    next sibling; reversed, and with the token between them, they are
    neither the children of that syntax list nor the children of the
    parent.  On the second statement (wrapper 1) of the same file the law
    holds. *)
Theorem eof_token_siblings_evaluation :
  ts.kind (nodes sampleWrapped 8%nat) = ts.EndOfFileToken /\
  ts.parent (nodes sampleWrapped 8%nat) = Some 0%nat /\
  parentSyntaxList (nodes sampleWrapped) 8%nat = Some 1%nat /\
  ~ In 8%nat (ts.getChildren (nodes sampleWrapped 1%nat)) /\
  (siblingsReport 2%nat sampleWrapped).1
    = Ok ([1; 4]%nat, [], (3%nat, [4; 1]%nat), (0%nat, [3; 2]%nat)) /\
  (rev [1; 4]%nat ++ [2%nat] ++ [])%list <> [4; 1]%nat /\
  (rev [1; 4]%nat ++ [2%nat] ++ [])%list <> [3; 2]%nat /\
  bound (siblingsReport 2%nat sampleWrapped).2 3%nat 1%nat /\
  bound (siblingsReport 2%nat sampleWrapped).2 2%nat 8%nat /\
  (siblingsReport 1%nat sampleWrapped).1
    = Ok ([4]%nat, [], (3%nat, [4; 1]%nat), (0%nat, [3; 2]%nat)) /\
  (rev [4]%nat ++ [1%nat] ++ [])%list = [4; 1]%nat.
Proof.
  split; [reflexivity|]. split; [reflexivity|]. split; [reflexivity|].
  split; [simpl; intuition discriminate|].
  repeat split; try reflexivity; discriminate.
Qed.

(** * Further properties *)

(** ** [KeyValueCache]: reading back what was stored *)

Section KeyValueCache_further.
Context {T : Type} `{Countable T} {U : Type} `{JsTruthy U}.

Lemma get_set_same (c : gmap T U) (key : T) (value : U) :
  KeyValueCache.get key (KeyValueCache.set key value c) =
    if truthy value then Some value else None.
Proof. unfold KeyValueCache.get, KeyValueCache.set. by rewrite lookup_insert_eq. Qed.

(** X1. After [set(key, value)], [get(key)] returns the value if it is
    truthy and [undefined] if it is falsy, and [get] of every other key
    returns what it returned before. *)
Theorem set_then_get (c : gmap T U) (key k : T) (value : U) :
  KeyValueCache.get k (KeyValueCache.set key value c) =
    if decide (k = key) then (if truthy value then Some value else None)
    else KeyValueCache.get k c.
Proof.
  destruct (decide (k = key)) as [->|Hne].
  - apply get_set_same.
  - unfold KeyValueCache.get, KeyValueCache.set. by rewrite lookup_insert_ne.
Qed.

(** X2. If [getOrCreate(key, f)] returned a truthy item, a second
    [getOrCreate(key, g)] on the cache it left returns the same item
    without calling [g] and without changing the cache. *)
Theorem getOrCreate_again_returns_cached {S S' : Type} (c : gmap T U) (key : T)
    (f : S -> U * S) (g : S' -> U * S') (s : S) (s2 : S')
    (Htruthy : truthy (KeyValueCache.getOrCreate key f c s).1.1 = true) :
  KeyValueCache.getOrCreate key g (KeyValueCache.getOrCreate key f c s).1.2 s2 =
    ((KeyValueCache.getOrCreate key f c s).1.1,
     (KeyValueCache.getOrCreate key f c s).1.2, s2).
Proof.
  revert Htruthy.
  generalize (eq_refl (KeyValueCache.getOrCreate key f c s)).
  generalize (KeyValueCache.getOrCreate key f c s) at 2 3 4 5 6 as r.
  intros [[item c1] s1]. unfold KeyValueCache.getOrCreate at 1.
  destruct (KeyValueCache.get key c) as [item0|] eqn:Hget.
  - intros [= <- <- <-] _. cbn. unfold KeyValueCache.getOrCreate. by rewrite Hget.
  - destruct (f s) as [item' s'] eqn:Hf. intros [= <- <- <-]. cbn. intros Ht.
    unfold KeyValueCache.getOrCreate. by rewrite get_set_same, Ht.
Qed.

(** X3. [removeByKey(key)] makes the cache forget the key only: [get(key)]
    is [undefined], every other key reads as before, the next
    [getOrCreate(key, f)] calls [f] and stores its result, and removing a
    key that was just [set] on a cache without it gives that cache back. *)
Theorem removeByKey_forgets_key {S : Type} (c : gmap T U) (key k : T) (value : U)
    (f : S -> U * S) (s : S) :
  KeyValueCache.get k (KeyValueCache.removeByKey key c) =
    (if decide (k = key) then None else KeyValueCache.get k c) /\
  KeyValueCache.getOrCreate key f (KeyValueCache.removeByKey key c) s =
    ((f s).1, <[key := (f s).1]> c, (f s).2) /\
  KeyValueCache.removeByKey key (KeyValueCache.set key value (KeyValueCache.removeByKey key c))
    = KeyValueCache.removeByKey key c.
Proof.
  unfold KeyValueCache.removeByKey. split; [|split].
  - unfold KeyValueCache.get. destruct (decide (k = key)) as [->|Hne].
    + by rewrite lookup_delete_eq.
    + by rewrite lookup_delete_ne.
  - unfold KeyValueCache.getOrCreate, KeyValueCache.get, KeyValueCache.set.
    rewrite lookup_delete_eq. destruct (f s) as [item s']. cbn.
    by rewrite insert_delete_eq.
  - unfold KeyValueCache.set. by rewrite delete_insert_eq, delete_delete_eq.
Qed.


(** X5. [replaceKey(k1, k2)] does not check the new key: if [k2] already
    holds an entry, that entry is overwritten and the cache has one entry
    less; entries under other keys are untouched. *)
Theorem replaceKey_onto_occupied_key (c : gmap T U) (k1 k2 k : T) (v v' : U)
    (Hpresent : c !! k1 = Some v) (Hoccupied : c !! k2 = Some v')
    (Hdistinct : k1 <> k2) :
  exists c', KeyValueCache.replaceKey k1 k2 c = Ok c' /\
    c' !! k2 = Some v /\ c' !! k1 = None /\
    (k <> k1 -> k <> k2 -> c' !! k = c !! k) /\
    S (size c') = size c.
Proof.
  exists (<[k2 := v]> (delete k1 c)). unfold KeyValueCache.replaceKey.
  rewrite Hpresent. split; [done|].
  rewrite lookup_insert_eq. split; [done|].
  rewrite lookup_insert_ne, lookup_delete_eq by done. split; [done|].
  split.
  - intros Hk1 Hk2. by rewrite lookup_insert_ne, lookup_delete_ne.
  - rewrite <- (insert_delete_eq (delete k1 c) k2 v).
    rewrite map_size_insert_None by (by rewrite lookup_delete_eq).
    rewrite <- (insert_id c k1 v Hpresent) at 2.
    rewrite <- (insert_delete_eq c k1 v).
    rewrite map_size_insert_None by (by rewrite lookup_delete_eq).
    f_equal.
    rewrite <- (insert_id (delete k1 c) k2 v') at 2 by (by rewrite lookup_delete_ne).
    rewrite <- (insert_delete_eq (delete k1 c) k2 v').
    rewrite map_size_insert_None by (by rewrite lookup_delete_eq).
    done.
Qed.

End KeyValueCache_further.

Lemma getOrCreate_again_returns_cached_witness :
  KeyValueCache.getOrCreate 1%nat (fun calls : nat => (JsNumber 9, S calls))
    (KeyValueCache.getOrCreate 1%nat (fun calls : nat => (JsNumber 5, S calls))
       (∅ : gmap nat JsValue) O).1.2 7%nat
  = (JsNumber 5, {[1%nat := JsNumber 5]}, 7%nat).
Proof.
  exact (getOrCreate_again_returns_cached (∅ : gmap nat JsValue) 1%nat
           (fun calls : nat => (JsNumber 5, S calls))
           (fun calls : nat => (JsNumber 9, S calls)) O 7%nat eq_refl).
Defined.


Lemma replaceKey_onto_occupied_key_witness :
  exists c', KeyValueCache.replaceKey 1%nat 2%nat
               ({[1%nat := JsObject 7; 2%nat := JsObject 8]} : gmap nat JsValue) = Ok c' /\
    c' !! 2%nat = Some (JsObject 7) /\ c' !! 1%nat = None /\
    (3%nat <> 1%nat -> 3%nat <> 2%nat ->
     c' !! 3%nat = ({[1%nat := JsObject 7; 2%nat := JsObject 8]} : gmap nat JsValue) !! 3%nat) /\
    S (size c') = size ({[1%nat := JsObject 7; 2%nat := JsObject 8]} : gmap nat JsValue).
Proof.
  apply (replaceKey_onto_occupied_key
           ({[1%nat := JsObject 7; 2%nat := JsObject 8]} : gmap nat JsValue)
           1%nat 2%nat 3%nat (JsObject 7) (JsObject 8)); [reflexivity|reflexivity|lia].
Defined.

(** ** Releasing one wrapper *)

Lemma bound_allocated (s : State) (w : wid) (k : cnid) :
  consistent s -> bound s w k -> (w < next s)%nat.
Proof.
  intros (_ & _ & Hun) Hb. destruct (Nat.lt_ge_cases w (next s)) as [|Hge]; [done|].
  destruct (disposed_not_bound _ _ k (Hun _ Hge) Hb).
Qed.

Lemma sampleWrapped_sourceFilesLive : sourceFilesLive sampleWrapped.
Proof. apply sourceFilesLiveb_sound; [reflexivity | apply stateOf_unallocated]. Qed.

(** X6. [disposeOnlyThis()] on a live wrapper releases this wrapper and
    nothing else: its cache entry is gone and it is disposed, every other
    cache entry and live wrapper (its children included) stays as it was,
    and the factory, asked again for the same compiler node, builds a new
    wrapper while the released one stays disposed. *)
Theorem disposeOnlyThis_releases_only_this (s : State) (w : wid) (c : cnid) (sf : wid)
    (Hconsistent : consistent s) (Hbound : bound s w c) :
  exists s', disposeOnlyThis w s = (Ok tt, s') /\
    disposed s' w /\
    nodeCache s' !! c = None /\
    (forall k, k <> c -> nodeCache s' !! k = nodeCache s !! k) /\
    (forall w' k, k <> c -> bound s' w' k <-> bound s w' k) /\
    consistent s' /\
    exists w2 s2,
      CompilerFactory.getNodeFromCompilerNode c sf s' = (Ok w2, s2) /\
      w2 <> w /\ bound s2 w2 c /\ disposed s2 w.
Proof.
  destruct (disposeOnlyThis_consistent s w c Hconsistent Hbound) as (s' & Hrun & Hrem & Hdis).
  pose proof (removed_consistent _ _ _ Hconsistent Hrem) as Hcons'.
  destruct Hrem as (Hn & Hnext & Hgone & Hkept & Hback & Hforth).
  assert (Hc : nodeCache s' !! c = None) by (apply Hgone, list_elem_of_singleton; done).
  exists s'. split; [done|]. split; [done|]. split; [done|].
  split. { intros k Hk. apply Hkept. by rewrite list_elem_of_singleton. }
  split. { intros w' k Hk. split; [intros Hb; by apply Hback in Hb as [Hb _]|].
           intros Hb. apply Hforth; [done|]. by rewrite list_elem_of_singleton. }
  split; [done|].
  pose proof (bound_allocated _ _ _ Hconsistent Hbound) as Hlt.
  exists (next s'). eexists. split; [by apply getNodeFromCompilerNode_miss|].
  split; [lia|]. unfold bound, disposed. simpl. split.
  - by rewrite fn_lookup_insert.
  - rewrite fn_lookup_insert_ne by lia. exact Hdis.
Qed.

Lemma disposeOnlyThis_releases_only_this_witness :
  exists s', disposeOnlyThis 1%nat sampleWrapped = (Ok tt, s') /\
    disposed s' 1%nat /\ bound s' 2%nat 8%nat /\ nodeCache s' !! 5%nat = None /\
    exists w2 s2, CompilerFactory.getNodeFromCompilerNode 5%nat 0%nat s' = (Ok w2, s2) /\
      w2 <> 1%nat.
Proof.
  destruct (disposeOnlyThis_releases_only_this sampleWrapped 1%nat 5%nat 0%nat
              sampleWrapped_consistent eq_refl)
    as (s' & Hrun & Hdis & Hcache & _ & Hothers & _ & w2 & s2 & Hnew & Hne & _).
  exists s'. split; [exact Hrun|]. split; [exact Hdis|].
  split; [apply Hothers; [lia | reflexivity]|]. split; [exact Hcache|].
  exists w2, s2. split; [exact Hnew | exact Hne].
Defined.

(** ** One wrapper per compiler node *)

Lemma mapM_wrapChild_cached (this : wid) (ks : list cnid) (ws : list wid) (s : State) :
  Forall2 (fun k w => nodeCache s !! k = Some w) ks ws ->
  mapM (wrapChild this) ks s = (Ok ws, s).
Proof.
  induction 1 as [|k w ks ws Hk Hall IH]; [done|]. simpl.
  unfold bind at 1. unfold wrapChild at 1, getSourceFile, bind at 1.
  rewrite (getNodeFromCompilerNode_hit _ _ _ _ Hk). unfold bind. by rewrite IH.
Qed.

(** X7. [getChildren()] returns one wrapper per compiler child, in order,
    and keeps every wrapper that was live; called again it returns the very
    same wrappers and changes nothing. *)
Theorem getChildren_again_same_wrappers (s : State) (w : wid) (c : cnid)
    (Hconsistent : consistent s) (Hbound : bound s w c) :
  exists ws s1, getChildren w s = (Ok ws, s1) /\
    Forall2 (fun k w' => bound s1 w' k) (ts.getChildren (nodes s c)) ws /\
    (forall w' k, bound s w' k -> bound s1 w' k) /\
    consistent s1 /\
    getChildren w s1 = (Ok ws, s1).
Proof.
  destruct (mapM_wrapChild_consistent w (ts.getChildren (nodes s c)) s Hconsistent)
    as (ws & s1 & Hws & Hcr & Hcons1 & Hcached).
  pose proof (created_extends _ _ _ Hcr) as [Hn Hext].
  exists ws, s1. split.
  { unfold getChildren, tsGet, bind. by rewrite (compilerNode_bound _ _ _ Hbound), Hws. }
  split. { eapply Forall2_impl; [exact Hcached|]. intros k w'. apply Hcons1. }
  split; [exact Hext|]. split; [done|].
  unfold getChildren, tsGet, bind. rewrite (compilerNode_bound _ _ _ (Hext _ _ Hbound)).
  rewrite Hn. by rewrite (mapM_wrapChild_cached w _ ws s1 Hcached).
Qed.

Lemma getChildren_again_same_wrappers_witness :
  exists ws s1, getChildren 0%nat sampleWrapped = (Ok ws, s1) /\
    length ws = 2%nat /\ getChildren 0%nat s1 = (Ok ws, s1).
Proof.
  destruct (getChildren_again_same_wrappers sampleWrapped 0%nat 0%nat
              sampleWrapped_consistent eq_refl)
    as (ws & s1 & Hrun & Hall & _ & _ & Hagain).
  exists ws, s1. split; [exact Hrun|]. split; [|exact Hagain].
  symmetry. exact (Forall2_length _ _ _ Hall).
Defined.

(** ** The child at a position *)

Lemma find_split {A : Type} (f : A -> bool) (l : list A) (x : A) :
  find f l = Some x ->
  exists l1 l2, l = (l1 ++ x :: l2)%list /\ f x = true /\ forall y, In y l1 -> f y = false.
Proof.
  induction l as [|a l IH]; simpl; [discriminate|].
  destruct (f a) eqn:Hfa.
  - intros [= ->]. exists [], l. by repeat split.
  - intros Hfind. destruct (IH Hfind) as (l1 & l2 & -> & Hfx & Hl1).
    exists (a :: l1), l2. repeat split; [done|]. intros y [<-|Hy]; [done | by apply Hl1].
Qed.

Lemma find_none_all {A : Type} (f : A -> bool) (l : list A) :
  find f l = None -> forall y, In y l -> f y = false.
Proof. intros Hfind y Hy. exact (find_none f l Hfind y Hy). Qed.

(** X8. [getChildAtPos(pos)] returns [undefined] without wrapping any child
    when [pos] is outside [pos, end) of the node; otherwise it returns the
    wrapper of the first child whose [pos, end) holds the position, or
    [undefined] if no child does. *)
Theorem getChildAtPos_first_child_holding_pos (s : State) (this : wid) (c : cnid) (pos : Z)
    (Hconsistent : consistent s) (Hlive : sourceFilesLive s) (Hbound : bound s this c) :
  exists r s1, getChildAtPos this pos s = (Ok r, s1) /\
    consistent s1 /\ nodes s1 = nodes s /\
    (forall w k, bound s w k -> bound s1 w k) /\
    (~ containsPos (nodes s) c pos -> r = None /\ s1 = s) /\
    (forall wk, r = Some wk ->
       exists k before after, bound s1 wk k /\
         ts.getChildren (nodes s c) = (before ++ k :: after)%list /\
         containsPos (nodes s) k pos /\
         forall k', In k' before -> ~ containsPos (nodes s) k' pos) /\
    (r = None -> containsPos (nodes s) c pos ->
       forall k, In k (ts.getChildren (nodes s c)) -> ~ containsPos (nodes s) k pos).
Proof.
  destruct (getChildAtPos_childAtPos this c pos s Hconsistent Hlive Hbound)
    as (r & s1 & Hrun & Hcons1 & _ & Hn & Hext & Hr).
  exists r, s1. split; [done|]. split; [done|]. split; [done|]. split; [done|].
  split; [|split].
  - intros Hout.
    assert (Hdirect : getChildAtPos this pos s = (Ok None, s)).
    { unfold getChildAtPos. unfold bind at 1. rewrite (getPos_bound _ _ _ Hbound).
      destruct (pos <? ts.pos (nodes s c)) eqn:Hlt; [done|].
      unfold bind at 1. rewrite (getEnd_bound _ _ _ Hbound).
      destruct (pos >=? ts.end_ (nodes s c)) eqn:Hge; [done|].
      destruct Hout. unfold containsPos. lia. }
    rewrite Hdirect in Hrun. by injection Hrun as <- <-.
  - intros wk ->. unfold childAtPos in Hr.
    destruct (pos <? ts.pos (nodes s c)); [discriminate|].
    destruct (pos >=? ts.end_ (nodes s c)); [discriminate|].
    destruct (find _ _) as [k|] eqn:Hfind; [|discriminate].
    destruct Hr as (wk' & [= <-] & Hbk).
    destruct (find_split _ _ _ Hfind) as (before & after & Hsplit & Hk & Hbefore).
    exists k, before, after. split; [done|]. split; [done|].
    split; [by apply containsPosb_true|].
    intros k' Hk' Hin. apply containsPosb_true in Hin. by rewrite (Hbefore _ Hk') in Hin.
  - intros -> Hin k Hk Hkpos. rewrite (childAtPos_inside _ _ _ Hin) in Hr.
    destruct (find _ _) as [k'|] eqn:Hfind; [by destruct Hr as (? & ? & _)|].
    apply containsPosb_true in Hkpos. by rewrite (find_none_all _ _ Hfind k Hk) in Hkpos.
Qed.

Lemma getChildAtPos_first_child_holding_pos_witness :
  exists r s1, getChildAtPos 0%nat 9 sampleWrapped = (Ok r, s1) /\
    r = None /\ s1 = sampleWrapped.
Proof.
  destruct (getChildAtPos_first_child_holding_pos sampleWrapped 0%nat 0%nat 9
              sampleWrapped_consistent sampleWrapped_sourceFilesLive eq_refl)
    as (r & s1 & Hrun & _ & _ & _ & Hout & _).
  exists r, s1. split; [exact Hrun|]. apply Hout.
  unfold containsPos. cbn. lia.
Defined.

(** ** A node without a parent *)

(** X9. On a live wrapper of a node without a parent (a source file):
    [getParent()] is [undefined], there is no ancestor, [getParentWhile]
    and [getParentIfKind] find nothing and the node is in no syntax list;
    [getParentOrThrow()] and the sibling queries [getPreviousSiblings()],
    [getNextSiblings()] and [getChildIndex()] throw the
    InvalidOperationError [A parent is required to do this operation.];
    none of them changes the state. *)
Theorem parentless_node_queries (s : State) (this : wid) (c : cnid) (fuel : nat)
    (condition : wid -> M bool) (kind : ts.SyntaxKind)
    (Hbound : bound s this c) (Hroot : ts.parent (nodes s c) = None) :
  let noParent :=
    InvalidOperationError "A parent is required to do this operation." in
  getParent this s = (Ok None, s) /\
  getAncestors fuel this s = (Ok [], s) /\
  getParentWhile fuel this condition s = (Ok None, s) /\
  getParentIfKind this kind s = (Ok None, s) /\
  getFirstAncestorByKind fuel this kind s = (Ok None, s) /\
  getParentSyntaxList this s = (Ok None, s) /\
  isInSyntaxList this s = (Ok false, s) /\
  getParentOrThrow this s = (Throw noParent, s) /\
  getPreviousSiblings this s = (Throw noParent, s) /\
  getNextSiblings this s = (Throw noParent, s) /\
  getChildIndex this s = (Throw noParent, s) /\
  isInvalidOperation noParent = true.
Proof.
  intros noParent.
  assert (Hparent : getParent this s = (Ok None, s)).
  { unfold getParent, tsGet, bind. by rewrite (compilerNode_bound _ _ _ Hbound), Hroot. }
  assert (Hancestors : getAncestors fuel this s = (Ok [], s)).
  { unfold getAncestors, bind. rewrite Hparent. by destruct fuel. }
  assert (Hlist : getParentSyntaxList this s = (Ok None, s)).
  { unfold getParentSyntaxList, bind. by rewrite Hparent. }
  assert (Hthrow : getParentOrThrow this s = (Throw noParent, s)).
  { unfold getParentOrThrow, bind. by rewrite Hparent. }
  assert (Hcontainer : getSiblingContainer this s = (Throw noParent, s)).
  { unfold getSiblingContainer, bind at 1. by rewrite Hlist. }
  split; [done|]. split; [done|].
  split. { unfold getParentWhile, bind. rewrite Hparent. by destruct fuel. }
  split. { unfold getParentIfKind, bind. by rewrite Hparent. }
  split. { unfold getFirstAncestorByKind, bind. by rewrite Hancestors. }
  split; [done|].
  split. { unfold isInSyntaxList, bind. by rewrite Hlist. }
  split; [done|].
  split. { unfold getPreviousSiblings, bind at 1. by rewrite Hcontainer. }
  split. { unfold getNextSiblings, bind at 1. by rewrite Hcontainer. }
  split. { unfold getChildIndex, bind at 1. by rewrite Hcontainer. }
  done.
Qed.

Lemma parentless_node_queries_witness :
  getParent 0%nat sampleFresh = (Ok None, sampleFresh) /\
  getPreviousSiblings 0%nat sampleFresh
    = (Throw (InvalidOperationError "A parent is required to do this operation."),
       sampleFresh).
Proof.
  destruct (parentless_node_queries sampleFresh 0%nat 0%nat 3 noCondition ts.SyntaxList
              eq_refl eq_refl)
    as (Hparent & _ & _ & _ & _ & _ & _ & _ & Hprevious & _).
  split; [exact Hparent | exact Hprevious].
Defined.

(** ** The parent syntax list *)

Lemma parentSyntaxList_loop_Some (nodes : cnid -> ts.Node) (c l : cnid) (ks : list cnid) :
  parentSyntaxList_loop nodes c ks = Some l ->
  exists before after, ks = (before ++ l :: after)%list /\
    ts.kind (nodes l) = ts.SyntaxList /\
    ts.pos (nodes l) <= ts.pos (nodes c) /\ ts.end_ (nodes c) <= ts.end_ (nodes l) /\
    l <> c /\
    forall k, In k before -> ts.pos (nodes k) <= ts.pos (nodes c) /\ k <> c.
Proof.
  induction ks as [|k ks IH]; simpl; [discriminate|].
  destruct (ts.pos (nodes k) >? ts.pos (nodes c)) eqn:Hgt; simpl; [discriminate|].
  destruct (Nat.eqb_spec k c) as [->|Hkc]; [discriminate|].
  destruct (bool_decide (ts.kind (nodes k) = ts.SyntaxList)) eqn:Hkind; simpl.
  - destruct (ts.pos (nodes k) <=? ts.pos (nodes c)) eqn:Hle; simpl.
    + destruct (ts.end_ (nodes k) >=? ts.end_ (nodes c)) eqn:Hge; simpl.
      * intros [= <-]. exists [], ks. apply bool_decide_eq_true_1 in Hkind.
        split; [done|]. split; [done|]. split; [lia|]. split; [lia|].
        split; [done | intros ? []].
      * intros Hrest. destruct (IH Hrest) as (before & after & -> & Hl).
        exists (k :: before), after. split; [done|].
        destruct Hl as (? & ? & ? & ? & Hbefore).
        split; [done|]. split; [done|]. split; [done|]. split; [done|].
        intros k' [<-|Hk']; [split; [lia | done] | by apply Hbefore].
    + lia.
  - intros Hrest. destruct (IH Hrest) as (before & after & -> & Hl).
    exists (k :: before), after. split; [done|].
    destruct Hl as (? & ? & ? & ? & Hbefore).
    split; [done|]. split; [done|]. split; [done|]. split; [done|].
    intros k' [<-|Hk']; [split; [lia | done] | by apply Hbefore].
Qed.

(** X10. [getParentSyntaxList()] on a live wrapper returns; what it returns
    is [undefined] or a wrapper, other than [this], of a child of the parent
    that has kind SyntaxList, starts at or before the node and ends at or
    after it, every child before it starting at or before the node.
    [isInSyntaxList()] and [getParentSyntaxListOrThrow()] agree with it. *)
Theorem getParentSyntaxList_spanning_list (s : State) (this : wid) (c : cnid)
    (Hconsistent : consistent s) (Hlive : sourceFilesLive s) (Hbound : bound s this c) :
  exists r s1, getParentSyntaxList this s = (Ok r, s1) /\
    consistent s1 /\ nodes s1 = nodes s /\
    (forall w k, bound s w k -> bound s1 w k) /\
    (forall wl, r = Some wl ->
       wl <> this /\
       isInSyntaxList this s = (Ok true, s1) /\
       getParentSyntaxListOrThrow this s = (Ok wl, s1) /\
       exists l p before after, bound s1 wl l /\
         ts.parent (nodes s c) = Some p /\
         ts.getChildren (nodes s p) = (before ++ l :: after)%list /\
         ts.kind (nodes s l) = ts.SyntaxList /\
         ts.pos (nodes s l) <= ts.pos (nodes s c) /\
         ts.end_ (nodes s c) <= ts.end_ (nodes s l) /\
         forall k, In k before -> ts.pos (nodes s k) <= ts.pos (nodes s c)) /\
    (r = None ->
       isInSyntaxList this s = (Ok false, s1) /\
       getParentSyntaxListOrThrow this s =
         (Throw (InvalidOperationError "Expected the parent to be a syntax list."), s1)).
Proof.
  destruct (getParentSyntaxList_live s this c Hconsistent Hlive Hbound)
    as (r & s1 & Hrun & Hcons1 & _ & [Hn Hext] & Hr).
  exists r, s1. split; [done|]. split; [done|]. split; [done|]. split; [done|]. split.
  - intros wl ->. unfold parentSyntaxList in Hr.
    destruct (ts.parent (nodes s c)) as [p|] eqn:Hp; [|discriminate].
    destruct (parentSyntaxList_loop _ _ _) as [l|] eqn:Hloop; [|discriminate].
    destruct Hr as (wl' & [= <-] & Hwl).
    destruct (parentSyntaxList_loop_Some _ _ _ _ Hloop)
      as (before & after & Hsplit & Hkind & Hpos & Hend & Hne & Hbefore).
    split. { intros ->. apply Hne. pose proof (Hext _ _ Hbound). unfold bound in *. congruence. }
    split. { unfold isInSyntaxList, bind. by rewrite Hrun. }
    split. { unfold getParentSyntaxListOrThrow, bind. by rewrite Hrun. }
    exists l, p, before, after. split; [done|]. split; [done|]. split; [done|].
    split; [done|]. split; [done|]. split; [done|]. intros k Hk. by apply Hbefore.
  - intros ->. split.
    + unfold isInSyntaxList, bind. by rewrite Hrun.
    + unfold getParentSyntaxListOrThrow, bind. by rewrite Hrun.
Qed.

Lemma getParentSyntaxList_spanning_list_witness :
  exists r s1, getParentSyntaxList 1%nat sampleWrapped = (Ok r, s1) /\
    forall wl, r = Some wl -> wl <> 1%nat.
Proof.
  destruct (getParentSyntaxList_spanning_list sampleWrapped 1%nat 5%nat
              sampleWrapped_consistent sampleWrapped_sourceFilesLive eq_refl)
    as (r & s1 & Hrun & _ & _ & _ & Hsome & _).
  exists r, s1. split; [exact Hrun|]. intros wl Hwl. exact (proj1 (Hsome wl Hwl)).
Defined.

(** ** The index of a child *)


Lemma getChildIndex_loop_missing (s : State) (this : wid) (c : cnid)
    (ks : list cnid) (ws : list wid) (i : nat) :
  consistent s -> bound s this c -> ~ In c ks ->
  Forall2 (fun k w => bound s w k) ks ws ->
  getChildIndex_loop this ws i s =
    (Throw (NotImplementedError
              "For some reason the child's parent did not contain the child."), s).
Proof.
  intros Hcons Hthis Hnotin Hall. revert i.
  induction Hall as [|k w ks ws Hw Hall IH]; intros i; [done|]. simpl.
  rewrite (same_wrapper_same_node s w this k c Hcons Hw Hthis).
  destruct (Nat.eqb_spec k c) as [->|Hkc]; [destruct Hnotin; by left|].
  apply IH. intros Hin. apply Hnotin. by right.
Qed.



(** X12. When the node the siblings are taken from does not hold the node
    among its children, [getChildIndex()] throws the NotImplementedError
    [For some reason the child's parent did not contain the child.]; this
    happens for the end-of-file token of a file that ends with its last
    statement. *)
Theorem getChildIndex_outside_container_throws (s : State) (this : wid) (c p : cnid)
    (Hconsistent : consistent s) (Hlive : sourceFilesLive s) (Hbound : bound s this c)
    (Hcontainer : siblingContainer (nodes s) c = Some p)
    (Hmissing : ~ In c (ts.getChildren (nodes s p))) :
  exists s', getChildIndex this s =
    (Throw (NotImplementedError
              "For some reason the child's parent did not contain the child."), s') /\
    consistent s' /\ nodes s' = nodes s /\ bound s' this c.
Proof.
  destruct (getSiblingContainer_live s this c p Hconsistent Hlive Hbound Hcontainer)
    as (wp & s1 & Hwp & Hcons1 & Hlive1 & Hext1 & Hbp).
  destruct (getChildren_live s1 wp p Hcons1 Hlive1 Hbp)
    as (ws & s2 & Hws & Hcons2 & Hlive2 & Hext2 & Hall).
  rewrite (proj1 Hext1) in Hall.
  pose proof (extends_trans _ _ _ Hext1 Hext2) as Hext02.
  pose proof (proj2 Hext02 _ _ Hbound) as Hthis2.
  exists s2. split.
  - unfold getChildIndex, bind. rewrite Hwp, Hws.
    by apply (getChildIndex_loop_missing s2 this c (ts.getChildren (nodes s p))).
  - split; [done|]. split; [exact (proj1 Hext02) | done].
Qed.

Lemma getChildIndex_outside_container_throws_witness :
  ts.kind (nodes sampleWrapped 8%nat) = ts.EndOfFileToken /\
  exists s', getChildIndex 2%nat sampleWrapped =
    (Throw (NotImplementedError
              "For some reason the child's parent did not contain the child."), s').
Proof.
  split; [reflexivity|].
  destruct (getChildIndex_outside_container_throws sampleWrapped 2%nat 8%nat 1%nat
              sampleWrapped_consistent sampleWrapped_sourceFilesLive eq_refl eq_refl)
    as (s' & Hthrow & _).
  { intros [Heq|[Heq|[]]]; discriminate Heq. }
  exists s'. exact Hthrow.
Defined.

(** ** Conditions that read the node *)

Lemma isKind_reads (kind : ts.SyntaxKind) : readsNode (isKind kind) (hasKind kind).
Proof.
  intros s w k Hb. unfold isKind, bind. by rewrite (getKind_bound _ _ _ Hb).
Qed.

Lemma noCondition_reads : readsNode noCondition (fun _ _ => true).
Proof. by intros s w k Hb. Qed.

Lemma findM_reads (condition : wid -> M bool) (p : (cnid -> ts.Node) -> cnid -> bool)
    (s : State) (ks : list cnid) (ws : list wid) :
  readsNode condition p ->
  Forall2 (fun k w => bound s w k) ks ws ->
  exists r, findM condition ws s = (Ok r, s) /\
    match find (p (nodes s)) ks with
    | Some k => exists w, r = Some w /\ bound s w k
    | None => r = None
    end.
Proof.
  intros Hreads. induction 1 as [|k w ks ws Hw Hall IH]; simpl; [by exists None|].
  unfold bind. rewrite (Hreads _ _ _ Hw).
  destruct (p (nodes s) k); [|exact IH]. exists (Some w). split; [done | by exists w].
Qed.

Lemma filterM_reads (condition : wid -> M bool) (p : (cnid -> ts.Node) -> cnid -> bool)
    (s : State) (ks : list cnid) (ws : list wid) :
  readsNode condition p ->
  Forall2 (fun k w => bound s w k) ks ws ->
  exists kept, filterM condition ws s = (Ok kept, s) /\
    Forall2 (fun k w => bound s w k) (List.filter (p (nodes s)) ks) kept.
Proof.
  intros Hreads. induction 1 as [|k w ks ws Hw Hall IH]; simpl.
  - exists []. split; [done | constructor].
  - destruct IH as (kept & Hkept & Hall'). unfold bind. rewrite (Hreads _ _ _ Hw), Hkept.
    destruct (p (nodes s) k).
    + exists (w :: kept). split; [done | by constructor].
    + by exists kept.
Qed.

Lemma ifKind_bound (s : State) (kind : ts.SyntaxKind) (w : wid) (k : cnid) :
  bound s w k ->
  ifKind kind (Some w) s = (Ok (if hasKind kind (nodes s) k then Some w else None), s).
Proof.
  intros Hb. unfold ifKind, hasKind, bind. rewrite (getKind_bound _ _ _ Hb).
  by destruct (bool_decide _).
Qed.

(** ** The nearest siblings *)





(** ** The first and the last child *)

Lemma getFirstChild_loop_reads (condition : wid -> M bool)
    (test : (cnid -> ts.Node) -> cnid -> bool) (this : wid) (c : cnid)
    (pending : list cnid) (s : State) :
  readsNode condition test ->
  consistent s -> sourceFilesLive s -> bound s this c ->
  exists r s1, getFirstChild_loop this condition pending s = (Ok r, s1) /\
    consistent s1 /\ sourceFilesLive s1 /\ extends s s1 /\
    ((exists before m after w,
        pending = (before ++ m :: after)%list /\ test (nodes s) m = true /\
        (forall k, In k before -> test (nodes s) k = false) /\
        r = Some w /\ bound s1 w m /\ created (before ++ [m]) s s1) \/
     (r = None /\ (forall k, In k pending -> test (nodes s) k = false) /\
      created pending s s1)).
Proof.
  intros Hreads. revert s. induction pending as [|k pending IH]; intros s Hcons Hlive Hthis.
  - exists None, s. split; [done|]. split; [done|]. split; [done|].
    split; [apply extends_refl|]. right. split; [done|]. split; [intros ? []|apply created_refl].
  - destruct (wrapChild_live s this c k Hcons Hlive Hthis)
      as (w & s1 & Hw & Hcr1 & Hcons1 & Hlive1 & Hbw).
    pose proof (created_extends _ _ _ Hcr1) as Hext1.
    simpl. unfold bind at 1. rewrite Hw. unfold bind at 1. rewrite (Hreads _ _ _ Hbw).
    rewrite (proj1 Hext1). destruct (test (nodes s) k) eqn:Hk.
    + exists (Some w), s1. split; [done|]. split; [done|]. split; [done|]. split; [done|].
      left. exists [], k, pending, w. split; [done|]. split; [done|].
      split; [intros ? []|]. split; [done|]. split; [done | exact Hcr1].
    + destruct (IH s1 Hcons1 Hlive1 (proj2 Hext1 _ _ Hthis))
        as (r & s2 & Hloop & Hcons2 & Hlive2 & Hext2 & Hr).
      exists r, s2. split; [done|]. split; [done|]. split; [done|].
      split; [by eapply extends_trans|]. rewrite (proj1 Hext1) in Hr.
      destruct Hr as [(before & m & after & w' & -> & Hm & Hbefore & -> & Hbm & Hcr2)
                     |(-> & Hnone & Hcr2)].
      * left. exists (k :: before), m, after, w'. split; [done|]. split; [done|].
        split; [intros k' [<-|Hk']; [done | by apply Hbefore]|].
        split; [done|]. split; [done|].
        exact (created_trans [k] (before ++ [m]) _ _ _ Hcr1 Hcr2).
      * right. split; [done|]. split.
        -- intros k' [<-|Hk']; [done | by apply Hnone].
        -- exact (created_trans [k] pending _ _ _ Hcr1 Hcr2).
Qed.

(** X15. [getFirstChild(condition)], and so [getFirstChildByKind(kind)],
    returns the wrapper of the first child that passes the condition, or
    [undefined] if none does; it stops at the match, leaving the cache
    entries of the children after it as they were. *)
Theorem getFirstChild_first_match (s : State) (this : wid) (c : cnid)
    (condition : wid -> M bool) (test : (cnid -> ts.Node) -> cnid -> bool)
    (Hconsistent : consistent s) (Hlive : sourceFilesLive s) (Hbound : bound s this c)
    (Hreads : readsNode condition test) :
  exists r s1, getFirstChild this condition s = (Ok r, s1) /\
    consistent s1 /\ nodes s1 = nodes s /\
    (forall w k, bound s w k -> bound s1 w k) /\
    ((exists before m after w,
        ts.getChildren (nodes s c) = (before ++ m :: after)%list /\
        test (nodes s) m = true /\
        (forall k, In k before -> test (nodes s) k = false) /\
        r = Some w /\ bound s1 w m /\
        (forall k, ~ In k before -> k <> m -> nodeCache s1 !! k = nodeCache s !! k)) \/
     (r = None /\
      forall k, In k (ts.getChildren (nodes s c)) -> test (nodes s) k = false)).
Proof.
  destruct (getFirstChild_loop_reads condition test this c (ts.getChildren (nodes s c)) s
              Hreads Hconsistent Hlive Hbound)
    as (r & s1 & Hloop & Hcons1 & _ & [Hn Hext] & Hr).
  exists r, s1. split.
  { unfold getFirstChild, bind. by rewrite (getChildrenIterator_live _ _ _ Hlive Hbound). }
  split; [done|]. split; [done|]. split; [done|].
  destruct Hr as [(before & m & after & w & Hsplit & Hm & Hbefore & -> & Hbm & Hcr)
                 |(-> & Hnone & _)].
  - left. exists before, m, after, w. split; [done|]. split; [done|].
    split; [done|]. split; [done|]. split; [done|].
    intros k Hk Hkm. destruct Hcr as (_ & _ & Hframe & _). apply Hframe.
    rewrite elem_of_app, list_elem_of_singleton, list_elem_of_In. tauto.
  - right. by split.
Qed.

Lemma getFirstChild_first_match_witness :
  exists r s1, getFirstChildByKind 0%nat ts.EndOfFileToken sampleWrapped = (Ok r, s1) /\
    exists w, r = Some w /\ bound s1 w 8%nat.
Proof.
  destruct (getFirstChild_first_match sampleWrapped 0%nat 0%nat
              (isKind ts.EndOfFileToken) (hasKind ts.EndOfFileToken)
              sampleWrapped_consistent sampleWrapped_sourceFilesLive eq_refl
              (isKind_reads ts.EndOfFileToken))
    as (r & s1 & Hrun & _ & _ & _ & Hr).
  exists r, s1. split; [exact Hrun|].
  destruct Hr as [(before & m & after & w & Hsplit & Hm & Hbefore & -> & Hbm & _)
                 |(_ & Hnone)].
  - exists w. split; [reflexivity|].
    destruct before as [|k1 [|k2 before]].
    + injection Hsplit as <- _. discriminate (Hm).
    + injection Hsplit as _ <- _. exact Hbm.
    + injection Hsplit as _ _ Hnil. by destruct before.
  - specialize (Hnone 8%nat (or_intror (or_introl eq_refl))). discriminate Hnone.
Defined.

(** X16. [getLastChild(condition)], and so [getLastChildByKind(kind)],
    wraps every child and returns the wrapper of the last child that passes
    the condition, or [undefined] if none does. *)
Theorem getLastChild_last_match (s : State) (this : wid) (c : cnid)
    (condition : wid -> M bool) (test : (cnid -> ts.Node) -> cnid -> bool)
    (Hconsistent : consistent s) (Hlive : sourceFilesLive s) (Hbound : bound s this c)
    (Hreads : readsNode condition test) :
  exists r s1, getLastChild this condition s = (Ok r, s1) /\
    consistent s1 /\ nodes s1 = nodes s /\
    (forall w k, bound s w k -> bound s1 w k) /\
    (forall k, In k (ts.getChildren (nodes s c)) -> exists w, bound s1 w k) /\
    ((exists before m after w,
        ts.getChildren (nodes s c) = (before ++ m :: after)%list /\
        test (nodes s) m = true /\
        (forall k, In k after -> test (nodes s) k = false) /\
        r = Some w /\ bound s1 w m) \/
     (r = None /\
      forall k, In k (ts.getChildren (nodes s c)) -> test (nodes s) k = false)).
Proof.
  destruct (getChildren_live s this c Hconsistent Hlive Hbound)
    as (ws & s1 & Hws & Hcons1 & _ & [Hn Hext] & Hall).
  destruct (findM_reads condition test s1 _ _ Hreads (Forall2_rev _ _ _ Hall))
    as (r & Hfind & Hr).
  exists r, s1. split. { unfold getLastChild, bind. by rewrite Hws. }
  split; [done|]. split; [done|]. split; [done|]. split.
  { intros k Hk. apply list_elem_of_In, list_elem_of_lookup in Hk as [i Hi].
    destruct (Forall2_lookup_l _ _ _ _ _ Hall Hi) as (w & _ & Hw). by exists w. }
  rewrite Hn in Hr. destruct (find _ _) as [m|] eqn:Hfound.
  - destruct Hr as (w & -> & Hbm).
    destruct (find_split _ _ _ Hfound) as (l1 & l2 & Hsplit & Hm & Hl1).
    left. exists (rev l2), m, (rev l1), w.
    split. { rewrite <- (rev_involutive (ts.getChildren (nodes s c))), Hsplit.
             rewrite rev_app_distr. simpl. by rewrite <- app_assoc. }
    split; [done|]. split; [|done].
    intros k Hk. apply Hl1. by apply in_rev.
  - subst r. right. split; [done|]. intros k Hk.
    apply (find_none_all _ _ Hfound). by apply in_rev in Hk.
Qed.

Lemma getLastChild_last_match_witness :
  exists r s1, getLastChildByKind 1%nat (ts.OtherKind 2) sampleWrapped = (Ok r, s1) /\
    exists w, r = Some w /\ bound s1 w 6%nat.
Proof.
  destruct (getLastChild_last_match sampleWrapped 1%nat 5%nat
              (isKind (ts.OtherKind 2)) (hasKind (ts.OtherKind 2))
              sampleWrapped_consistent sampleWrapped_sourceFilesLive eq_refl
              (isKind_reads (ts.OtherKind 2)))
    as (r & s1 & Hrun & _ & _ & _ & _ & Hr).
  exists r, s1. split; [exact Hrun|].
  destruct Hr as [(before & m & after & w & Hsplit & Hm & _ & -> & Hbm)|(_ & Hnone)].
  - exists w. split; [reflexivity|].
    destruct before as [|k1 [|k2 before]].
    + injection Hsplit as <- _. exact Hbm.
    + injection Hsplit as _ <- _. discriminate Hm.
    + injection Hsplit as _ _ Hnil. by destruct before.
  - specialize (Hnone 6%nat (or_introl eq_refl)). discriminate Hnone.
Defined.

Lemma find_true_head {A : Type} (l : list A) : find (fun _ => true) l = head l.
Proof. by destruct l. Qed.

Lemma head_rev_last {A : Type} (l : list A) : head (rev l) = last l.
Proof.
  induction l as [|a l IH] using rev_ind; [done|].
  by rewrite rev_app_distr, last_snoc.
Qed.

Lemma head_filter_find {A : Type} (f : A -> bool) (l : list A) :
  head (List.filter f l) = find f l.
Proof. induction l as [|a l IH]; simpl; [done|]. by destruct (f a). Qed.

(** X17. [getFirstChildIfKind(kind)] looks at the first child only and
    [getLastChildIfKind(kind)] at the last child only: each returns the
    wrapper of that child when its kind is [kind] and [undefined]
    otherwise, whatever the kinds of the other children. *)
Theorem childIfKind_tests_one_child (s : State) (this : wid) (c : cnid)
    (kind : ts.SyntaxKind)
    (Hconsistent : consistent s) (Hlive : sourceFilesLive s) (Hbound : bound s this c) :
  (exists r s1, getFirstChildIfKind this kind s = (Ok r, s1) /\
     match head (ts.getChildren (nodes s c)) with
     | Some k =>
         if hasKind kind (nodes s) k then exists w, r = Some w /\ bound s1 w k
         else r = None
     | None => r = None
     end) /\
  (exists r s1, getLastChildIfKind this kind s = (Ok r, s1) /\
     match last (ts.getChildren (nodes s c)) with
     | Some k =>
         if hasKind kind (nodes s) k then exists w, r = Some w /\ bound s1 w k
         else r = None
     | None => r = None
     end).
Proof.
  split.
  - destruct (getFirstChild_loop_reads noCondition (fun _ _ => true) this c
                (ts.getChildren (nodes s c)) s noCondition_reads Hconsistent Hlive Hbound)
      as (r0 & s1 & Hloop & _ & _ & [Hn _] & Hr0).
    assert (Hfirst : getFirstChild this noCondition s = (Ok r0, s1)).
    { unfold getFirstChild, bind. by rewrite (getChildrenIterator_live _ _ _ Hlive Hbound). }
    destruct Hr0 as [(before & m & after & w & Hsplit & _ & Hbefore & -> & Hbm & _)
                    |(-> & Hnone & _)].
    + destruct before as [|k before]; [|by specialize (Hbefore k (or_introl eq_refl))].
      rewrite Hsplit. simpl.
      eexists _, s1. split.
      { unfold getFirstChildIfKind, bind at 1. rewrite Hfirst. apply (ifKind_bound _ _ _ _ Hbm). }
      rewrite Hn. destruct (hasKind kind (nodes s) m); [by exists w | done].
    + destruct (ts.getChildren (nodes s c)) as [|k ks];
        [|by specialize (Hnone k (or_introl eq_refl))].
      exists None, s1. split; [|done]. unfold getFirstChildIfKind, bind. by rewrite Hfirst.
  - destruct (getChildren_live s this c Hconsistent Hlive Hbound)
      as (ws & s1 & Hws & Hcons1 & _ & [Hn _] & Hall).
    destruct (findM_reads noCondition (fun _ _ => true) s1 _ _ noCondition_reads
                (Forall2_rev _ _ _ Hall)) as (r0 & Hfind & Hr0).
    assert (Hlast : getLastChild this noCondition s = (Ok r0, s1)).
    { unfold getLastChild, bind. by rewrite Hws. }
    rewrite find_true_head, head_rev_last in Hr0.
    destruct (last (ts.getChildren (nodes s c))) as [k|].
    + destruct Hr0 as (w & -> & Hbk). eexists _, s1. split.
      { unfold getLastChildIfKind, bind at 1. rewrite Hlast. apply (ifKind_bound _ _ _ _ Hbk). }
      rewrite Hn. destruct (hasKind kind (nodes s) k); [by exists w | done].
    + subst r0. exists None, s1. split; [|done].
      unfold getLastChildIfKind, bind. by rewrite Hlast.
Qed.

Lemma childIfKind_tests_one_child_witness :
  (exists r s1, getFirstChildIfKind 0%nat ts.EndOfFileToken sampleWrapped = (Ok r, s1) /\
     r = None) /\
  (exists r s1, getLastChildIfKind 0%nat ts.EndOfFileToken sampleWrapped = (Ok r, s1) /\
     exists w, r = Some w /\ bound s1 w 8%nat).
Proof.
  exact (childIfKind_tests_one_child sampleWrapped 0%nat 0%nat ts.EndOfFileToken
           sampleWrapped_consistent sampleWrapped_sourceFilesLive eq_refl).
Defined.

(** X18. [getChildrenOfKind(kind)] returns the wrappers of exactly the
    children of that kind, in the order of the children; its first element,
    if any, is what [getFirstChildByKind(kind)] returns. *)
Theorem getChildrenOfKind_filters_children (s : State) (this : wid) (c : cnid)
    (kind : ts.SyntaxKind)
    (Hconsistent : consistent s) (Hlive : sourceFilesLive s) (Hbound : bound s this c) :
  exists ws s1 s2, getChildrenOfKind this kind s = (Ok ws, s1) /\
    consistent s1 /\ nodes s1 = nodes s /\
    (forall w k, bound s w k -> bound s1 w k) /\
    Forall2 (fun k w => bound s1 w k)
      (List.filter (hasKind kind (nodes s)) (ts.getChildren (nodes s c))) ws /\
    getFirstChildByKind this kind s1 = (Ok (head ws), s2).
Proof.
  destruct (getChildren_live s this c Hconsistent Hlive Hbound)
    as (all & s1 & Hall & Hcons1 & Hlive1 & [Hn Hext] & Hbounds).
  destruct (filterM_reads (isKind kind) (hasKind kind) s1 _ _ (isKind_reads kind) Hbounds)
    as (ws & Hfilter & Hkept).
  rewrite Hn in Hkept.
  destruct (getFirstChild_loop_reads (isKind kind) (hasKind kind) this c
              (ts.getChildren (nodes s c)) s1 (isKind_reads kind) Hcons1 Hlive1
              (Hext _ _ Hbound))
    as (r & s2 & Hloop & Hcons2 & _ & Hext2 & Hr).
  exists ws, s1, s2. split. { unfold getChildrenOfKind, bind. by rewrite Hall, Hfilter. }
  split; [done|]. split; [done|]. split; [done|]. split; [done|].
  unfold getFirstChildByKind. change (fun child => _) with (isKind kind).
  unfold getFirstChild, bind.
  rewrite (getChildrenIterator_live _ _ _ Hlive1 (Hext _ _ Hbound)), Hn, Hloop.
  f_equal. f_equal.
  pose proof (Forall2_bound_extends _ _ _ _ Hext2 Hkept) as Hkept2.
  rewrite Hn in Hr.
  destruct Hr as [(before & m & after & w & Hsplit & Hm & Hbefore & -> & Hbm & _)
                 |(-> & Hnone & _)].
  - rewrite Hsplit in Hkept2. rewrite List.filter_app in Hkept2.
    assert (Hnil : List.filter (hasKind kind (nodes s)) before = []).
    { clear -Hbefore. induction before as [|k before IH]; [done|]. simpl.
      rewrite (Hbefore k (or_introl eq_refl)). apply IH. intros k' Hk'. apply Hbefore. by right. }
    rewrite Hnil in Hkept2. simpl in Hkept2. rewrite Hm in Hkept2.
    apply Forall2_cons_inv_l in Hkept2 as (w' & ws' & Hw' & _ & ->). simpl.
    f_equal. by eapply consistent_unique.
  - assert (Hnil : List.filter (hasKind kind (nodes s)) (ts.getChildren (nodes s c)) = []).
    { clear -Hnone. induction (ts.getChildren (nodes s c)) as [|k ks IH]; [done|]. simpl.
      rewrite (Hnone k (or_introl eq_refl)). apply IH. intros k' Hk'. apply Hnone. by right. }
    rewrite Hnil in Hkept2. by apply Forall2_nil_inv_l in Hkept2 as ->.
Qed.

Lemma getChildrenOfKind_filters_children_witness :
  exists ws s1, getChildrenOfKind 0%nat ts.EndOfFileToken sampleWrapped = (Ok ws, s1) /\
    Forall2 (fun k w => bound s1 w k) [8%nat] ws.
Proof.
  destruct (getChildrenOfKind_filters_children sampleWrapped 0%nat 0%nat ts.EndOfFileToken
              sampleWrapped_consistent sampleWrapped_sourceFilesLive eq_refl)
    as (ws & s1 & s2 & Hrun & _ & _ & _ & Hall & _).
  exists ws, s1. split; [exact Hrun | exact Hall].
Defined.

(** ** The descendants of a node *)

Lemma find_app_first {A : Type} (f : A -> bool) (l1 l2 : list A) :
  find f (l1 ++ l2) = match find f l1 with Some x => Some x | None => find f l2 end.
Proof. induction l1 as [|a l1 IH]; simpl; [done|]. by destruct (f a). Qed.

Lemma find_all_false {A : Type} (f : A -> bool) (l : list A) :
  (forall y, In y l -> f y = false) -> find f l = None.
Proof.
  induction l as [|a l IH]; intros Hall; [done|]. cbn [find].
  rewrite (Hall a (or_introl eq_refl)). apply IH. intros y Hy. apply Hall. by right.
Qed.

Lemma getDescendants_children_subtrees (fuel : nat) (ts : list Tree) (this : wid) (c : cnid)
    (s : State) :
  Forall (collectsDescendants fuel) ts ->
  Forall (fun t => shape (nodes s) t = true) ts ->
  Forall (fun t => (height t <= fuel)%nat) ts ->
  consistent s -> sourceFilesLive s -> bound s this c ->
  exists ws s1,
    getDescendants_children (getDescendants fuel) this (map rootOf ts) s = (Ok ws, s1) /\
    consistent s1 /\ sourceFilesLive s1 /\ extends s s1 /\
    Forall2 (fun k w' => bound s1 w' k) (concat (map ids ts)) ws.
Proof.
  revert s. induction ts as [|t ts IH]; intros s HP Hshape Hfuel Hcons Hlive Hthis.
  - exists [], s. split; [done|]. split; [done|]. split; [done|].
    split; [apply extends_refl | constructor].
  - apply Forall_cons_iff in HP as [HPt HPts]. apply Forall_cons_iff in Hshape as [Hst Hsts].
    apply Forall_cons_iff in Hfuel as [Hft Hfts].
    destruct (wrapChild_live s this c (rootOf t) Hcons Hlive Hthis)
      as (w & s1 & Hw & Hcr1 & Hcons1 & Hlive1 & Hbw).
    pose proof (created_extends _ _ _ Hcr1) as Hext1.
    destruct (HPt s1 w) as (inner & s2 & Hinner & Hcons2 & Hlive2 & Hext2 & Hall2);
      try done.
    { by rewrite (proj1 Hext1). }
    pose proof (extends_trans _ _ _ Hext1 Hext2) as Hext02.
    destruct (IH s2) as (others & s3 & Hothers & Hcons3 & Hlive3 & Hext3 & Hall3); try done.
    { eapply Forall_impl; [exact Hsts|]. intros t' Ht'. by rewrite (proj1 Hext02). }
    { by apply Hext02. }
    exists (w :: inner ++ others)%list, s3. split.
    { simpl. unfold bind. by rewrite Hw, Hinner, Hothers. }
    split; [done|]. split; [done|]. split; [by eapply extends_trans|].
    simpl. rewrite ids_root_descendants. simpl. constructor.
    + apply Hext3, Hext2, Hbw.
    + apply Forall2_app; [|done]. by eapply Forall2_bound_extends.
Qed.

Lemma getDescendants_subtree (t : Tree) : forall fuel, collectsDescendants fuel t.
Proof.
  induction t as [r ts IH] using Tree_ind.
  intros [|fuel] s w Hshape Hfuel Hcons Hlive Hb; [simpl in Hfuel; lia|].
  apply shape_children in Hshape as [Hchildren Hshapes].
  destruct (getDescendants_children_subtrees fuel ts w r s)
    as (ws & s1 & Hws & Hrest); try done.
  { eapply Forall_impl; [exact IH|]. intros t Ht. apply Ht. }
  { by apply (subtree_heights r). }
  exists ws, s1. split; [|done]. cbn [getDescendants]. unfold bind.
  by rewrite (getChildrenIterator_live s w r Hlive Hb), Hchildren, Hws.
Qed.

(** X19. On a live wrapper of the root of a tree of compiler nodes,
    [getDescendants()] returns, with enough fuel, one wrapper for each node
    below the root, in preorder (a node before its children, siblings in
    order), and [getDescendantsOfKind(kind)] those of them that have the
    kind, in the same order. *)
Theorem getDescendants_preorder (s : State) (w : wid) (t : Tree) (fuel : nat)
    (kind : ts.SyntaxKind)
    (Hconsistent : consistent s) (Hlive : sourceFilesLive s)
    (Hbound : bound s w (rootOf t)) (Hshape : shape (nodes s) t = true)
    (Hfuel : (height t <= fuel)%nat) :
  exists ws ofKind s1,
    getDescendants fuel w s = (Ok ws, s1) /\
    Forall2 (fun k w' => bound s1 w' k) (descendantsOf t) ws /\
    getDescendantsOfKind fuel w kind s = (Ok ofKind, s1) /\
    Forall2 (fun k w' => bound s1 w' k)
      (List.filter (hasKind kind (nodes s)) (descendantsOf t)) ofKind /\
    consistent s1 /\ nodes s1 = nodes s /\
    (forall w' k, bound s w' k -> bound s1 w' k).
Proof.
  destruct (getDescendants_subtree t fuel s w Hshape Hfuel Hconsistent Hlive Hbound)
    as (ws & s1 & Hws & Hcons1 & _ & [Hn Hext] & Hall).
  destruct (filterM_reads (isKind kind) (hasKind kind) s1 _ _ (isKind_reads kind) Hall)
    as (ofKind & Hfilter & Hkept).
  exists ws, ofKind, s1. split; [done|]. split; [done|].
  split. { unfold getDescendantsOfKind, bind. by rewrite Hws, Hfilter. }
  split; [by rewrite Hn in Hkept|]. done.
Qed.

Lemma sampleTree_shape : shape (nodes sampleFresh) sampleTree = true.
Proof. reflexivity. Qed.

Lemma getDescendants_preorder_witness :
  exists ws ofKind s1,
    getDescendants 4 0%nat sampleFresh = (Ok ws, s1) /\
    Forall2 (fun k w' => bound s1 w' k) [1; 2; 3; 4; 5; 6; 7; 8]%nat ws /\
    getDescendantsOfKind 4 0%nat (ts.OtherKind 1) sampleFresh = (Ok ofKind, s1) /\
    Forall2 (fun k w' => bound s1 w' k) [2; 5]%nat ofKind.
Proof.
  destruct (getDescendants_preorder sampleFresh 0%nat sampleTree 4 (ts.OtherKind 1)
              sampleFresh_consistent sampleFresh_sourceFilesLive eq_refl sampleTree_shape)
    as (ws & ofKind & s1 & Hws & Hall & HofKind & Hkept & _).
  { simpl. lia. }
  exists ws, ofKind, s1. split; [exact Hws|]. split; [exact Hall|].
  split; [exact HofKind | exact Hkept].
Defined.

Lemma getFirstDescendant_children_subtrees (condition : wid -> M bool)
    (test : (cnid -> ts.Node) -> cnid -> bool) (fuel : nat) (ts : list Tree)
    (this : wid) (c : cnid) (s : State) :
  readsNode condition test ->
  Forall (findsFirstDescendant condition test fuel) ts ->
  Forall (fun t => shape (nodes s) t = true) ts ->
  Forall (fun t => (height t <= fuel)%nat) ts ->
  consistent s -> sourceFilesLive s -> bound s this c ->
  exists r s1,
    getFirstDescendant_children (fun child => getFirstDescendant fuel child condition)
      condition this (map rootOf ts) s = (Ok r, s1) /\
    consistent s1 /\ sourceFilesLive s1 /\ extends s s1 /\
    match find (test (nodes s)) (concat (map ids ts)) with
    | Some d => exists wd, r = Some wd /\ bound s1 wd d
    | None => r = None
    end.
Proof.
  intros Hreads. revert s.
  induction ts as [|t ts IH]; intros s HP Hshape Hfuel Hcons Hlive Hthis.
  - exists None, s. split; [done|]. split; [done|]. split; [done|].
    split; [apply extends_refl | done].
  - apply Forall_cons_iff in HP as [HPt HPts]. apply Forall_cons_iff in Hshape as [Hst Hsts].
    apply Forall_cons_iff in Hfuel as [Hft Hfts].
    destruct (wrapChild_live s this c (rootOf t) Hcons Hlive Hthis)
      as (w & s1 & Hw & Hcr1 & Hcons1 & Hlive1 & Hbw).
    pose proof (created_extends _ _ _ Hcr1) as Hext1.
    simpl. unfold bind at 1. rewrite Hw. unfold bind at 1. rewrite (Hreads _ _ _ Hbw).
    rewrite (proj1 Hext1). rewrite find_app_first, ids_root_descendants. simpl.
    destruct (test (nodes s) (rootOf t)) eqn:Hroot.
    { exists (Some w), s1. split; [done|]. split; [done|]. split; [done|].
      split; [done | by exists w]. }
    destruct (HPt s1 w) as (found & s2 & Hfound & Hcons2 & Hlive2 & Hext2 & Hr2); try done.
    { by rewrite (proj1 Hext1). }
    rewrite (proj1 Hext1) in Hr2.
    pose proof (extends_trans _ _ _ Hext1 Hext2) as Hext02.
    unfold bind at 1. rewrite Hfound.
    destruct (find (test (nodes s)) (descendantsOf t)) as [d|].
    { destruct Hr2 as (wd & -> & Hbd). exists (Some wd), s2.
      split; [done|]. split; [done|]. split; [done|]. split; [done | by exists wd]. }
    subst found.
    destruct (IH s2) as (r & s3 & Hrest & Hcons3 & Hlive3 & Hext3 & Hr3); try done.
    { eapply Forall_impl; [exact Hsts|]. intros t' Ht'. by rewrite (proj1 Hext02). }
    { by apply Hext02. }
    rewrite (proj1 Hext02) in Hr3.
    exists r, s3. split; [done|]. split; [done|]. split; [done|].
    split; [by eapply extends_trans | done].
Qed.

Lemma getFirstDescendant_subtree (condition : wid -> M bool)
    (test : (cnid -> ts.Node) -> cnid -> bool) (t : Tree) :
  readsNode condition test -> forall fuel, findsFirstDescendant condition test fuel t.
Proof.
  intros Hreads. induction t as [r ts IH] using Tree_ind.
  intros [|fuel] s w Hshape Hfuel Hcons Hlive Hb; [simpl in Hfuel; lia|].
  apply shape_children in Hshape as [Hchildren Hshapes].
  destruct (getFirstDescendant_children_subtrees condition test fuel ts w r s Hreads)
    as (found & s1 & Hfound & Hrest); try done.
  { eapply Forall_impl; [exact IH|]. intros t Ht. apply Ht. }
  { by apply (subtree_heights r). }
  exists found, s1. split; [|done]. cbn [getFirstDescendant]. unfold bind.
  by rewrite (getChildrenIterator_live s w r Hlive Hb), Hchildren, Hfound.
Qed.

(** X20. On a live wrapper of the root of a tree of compiler nodes,
    [getFirstDescendant(condition)], and so [getFirstDescendantByKind(kind)],
    returns, with enough fuel, the wrapper of the first node below the root
    in preorder that passes the condition: no node before it in preorder
    passes.  It returns [undefined] exactly when no node below the root
    passes, and [getFirstDescendantOrThrow] then throws. *)
Theorem getFirstDescendant_first_in_preorder (s : State) (w : wid) (t : Tree) (fuel : nat)
    (condition : wid -> M bool) (test : (cnid -> ts.Node) -> cnid -> bool)
    (Hconsistent : consistent s) (Hlive : sourceFilesLive s)
    (Hbound : bound s w (rootOf t)) (Hshape : shape (nodes s) t = true)
    (Hfuel : (height t <= fuel)%nat) (Hreads : readsNode condition test) :
  exists r s1, getFirstDescendant fuel w condition s = (Ok r, s1) /\
    consistent s1 /\ nodes s1 = nodes s /\
    (forall w' k, bound s w' k -> bound s1 w' k) /\
    ((exists before d after wd,
        descendantsOf t = (before ++ d :: after)%list /\
        test (nodes s) d = true /\
        (forall k, In k before -> test (nodes s) k = false) /\
        r = Some wd /\ bound s1 wd d /\
        getFirstDescendantOrThrow fuel w condition s = (Ok wd, s1)) \/
     (r = None /\
      (forall k, In k (descendantsOf t) -> test (nodes s) k = false) /\
      getFirstDescendantOrThrow fuel w condition s =
        (Throw (InvalidOperationError
                  "Could not find a descendant that matched the specified condition."), s1))).
Proof.
  destruct (getFirstDescendant_subtree condition test t Hreads fuel s w Hshape Hfuel
              Hconsistent Hlive Hbound)
    as (r & s1 & Hrun & Hcons1 & _ & [Hn Hext] & Hr).
  exists r, s1. split; [done|]. split; [done|]. split; [done|]. split; [done|].
  destruct (find (test (nodes s)) (descendantsOf t)) as [d|] eqn:Hfind.
  - destruct Hr as (wd & -> & Hbd).
    destruct (find_split _ _ _ Hfind) as (before & after & Hsplit & Hd & Hbefore).
    left. exists before, d, after, wd. split; [done|]. split; [done|]. split; [done|].
    split; [done|]. split; [done|]. unfold getFirstDescendantOrThrow, bind. by rewrite Hrun.
  - subst r. right. split; [done|]. split; [exact (find_none_all _ _ Hfind)|].
    unfold getFirstDescendantOrThrow, bind. by rewrite Hrun.
Qed.

Lemma getFirstDescendant_first_in_preorder_witness :
  exists r s1, getFirstDescendantByKind 4 0%nat (ts.OtherKind 3) sampleFresh = (Ok r, s1) /\
    exists wd, r = Some wd /\ bound s1 wd 4%nat.
Proof.
  destruct (getFirstDescendant_first_in_preorder sampleFresh 0%nat sampleTree 4
              (isKind (ts.OtherKind 3)) (hasKind (ts.OtherKind 3))
              sampleFresh_consistent sampleFresh_sourceFilesLive eq_refl sampleTree_shape)
    as (r & s1 & Hrun & _ & _ & _ & Hr).
  { simpl. lia. }
  { apply isKind_reads. }
  exists r, s1. split; [exact Hrun|].
  destruct Hr as [(before & d & after & wd & Hsplit & Hd & Hbefore & -> & Hbd & _)
                 |(_ & Hnone & _)].
  - exists wd. split; [reflexivity|].
    assert (Hfind : find (hasKind (ts.OtherKind 3) (nodes sampleFresh))
                      (descendantsOf sampleTree) = Some d).
    { rewrite Hsplit, find_app_first.
      rewrite (find_all_false _ _ Hbefore). cbn [find]. by rewrite Hd. }
    vm_compute in Hfind. injection Hfind as <-. exact Hbd.
  - specialize (Hnone 4%nat). discriminate Hnone. simpl. tauto.
Defined.

(** ** Moving a subtree to another source file *)

Lemma assignSourceFile_bound (s : State) (this sf w : wid) (k : cnid) :
  bound (assignSourceFile this sf s).2 w k <-> bound s w k.
Proof.
  unfold bound, assignSourceFile. simpl.
  destruct (decide (w = this)) as [->|Hne].
  - by rewrite fn_lookup_insert.
  - by rewrite fn_lookup_insert_ne.
Qed.

Lemma assignSourceFile_retargeted (s : State) (this sf : wid) (c : cnid) :
  consistent s -> bound s this c ->
  retargeted sf [c] s (assignSourceFile this sf s).2.
Proof.
  intros (Hcb & Hlc & Hun) Hb. split; [done|]. split; [|split; [|split; [|split]]].
  - split; [|split].
    + intros k w Hk. apply assignSourceFile_bound. by apply Hcb.
    + intros w k Hw. apply assignSourceFile_bound in Hw. by apply Hlc.
    + intros w Hw. unfold disposed. specialize (Hun w Hw). unfold disposed in Hun.
      simpl. destruct (decide (w = this)) as [->|Hne].
      * by rewrite fn_lookup_insert.
      * by rewrite fn_lookup_insert_ne.
  - intros w k Hw. by apply assignSourceFile_bound.
  - intros w k Hw Hk. simpl. rewrite fn_lookup_insert_ne; [done|].
    intros <-. apply Hk, list_elem_of_singleton. unfold bound in *. congruence.
  - intros w k Hw Hsf. simpl. destruct (decide (w = this)) as [->|Hne].
    + by rewrite fn_lookup_insert.
    + by rewrite fn_lookup_insert_ne.
  - intros k Hk. apply list_elem_of_singleton in Hk as ->. exists this.
    split; [by apply assignSourceFile_bound|]. simpl. by rewrite fn_lookup_insert.
Qed.

Lemma created_retargeted (sf : wid) (ks : list cnid) (s s1 : State) :
  created ks s s1 -> consistent s1 -> retargeted sf [] s s1.
Proof.
  intros Hcr Hcons1. pose proof (created_extends _ _ _ Hcr) as [Hn Hext].
  destruct Hcr as (_ & _ & _ & _ & Hold & _).
  split; [done|]. split; [done|]. split; [done|].
  split; [intros w k Hw _; by eapply Hold|].
  split; [intros w k Hw Hsf; by rewrite (Hold _ _ Hw)|].
  intros k Hk. by apply elem_of_nil in Hk.
Qed.

Lemma retargeted_trans (sf : wid) (ks1 ks2 : list cnid) (s s1 s2 : State) :
  retargeted sf ks1 s s1 -> retargeted sf ks2 s1 s2 -> retargeted sf (ks1 ++ ks2) s s2.
Proof.
  intros (Hn1 & Hc1 & Hb1 & Hf1 & Hk1 & Hs1) (Hn2 & Hc2 & Hb2 & Hf2 & Hk2 & Hs2).
  split; [congruence|]. split; [done|]. split; [auto|]. split; [|split].
  - intros w k Hw Hk. apply not_elem_of_app in Hk as [Hk1' Hk2'].
    rewrite (Hf2 w k) by auto. by apply (Hf1 w k).
  - intros w k Hw Hsf. apply (Hk2 w k); [auto|]. by apply (Hk1 w k).
  - intros k Hk. apply elem_of_app in Hk as [Hk|Hk].
    + destruct (Hs1 k Hk) as (w & Hw & Hsf). exists w. split; [auto|]. by apply (Hk2 w k).
    + by apply Hs2.
Qed.

Lemma forEach_setSourceFile_subtrees (sf : wid) (fuel : nat) (ts : list Tree)
    (ws : list wid) (s : State) :
  Forall (setsSubtree sf fuel) ts ->
  Forall (fun t => shape (nodes s) t = true) ts ->
  Forall (fun t => (height t <= fuel)%nat) ts ->
  consistent s ->
  Forall2 (fun t w => bound s w (rootOf t)) ts ws ->
  exists s', forEach ws (fun child => setSourceFile fuel child sf) s = (Ok tt, s') /\
    retargeted sf (concat (map ids ts)) s s'.
Proof.
  revert ws s. induction ts as [|t ts IH]; intros ws s HP Hshape Hfuel Hcons Hbound.
  - apply Forall2_nil_inv_l in Hbound as ->. exists s. split; [done|].
    apply (created_retargeted sf []); [apply created_refl | done].
  - apply Forall2_cons_inv_l in Hbound as (w & ws' & Hw & Hws & ->).
    apply Forall_cons_iff in HP as [HPt HPts]. apply Forall_cons_iff in Hshape as [Hst Hsts].
    apply Forall_cons_iff in Hfuel as [Hft Hfts].
    destruct (HPt s w Hst Hft Hcons Hw) as (s1 & Hrun1 & Hret1).
    pose proof Hret1 as (Hn1 & Hcons1 & Hb1 & _).
    destruct (IH ws' s1) as (s2 & Hrun2 & Hret2); try done.
    + eapply Forall_impl; [exact Hsts|]. intros t' Ht'. by rewrite Hn1.
    + eapply Forall2_impl; [exact Hws|]. intros t' w'. apply Hb1.
    + exists s2. split.
      * simpl. unfold bind. by rewrite Hrun1.
      * simpl. by eapply retargeted_trans.
Qed.

Lemma setSourceFile_subtree (sf : wid) (t : Tree) : forall fuel, setsSubtree sf fuel t.
Proof.
  induction t as [r ts IH] using Tree_ind.
  intros [|fuel] s w Hshape Hfuel Hcons Hb; [simpl in Hfuel; lia|].
  apply shape_children in Hshape as [Hchildren Hshapes].
  pose proof (assignSourceFile_retargeted s w sf r Hcons Hb) as Hret0.
  set (s0 := (assignSourceFile w sf s).2) in *.
  pose proof Hret0 as (Hn0 & Hcons0 & Hb0 & _).
  destruct (getChildren_consistent s0 w r Hcons0 (Hb0 _ _ Hb))
    as (ws & s1 & Hws & Hcr & Hcons1 & Hall).
  pose proof (created_retargeted sf _ _ _ Hcr Hcons1) as Hret1.
  pose proof Hret1 as (Hn1 & _).
  rewrite Hn0, Hchildren in Hall. apply Forall2_map_l in Hall.
  destruct (forEach_setSourceFile_subtrees sf fuel ts ws s1) as (s' & Hloop & Hret2);
    try done.
  { eapply Forall_impl; [exact IH|]. intros t Ht. apply Ht. }
  { eapply Forall_impl; [exact Hshapes|]. intros t' Ht'. by rewrite Hn1, Hn0. }
  { by apply (subtree_heights r). }
  exists s'. split.
  - cbn [setSourceFile]. unfold bind at 1.
    change (assignSourceFile w sf s) with (Ok tt, s0). unfold bind. by rewrite Hws, Hloop.
  - exact (retargeted_trans sf [r] _ _ _ _ Hret0
             (retargeted_trans sf [] _ _ _ _ Hret1 Hret2)).
Qed.

(** X21. On a live wrapper of the root of a tree of compiler nodes,
    [setSourceFile(sf)] returns, with enough fuel, and afterwards every
    node of the tree has a live wrapper whose [getSourceFile()] is [sf];
    the wrappers of nodes outside the tree are untouched, and no wrapper is
    released. *)
Theorem setSourceFile_whole_subtree (s : State) (w sf : wid) (t : Tree) (fuel : nat)
    (Hconsistent : consistent s) (Hbound : bound s w (rootOf t))
    (Hshape : shape (nodes s) t = true) (Hfuel : (height t <= fuel)%nat) :
  exists s', setSourceFile fuel w sf s = (Ok tt, s') /\
    (forall k, k ∈ ids t ->
       exists w', bound s' w' k /\ getSourceFile w' s' = (Ok sf, s')) /\
    getSourceFile w s' = (Ok sf, s') /\
    (forall w' k, bound s w' k -> bound s' w' k) /\
    (forall w' k, bound s w' k -> k ∉ ids t -> heap s' w' = heap s w') /\
    consistent s' /\ nodes s' = nodes s.
Proof.
  destruct (setSourceFile_subtree sf t fuel s w Hshape Hfuel Hconsistent Hbound)
    as (s' & Hrun & Hn & Hcons' & Hb & Hframe & Hkeep & Hset).
  exists s'. split; [done|]. split.
  { intros k Hk. destruct (Hset k Hk) as (w' & Hw' & Hsf). exists w'. split; [done|].
    unfold getSourceFile. by rewrite Hsf. }
  split.
  { destruct (Hset (rootOf t) (rootOf_in_ids t)) as (w' & Hw' & Hsf).
    rewrite (consistent_unique s' w w' (rootOf t) Hcons' (Hb _ _ Hbound) Hw').
    unfold getSourceFile. by rewrite Hsf. }
  done.
Qed.

Lemma unwrapState_consistent : consistent unwrapState.
Proof. apply consistentb_sound; [reflexivity | apply stateOf_unallocated]. Qed.

Lemma setSourceFile_whole_subtree_witness :
  exists s', setSourceFile 2 3%nat 0%nat unwrapState = (Ok tt, s') /\
    getSourceFile 3%nat unwrapState = (Ok 2%nat, unwrapState) /\
    getSourceFile 3%nat s' = (Ok 0%nat, s') /\
    forall k, k ∈ [11; 12; 13]%nat ->
      exists w', bound s' w' k /\ getSourceFile w' s' = (Ok 0%nat, s').
Proof.
  destruct (setSourceFile_whole_subtree unwrapState 3%nat 0%nat
              (T 11 [T 12 []; T 13 []]) 2 unwrapState_consistent eq_refl eq_refl)
    as (s' & Hrun & Hall & Hroot & _).
  { simpl. lia. }
  exists s'. split; [exact Hrun|]. split; [reflexivity|]. split; [exact Hroot | exact Hall].
Defined.

(** X22. [setSourceFile(sf)] on a disposed wrapper throws the
    InvalidOperationError of the [compilerNode] getter, but only after it
    has stored [sf] in the wrapper: [getSourceFile()] returns [sf]
    afterwards; nothing else changes. *)
Theorem setSourceFile_on_disposed_assigns_then_throws (s : State) (w sf : wid) (fuel : nat)
    (Hdisposed : disposed s w) :
  exists s', setSourceFile (S fuel) w sf s = (Throw removedFromAst, s') /\
    getSourceFile w s' = (Ok sf, s') /\
    disposed s' w /\
    (forall w', w' <> w -> heap s' w' = heap s w') /\
    nodeCache s' = nodeCache s /\ nodes s' = nodes s /\ next s' = next s.
Proof.
  exists (assignSourceFile w sf s).2.
  assert (Hd : disposed (assignSourceFile w sf s).2 w).
  { unfold disposed, assignSourceFile. simpl. by rewrite fn_lookup_insert. }
  split.
  { cbn [setSourceFile]. unfold bind at 1.
    change (assignSourceFile w sf s) with (Ok tt, (assignSourceFile w sf s).2).
    cbn [snd]. unfold bind at 1. unfold getChildren.
    by rewrite (reads_compilerNode_disposed _ _ _ Hd). }
  split. { unfold getSourceFile, assignSourceFile. simpl. by rewrite fn_lookup_insert. }
  split; [done|]. split; [|done].
  intros w' Hne. unfold assignSourceFile. simpl. by rewrite fn_lookup_insert_ne.
Qed.

Lemma setSourceFile_on_disposed_assigns_then_throws_witness :
  exists s', setSourceFile 1 1%nat 5%nat sampleDisposed = (Throw removedFromAst, s') /\
    getSourceFile 1%nat sampleDisposed = (Ok 0%nat, sampleDisposed) /\
    getSourceFile 1%nat s' = (Ok 5%nat, s').
Proof.
  destruct (setSourceFile_on_disposed_assigns_then_throws sampleDisposed 1%nat 5%nat 0
              eq_refl)
    as (s' & Hrun & Hsf & _).
  exists s'. split; [exact Hrun|]. split; [reflexivity | exact Hsf].
Defined.

(** ** The ancestors of a node *)

Lemma sampleLeaf_consistent : consistent sampleLeaf.
Proof. apply consistentb_sound; [reflexivity | apply stateOf_unallocated]. Qed.

Lemma sampleLeaf_sourceFilesLive : sourceFilesLive sampleLeaf.
Proof. apply sourceFilesLiveb_sound; [reflexivity | apply stateOf_unallocated]. Qed.

Lemma getAncestors_loop_chain (ps : list cnid) :
  forall (p : cnid) (wp : wid) (s : State) (fuel : nat),
    (length ps < fuel)%nat -> consistent s -> sourceFilesLive s -> bound s wp p ->
    ancestorChain (nodes s) p ps ->
    exists ws s1, getAncestors_loop fuel (Some wp) s = (Ok (wp :: ws), s1) /\
      consistent s1 /\ sourceFilesLive s1 /\ extends s s1 /\
      Forall2 (fun k w => bound s1 w k) ps ws.
Proof.
  induction ps as [|q ps IH]; intros p wp s [|fuel] Hfuel Hcons Hlive Hwp Hchain;
    try (simpl in Hfuel; lia);
    destruct (getParent_live s wp p Hcons Hlive Hwp)
      as (r & s1 & Hr & Hcons1 & Hlive1 & Hext1 & Hparent).
  - simpl in Hchain. rewrite Hchain in Hparent. subst r.
    exists [], s1. cbn [getAncestors_loop]. unfold bind at 1. rewrite Hr.
    split; [by destruct fuel|]. split; [done|]. split; [done|]. split; [done | constructor].
  - destruct Hchain as [Hq Hchain]. rewrite Hq in Hparent. destruct Hparent as (wq & -> & Hwq).
    destruct (IH q wq s1 fuel) as (ws & s2 & Hloop & Hcons2 & Hlive2 & Hext2 & Hall);
      try done.
    { simpl in Hfuel. lia. }
    { by rewrite (proj1 Hext1). }
    exists (wq :: ws), s2. cbn [getAncestors_loop]. unfold bind at 1. rewrite Hr.
    unfold bind. rewrite Hloop. split; [done|]. split; [done|]. split; [done|].
    split; [by eapply extends_trans|]. constructor; [by apply Hext2 | done].
Qed.

Lemma getAncestors_chain (s : State) (this : wid) (c : cnid) (ps : list cnid) (fuel : nat) :
  consistent s -> sourceFilesLive s -> bound s this c ->
  ancestorChain (nodes s) c ps -> (length ps <= fuel)%nat ->
  exists ws s1, getAncestors fuel this s = (Ok ws, s1) /\
    consistent s1 /\ sourceFilesLive s1 /\ extends s s1 /\
    Forall2 (fun k w => bound s1 w k) ps ws.
Proof.
  intros Hcons Hlive Hthis Hchain Hfuel.
  destruct (getParent_live s this c Hcons Hlive Hthis)
    as (r & s1 & Hr & Hcons1 & Hlive1 & Hext1 & Hparent).
  unfold getAncestors, bind. rewrite Hr.
  destruct ps as [|p ps].
  - simpl in Hchain. rewrite Hchain in Hparent. subst r. exists [], s1.
    split; [by destruct fuel|]. split; [done|]. split; [done|]. split; [done | constructor].
  - destruct Hchain as [Hp Hchain]. rewrite Hp in Hparent. destruct Hparent as (wp & -> & Hwp).
    destruct (getAncestors_loop_chain ps p wp s1 fuel)
      as (ws & s2 & Hloop & Hcons2 & Hlive2 & Hext2 & Hall); try done.
    { by rewrite (proj1 Hext1). }
    exists (wp :: ws), s2. split; [done|]. split; [done|]. split; [done|].
    split; [by eapply extends_trans|]. constructor; [by apply Hext2 | done].
Qed.

(** X23. On a live wrapper of a node whose parent pointers lead through
    the nodes [ps] to a node without parent, [getAncestors()] returns, with
    enough fuel, the wrappers of [ps], the parent first, the root last, and
    [getFirstAncestorByKind(kind)] returns the wrapper of the nearest
    ancestor of that kind, or [undefined] if there is none. *)
Theorem getAncestors_ascending (s : State) (this : wid) (c : cnid) (ps : list cnid)
    (fuel : nat) (kind : ts.SyntaxKind)
    (Hconsistent : consistent s) (Hlive : sourceFilesLive s) (Hbound : bound s this c)
    (Hchain : ancestorChain (nodes s) c ps) (Hfuel : (length ps <= fuel)%nat) :
  exists ws r s1,
    getAncestors fuel this s = (Ok ws, s1) /\
    Forall2 (fun k w => bound s1 w k) ps ws /\
    getFirstAncestorByKind fuel this kind s = (Ok r, s1) /\
    match find (hasKind kind (nodes s)) ps with
    | Some a => exists wa, r = Some wa /\ bound s1 wa a
    | None => r = None
    end /\
    consistent s1 /\ nodes s1 = nodes s /\
    (forall w k, bound s w k -> bound s1 w k).
Proof.
  destruct (getAncestors_chain s this c ps fuel Hconsistent Hlive Hbound Hchain Hfuel)
    as (ws & s1 & Hws & Hcons1 & _ & [Hn Hext] & Hall).
  destruct (findM_reads (isKind kind) (hasKind kind) s1 ps ws (isKind_reads kind) Hall)
    as (r & Hfind & Hr).
  exists ws, r, s1. split; [done|]. split; [done|].
  split. { unfold getFirstAncestorByKind, bind. by rewrite Hws. }
  split; [by rewrite Hn in Hr|]. done.
Qed.

Lemma getAncestors_ascending_witness :
  exists ws r s1,
    getAncestors 2 1%nat sampleLeaf = (Ok ws, s1) /\
    Forall2 (fun k w => bound s1 w k) [5; 0]%nat ws /\
    getFirstAncestorByKind 2 1%nat ts.SourceFile sampleLeaf = (Ok r, s1) /\
    exists wa, r = Some wa /\ bound s1 wa 0%nat.
Proof.
  destruct (getAncestors_ascending sampleLeaf 1%nat 6%nat [5; 0]%nat 2 ts.SourceFile
              sampleLeaf_consistent sampleLeaf_sourceFilesLive eq_refl)
    as (ws & r & s1 & Hws & Hall & Hfirst & Hr & _).
  { repeat split. }
  { simpl. lia. }
  exists ws, r, s1. split; [exact Hws|]. split; [exact Hall|]. split; [exact Hfirst|].
  exact Hr.
Defined.

Lemma last_cons_default {A : Type} (x : A) (l : list A) :
  last (x :: l) = Some (default x (last l)).
Proof.
  revert x. induction l as [|y l IH]; intros x; [done|].
  change (last (x :: y :: l)) with (last (y :: l)). rewrite IH. simpl.
  by destruct (last l).
Qed.

Lemma takeWhile_cons {A : Type} (f : A -> bool) (x : A) (l : list A) :
  takeWhile f (x :: l) = if f x then x :: takeWhile f l else [].
Proof. reflexivity. Qed.

Lemma getParentWhile_loop_chain (condition : wid -> M bool)
    (test : (cnid -> ts.Node) -> cnid -> bool) (ps : list cnid) :
  readsNode condition test ->
  forall (p : cnid) (wp : wid) (node : option wid) (s : State) (fuel : nat),
    (length ps < fuel)%nat -> consistent s -> sourceFilesLive s -> bound s wp p ->
    ancestorChain (nodes s) p ps ->
    exists r s1, getParentWhile_loop fuel condition node (Some wp) s = (Ok r, s1) /\
      consistent s1 /\ sourceFilesLive s1 /\ extends s s1 /\
      match last (takeWhile (test (nodes s)) (p :: ps)) with
      | Some a => exists wa, r = Some wa /\ bound s1 wa a
      | None => r = node
      end.
Proof.
  intros Hreads.
  induction ps as [|q ps IH]; intros p wp node s [|fuel] Hfuel Hcons Hlive Hwp Hchain;
    try (simpl in Hfuel; lia);
    cbn [getParentWhile_loop]; rewrite takeWhile_cons;
    unfold bind at 1; rewrite (Hreads _ _ _ Hwp);
    (destruct (test (nodes s) p) eqn:Hp;
       [|exists node, s; split; [done|]; split; [done|]; split; [done|];
         split; [apply extends_refl | done]]);
    destruct (getParent_live s wp p Hcons Hlive Hwp)
      as (r & s1 & Hr & Hcons1 & Hlive1 & Hext1 & Hparent);
    unfold bind at 1; rewrite Hr.
  - simpl in Hchain. rewrite Hchain in Hparent. subst r.
    exists (Some wp), s1. split; [by destruct fuel|]. split; [done|]. split; [done|].
    split; [done|]. simpl. exists wp. split; [done | by apply Hext1].
  - destruct Hchain as [Hq Hchain]. rewrite Hq in Hparent. destruct Hparent as (wq & -> & Hwq).
    destruct (IH q wq (Some wp) s1 fuel) as (r & s2 & Hloop & Hcons2 & Hlive2 & Hext2 & Hr2);
      try done.
    { simpl in Hfuel. lia. }
    { by rewrite (proj1 Hext1). }
    exists r, s2. split; [done|]. split; [done|]. split; [done|].
    split; [by eapply extends_trans|].
    rewrite (proj1 Hext1) in Hr2. rewrite last_cons_default.
    destruct (last (takeWhile (test (nodes s)) (q :: ps))) as [a|]; simpl.
    + exact Hr2.
    + exists wp. split; [done|]. apply Hext2, Hext1, Hwp.
Qed.

(** X24. On a live wrapper of a node whose parent pointers lead through
    the nodes [ps] to a node without parent, [getParentWhile(condition)]
    returns, with enough fuel, the wrapper of the last node of the longest
    run of ancestors, starting with the parent, that all pass the
    condition; when the parent itself fails it returns [undefined] and
    [getParentWhileOrThrow] throws.  [getParentIfKind(kind)] returns the
    parent's wrapper if the parent has the kind and [undefined] otherwise. *)
Theorem getParentWhile_end_of_matching_run (s : State) (this : wid) (c : cnid)
    (ps : list cnid) (fuel : nat) (condition : wid -> M bool)
    (test : (cnid -> ts.Node) -> cnid -> bool) (kind : ts.SyntaxKind)
    (Hconsistent : consistent s) (Hlive : sourceFilesLive s) (Hbound : bound s this c)
    (Hchain : ancestorChain (nodes s) c ps) (Hfuel : (length ps <= fuel)%nat)
    (Hreads : readsNode condition test) :
  (exists r s1, getParentWhile fuel this condition s = (Ok r, s1) /\
     match last (takeWhile (test (nodes s)) ps) with
     | Some a =>
         exists wa, r = Some wa /\ bound s1 wa a /\
           getParentWhileOrThrow fuel this condition s = (Ok wa, s1)
     | None =>
         r = None /\
         getParentWhileOrThrow fuel this condition s =
           (Throw (InvalidOperationError
                     "The initial parent did not match the provided condition."), s1)
     end) /\
  (exists r s1, getParentIfKind this kind s = (Ok r, s1) /\
     match head ps with
     | Some p =>
         if hasKind kind (nodes s) p then exists wp, r = Some wp /\ bound s1 wp p
         else r = None
     | None => r = None
     end).
Proof.
  destruct (getParent_live s this c Hconsistent Hlive Hbound)
    as (rp & s1 & Hrp & Hcons1 & Hlive1 & Hext1 & Hparent).
  split.
  - assert (Hrun : exists r s2, getParentWhile fuel this condition s = (Ok r, s2) /\
       match last (takeWhile (test (nodes s)) ps) with
       | Some a => exists wa, r = Some wa /\ bound s2 wa a
       | None => r = None
       end).
    { unfold getParentWhile, bind. rewrite Hrp. destruct ps as [|p ps].
      - simpl in Hchain. rewrite Hchain in Hparent. subst rp. exists None, s1.
        split; [by destruct fuel | done].
      - destruct Hchain as [Hp Hchain]. rewrite Hp in Hparent.
        destruct Hparent as (wp & -> & Hwp).
        destruct (getParentWhile_loop_chain condition test ps Hreads p wp None s1 fuel)
          as (r & s2 & Hloop & _ & _ & _ & Hr); try done.
        { by rewrite (proj1 Hext1). }
        exists r, s2. split; [done|]. by rewrite (proj1 Hext1) in Hr. }
    destruct Hrun as (r & s2 & Hrun & Hr). exists r, s2. split; [done|].
    destruct (last (takeWhile (test (nodes s)) ps)) as [a|].
    + destruct Hr as (wa & -> & Hwa). exists wa. split; [done|]. split; [done|].
      unfold getParentWhileOrThrow, bind. by rewrite Hrun.
    + subst r. split; [done|]. unfold getParentWhileOrThrow, bind. by rewrite Hrun.
  - destruct ps as [|p ps].
    + simpl in Hchain. rewrite Hchain in Hparent. subst rp. exists None, s1.
      split; [|done]. unfold getParentIfKind, bind. by rewrite Hrp.
    + destruct Hchain as [Hp _]. rewrite Hp in Hparent. destruct Hparent as (wp & -> & Hwp).
      eexists _, s1. split.
      { unfold getParentIfKind, bind at 1. rewrite Hrp. apply (ifKind_bound _ _ _ _ Hwp). }
      simpl. rewrite (proj1 Hext1). destruct (hasKind kind (nodes s) p); [by exists wp | done].
Qed.

Lemma getParentWhile_end_of_matching_run_witness :
  (exists r s1, getParentWhileKind 2 1%nat (ts.OtherKind 1) sampleLeaf = (Ok r, s1) /\
     exists wa, r = Some wa /\ bound s1 wa 5%nat /\
       getParentWhileOrThrow 2 1%nat (isKind (ts.OtherKind 1)) sampleLeaf = (Ok wa, s1)) /\
  (exists r s1, getParentIfKind 1%nat (ts.OtherKind 1) sampleLeaf = (Ok r, s1) /\
     exists wp, r = Some wp /\ bound s1 wp 5%nat).
Proof.
  apply (getParentWhile_end_of_matching_run sampleLeaf 1%nat 6%nat [5; 0]%nat 2
           (isKind (ts.OtherKind 1)) (hasKind (ts.OtherKind 1)) (ts.OtherKind 1)
           sampleLeaf_consistent sampleLeaf_sourceFilesLive eq_refl).
  - repeat split.
  - simpl. lia.
  - apply isKind_reads.
Defined.

(** ** What the unwrapping releases *)

Lemma in_concat_map {A : Type} (f : A -> list cnid) (l : list A) (k : cnid) :
  k ∈ concat (map f l) -> exists a, a ∈ l /\ k ∈ f a.
Proof.
  induction l as [|a l IH]; simpl; intros Hk; [by apply elem_of_nil in Hk|].
  apply elem_of_app in Hk as [Hk|Hk].
  - exists a. split; [apply elem_of_cons; by left | done].
  - destruct (IH Hk) as (a' & Ha' & Hk'). exists a'. split; [apply elem_of_cons; by right | done].
Qed.

Lemma idsUntil_in_ids (l : cnid) (t : Tree) (k : cnid) : k ∈ idsUntil l t -> k ∈ ids t.
Proof.
  revert k. induction t as [r ts IH] using Tree_ind. intros k. cbn [idsUntil ids].
  rewrite !elem_of_cons. intros [->|Hk]; [by left|]. right.
  destruct (Nat.eqb r l); [by apply elem_of_nil in Hk|].
  apply in_concat_map in Hk as (t & Ht & Hk).
  apply (ids_subtree t); [done|]. rewrite Forall_forall in IH. by apply IH.
Qed.

Lemma rootOf_in_idsUntil (l : cnid) (t : Tree) : rootOf t ∈ idsUntil l t.
Proof. destruct t. simpl. apply elem_of_cons. by left. Qed.

Lemma idsUntil_subtrees_in_ids (l : cnid) (ts : list Tree) (k : cnid) :
  k ∈ concat (map (idsUntil l) ts) -> k ∈ concat (map ids ts).
Proof.
  intros Hk. apply in_concat_map in Hk as (t & Ht & Hk).
  apply (ids_subtree t); [done | by apply (idsUntil_in_ids l)].
Qed.

Lemma list_in_idsUntil (l : cnid) (t : Tree) : l ∈ ids t -> l ∈ idsUntil l t.
Proof.
  induction t as [r ts IH] using Tree_ind.
  cbn [ids idsUntil]. rewrite !elem_of_cons. intros [->|Hl]; [by left|].
  destruct (Nat.eqb_spec r l) as [->|Hne]; [by left|]. right.
  apply in_concat_map in Hl as (t & Ht & Hl). rewrite Forall_forall in IH.
  specialize (IH t Ht Hl). clear -Ht IH.
  induction ts as [|t' ts IHts]; [by apply elem_of_nil in Ht|].
  simpl. apply elem_of_app. apply elem_of_cons in Ht as [->|Ht]; [by left | right; by apply IHts].
Qed.

Lemma roots_in_idsUntil (l : cnid) (ts : list Tree) (k : cnid) :
  k ∈ map rootOf ts -> k ∈ concat (map (idsUntil l) ts).
Proof.
  intros Hk. apply list_elem_of_fmap in Hk as (t & -> & Ht).
  induction ts as [|t' ts IH]; [by apply elem_of_nil in Ht|].
  simpl. apply elem_of_app. apply elem_of_cons in Ht as [->|Ht];
    [left; apply rootOf_in_idsUntil | right; by apply IH].
Qed.

Lemma listMarked_weaken (s : State) (csl : wid) (l : cnid) (ks ks' : list cnid) :
  (forall k, k ∈ ks' -> k ∈ ks) -> listMarked s csl l ks -> listMarked s csl l ks'.
Proof. intros Hsub [Hl|(Hd & Hlt & Hl)]; [by left|]. right. split; [done|]. split; auto. Qed.

Lemma listMarked_root (s : State) (node csl : wid) (r l : cnid) (ks : list cnid) :
  cacheBound s -> nodeCache s !! r = Some node -> r ∈ ks -> listMarked s csl l ks ->
  Nat.eqb node csl = Nat.eqb r l.
Proof.
  intros Hcb Hr Hin [Hl|(Hd & _ & Hl)].
  - destruct (Nat.eqb_spec node csl) as [->|Hne];
      destruct (Nat.eqb_spec r l) as [->|Hne']; try done.
    + destruct Hne'. by apply (cached_same_node s r l csl).
    + destruct Hne. congruence.
  - destruct (Nat.eqb_spec node csl) as [->|_].
    + destruct (disposed_not_bound _ _ r Hd). by apply Hcb.
    + destruct (Nat.eqb_spec r l) as [->|_]; [by destruct Hl | done].
Qed.

Lemma listMarked_after_released (s s1 : State) (csl : wid) (l : cnid)
    (gone rest : list cnid) :
  cacheSound s -> released gone s s1 ->
  (l ∈ gone -> l ∉ rest) ->
  listMarked s csl l (gone ++ rest) ->
  listMarked s1 csl l rest.
Proof.
  intros Hsound Hrel Hdisj [Hl|(Hd & Hlt & Hl)];
    pose proof Hrel as (_ & Hx & _ & Hout & Hgone & _).
  - destruct (decide (l ∈ gone)) as [Hin|Hnotin].
    + right. split; [by apply (Hgone l)|].
      split; [|by apply Hdisj]. pose proof (cached_allocated _ _ _ Hsound Hl). lia.
    + left. by rewrite Hout.
  - apply not_elem_of_app in Hl as [_ Hl]. right.
    split; [by apply (released_disposed gone s)|]. split; [lia | done].
Qed.

Lemma listMarked_after_grown (s s1 : State) (csl : wid) (l : cnid) (made ks : list cnid) :
  grown made s s1 -> listMarked s csl l ks -> listMarked s1 csl l ks.
Proof.
  intros (_ & Hx & Hh & Hmono & _) [Hl|(Hd & Hlt & Hl)].
  - left. by apply Hmono.
  - right. split; [|split; [lia | done]]. unfold disposed. by rewrite Hh.
Qed.

Lemma forEach_disposeNodes_below (fuel : nat) (l : cnid) (csl : wid) (ts : list Tree)
    (ws : list wid) (s : State) :
  Forall (sparesBelow fuel l) ts ->
  Forall (fun t => shape (nodes s) t = true) ts ->
  NoDup (concat (map ids ts)) ->
  Forall (fun t => (height t <= fuel)%nat) ts ->
  cacheSound s ->
  Forall2 (fun t u => nodeCache s !! rootOf t = Some u) ts ws ->
  listMarked s csl l (concat (map ids ts)) ->
  exists s', forEach ws (UnwrapParentHandler.disposeNodes fuel csl) s = (Ok tt, s') /\
    released (concat (map (idsUntil l) ts)) s s' /\ cacheSound s'.
Proof.
  revert ws s.
  induction ts as [|t ts IH]; intros ws s HP Hshape Hnodup Hfuel Hsound Hroots Hmarks.
  - apply Forall2_nil_inv_l in Hroots as ->. exists s. split; [done|].
    split; [apply released_refl, Hsound | done].
  - apply Forall2_cons_inv_l in Hroots as (w & ws' & Hw & Hws & ->).
    apply Forall_cons_iff in HP as [HPt HPts]. apply Forall_cons_iff in Hshape as [Hst Hsts].
    apply Forall_cons_iff in Hfuel as [Hft Hfts].
    simpl in Hnodup, Hmarks. apply NoDup_app in Hnodup as (Hnd1 & Hdisj & Hnd2).
    destruct (HPt s csl w Hst Hnd1 Hft Hsound Hw) as (s1 & Hrun1 & Hrel1).
    { eapply listMarked_weaken; [|exact Hmarks]. intros k Hk. apply elem_of_app. by left. }
    pose proof (released_sound _ _ _ Hsound Hrel1) as Hsound1.
    pose proof Hrel1 as (Hn1 & _).
    destruct (IH ws' s1) as (s2 & Hrun2 & Hrel2 & Hsound2); try done.
    + by rewrite Hn1.
    + apply (cached_after_released (idsUntil l t) s); [done| |done].
      intros t' Ht' Hin. apply (Hdisj _ (idsUntil_in_ids _ _ _ Hin)).
      apply (ids_subtree t'); [done | apply rootOf_in_ids].
    + apply (listMarked_after_released s s1 csl l (idsUntil l t)); [done | done | |].
      * intros Hin. apply Hdisj. by apply (idsUntil_in_ids l).
      * eapply listMarked_weaken; [|exact Hmarks]. intros k Hk.
        apply elem_of_app in Hk as [Hk|Hk]; apply elem_of_app;
          [left; by apply (idsUntil_in_ids l) | by right].
    + exists s2. split; [|split; [|done]].
      * simpl. unfold bind. by rewrite Hrun1.
      * simpl. by eapply released_trans.
Qed.

Lemma disposeNodes_below (l : cnid) (t : Tree) : forall fuel, sparesBelow fuel l t.
Proof.
  induction t as [r ts IH] using Tree_ind.
  intros [|fuel] s csl node Hshape Hnodup Hfuel Hsound Hroot Hmarks; [simpl in Hfuel; lia|].
  cbn [UnwrapParentHandler.disposeNodes idsUntil]. simpl in Hroot.
  pose proof (proj1 Hsound _ _ Hroot) as Hb.
  rewrite (listMarked_root s node csl r l (ids (T r ts)) (proj1 Hsound) Hroot
             (rootOf_in_ids (T r ts)) Hmarks).
  destruct (Nat.eqb r l).
  { destruct (disposeOnlyThis_sound s node r (proj2 Hsound) Hb) as (s' & Hrun & Hfrom).
    exists s'. split; [done|]. by apply (releasedFrom_cached node). }
  apply shape_children in Hshape as [Hchildren Hshapes].
  simpl in Hnodup. apply NoDup_cons in Hnodup as [Hr Hnodup].
  destruct (getChildren_sound s node r Hsound Hb) as (ws & s1 & Hws & Hsound1 & Hg & Hall).
  rewrite Hchildren in Hg, Hall.
  pose proof Hg as (Hn1 & _).
  destruct (forEach_disposeNodes_below fuel l csl ts ws s1)
    as (s2 & Hloop & Hrel2 & Hsound2); try done.
  { eapply Forall_impl; [exact IH|]. intros t Ht. apply Ht. }
  { by rewrite Hn1. }
  { by apply (subtree_heights r). }
  { by apply Forall2_map_l in Hall. }
  { apply (listMarked_after_grown s s1 csl l (map rootOf ts)); [done|].
    eapply listMarked_weaken; [|exact Hmarks]. intros k Hk. simpl. apply elem_of_cons. by right. }
  pose proof (grown_then_released _ _ _ _ _ (roots_in_idsUntil l ts) Hg Hrel2) as Hrel.
  assert (Hout : r ∉ concat (map (idsUntil l) ts)).
  { intros Hin. by apply Hr, (idsUntil_subtrees_in_ids l). }
  pose proof (released_keeps_this _ _ _ _ _ Hsound Hrel Hout Hb) as Hb2.
  destruct (disposeOnlyThis_sound s2 node r (proj2 Hsound2) Hb2) as (s' & Hlast & Hfrom).
  exists s'. split. { unfold bind. by rewrite Hws, Hloop. }
  apply (releasedFrom_cached node); [done|].
  by apply (released_then_this node r _ s s2 s').
Qed.

(** X25. Take a state where every cache entry leads to a live wrapper of
    its key and no wrapper exists beyond [next], a tree [t] whose root has
    the cache entry [node], and a node [l] that has the cache entry
    [childSyntaxList].  Then the local function [disposeNodes] of
    [UnwrapParentHandler.handleNode], run on [node], returns, with enough
    fuel, having released the root and every node of the tree except those
    below [l]: these nodes, [l] among them, lose their cache entry, and the
    wrappers the cache held for them and the wrappers made on the way have
    a null pointer; every other cache entry and every other wrapper, those
    of the nodes below [l] included, are as they were.  Where moreover
    every live wrapper is the cache entry of its node, no wrapper at all is
    left on a released node. *)
Theorem disposeNodes_spares_below_syntax_list (s : State) (node childSyntaxList : wid)
    (t : Tree) (l : cnid) (fuel : nat)
    (Hcache : cacheBound s) (Hfresh : unallocatedDisposed s)
    (Hnode : nodeCache s !! rootOf t = Some node)
    (Hlist : nodeCache s !! l = Some childSyntaxList)
    (Hshape : shape (nodes s) t = true) (Hnodup : NoDup (ids t))
    (Hfuel : (height t <= fuel)%nat) :
  exists s', UnwrapParentHandler.disposeNodes fuel childSyntaxList node s = (Ok tt, s') /\
    (forall k, k ∈ idsUntil l t -> nodeCache s' !! k = None) /\
    (forall k u, k ∈ idsUntil l t -> nodeCache s !! k = Some u -> disposed s' u) /\
    (forall u, (next s <= u)%nat -> disposed s' u) /\
    (forall k, k ∉ idsUntil l t -> nodeCache s' !! k = nodeCache s !! k) /\
    (forall u, (u < next s)%nat ->
       (forall k, k ∈ idsUntil l t -> nodeCache s !! k <> Some u) ->
       heap s' u = heap s u) /\
    disposed s' node /\
    (l ∈ ids t -> disposed s' childSyntaxList) /\
    cacheBound s' /\ unallocatedDisposed s' /\
    (liveCached s ->
       (forall k, k ∈ idsUntil l t -> forall w, ~ bound s' w k) /\
       (forall w k, bound s w k -> k ∉ idsUntil l t -> bound s' w k) /\
       liveCached s').
Proof.
  assert (Hsound : cacheSound s) by done.
  destruct (disposeNodes_below l t fuel s childSyntaxList node Hshape Hnodup Hfuel
              Hsound Hnode (or_introl Hlist)) as (s' & Hrun & Hrel).
  pose proof (released_sound _ _ _ Hsound Hrel) as [Hcb' Hun'].
  pose proof Hrel as (_ & _ & Hin & Hout & Hgone & Hnew & Hframe).
  exists s'. repeat (split; [done|]).
  split. { apply (Hgone (rootOf t)); [apply rootOf_in_idsUntil | done]. }
  split. { intros Hl. apply (Hgone l); [by apply list_in_idsUntil | done]. }
  split; [done|]. split; [done|].
  intros Hlc. destruct (released_liveCached _ _ _ Hsound Hlc Hrel) as (Hlc' & Hnone & _ & Hkeep).
  done.
Qed.

Lemma bind_assoc {A B C : Type} (m : M A) (f : A -> M B) (g : B -> M C) (s : State) :
  bind (bind m f) g s = bind m (fun x => bind (f x) g) s.
Proof. unfold bind. by destruct (m s) as [[a|e|] s1]. Qed.

Lemma bind_ext {A B : Type} (m : M A) (f g : A -> M B) (s : State) :
  (forall a s1, f a s1 = g a s1) -> bind m f s = bind m g s.
Proof. intros Hfg. unfold bind. destruct (m s) as [[a|e|] s1]; [apply Hfg | done | done]. Qed.

(** [pairChildren], with the sample collaborators, is [sampleUntilDispose]
    followed by the call of [disposeNodes] on the unwrapped child and by
    the pairing of the remaining children: [unwrapFitBeforeDispose] is the
    state in which the sample unwrapping makes that call. *)
Lemma samplePairing_phases (fuel : nat) (currentNode newNode : wid) (s : State) :
  samplePairing fuel currentNode newNode s =
  (phases <- sampleUntilDispose currentNode newNode ;;
   UnwrapParentHandler.disposeNodes fuel phases.1.1.2 phases.1.1.1 ;;
   UnwrapParentHandler.handleRest sampleStraightReplacement sampleExhausted
     phases.1.2 phases.2) s.
Proof.
  unfold samplePairing, UnwrapParentHandler.pairChildren, sampleUntilDispose.
  symmetry.
  do 7 (etransitivity; [apply bind_assoc|]; apply bind_ext; intros ? ?).
  reflexivity.
Qed.

Lemma unwrapFitBeforeDispose_cacheBound : cacheBound unwrapFitBeforeDispose.
Proof. apply cacheBoundb_sound. vm_compute. reflexivity. Qed.

Lemma unwrapFitBeforeDispose_next : next unwrapFitBeforeDispose = 12%nat.
Proof. vm_compute. reflexivity. Qed.

Lemma unwrapFitBeforeDispose_unallocated : unallocatedDisposed unwrapFitBeforeDispose.
Proof.
  intros w. rewrite unwrapFitBeforeDispose_next. intros Hw. unfold disposed.
  do 12 (destruct w as [|w]; [exfalso; clear -Hw; lia|]). clear Hw.
  vm_compute. reflexivity.
Qed.

Lemma disposeNodes_spares_below_syntax_list_witness :
  (sampleUntilDispose 1%nat 3%nat unwrapFitState).1
    = Ok (4%nat, 9%nat, {| AdvancedIterator.owner := 1%nat; AdvancedIterator.pending := [] |},
          {| AdvancedIterator.owner := 3%nat; AdvancedIterator.pending := [] |}) /\
  bound unwrapFitBeforeDispose 10%nat 12%nat /\
  bound unwrapFitBeforeDispose 11%nat 12%nat /\
  exists s', UnwrapParentHandler.disposeNodes 4 9%nat 4%nat unwrapFitBeforeDispose
               = (Ok tt, s') /\
    disposed s' 4%nat /\ disposed s' 9%nat /\
    nodeCache s' !! 2%nat = None /\ nodeCache s' !! 7%nat = None /\
    bound s' 10%nat 12%nat /\ nodeCache s' !! 12%nat = Some 10%nat.
Proof.
  split; [vm_compute; reflexivity|].
  split; [vm_compute; reflexivity|]. split; [vm_compute; reflexivity|].
  destruct (disposeNodes_spares_below_syntax_list unwrapFitBeforeDispose 4%nat 9%nat
              unwrapChildTree 7%nat 4 unwrapFitBeforeDispose_cacheBound
              unwrapFitBeforeDispose_unallocated)
    as (s' & Hrun & Hgone & _ & _ & Hout & Hframe & Hnode & Hlist & _).
  - vm_compute. reflexivity.
  - vm_compute. reflexivity.
  - vm_compute. reflexivity.
  - apply (bool_decide_unpack _). vm_compute. exact I.
  - simpl. lia.
  - exists s'. split; [exact Hrun|]. split; [exact Hnode|].
    split. { apply Hlist. apply (bool_decide_unpack _). vm_compute. exact I. }
    split. { apply Hgone. apply (bool_decide_unpack _). vm_compute. exact I. }
    split. { apply Hgone. apply (bool_decide_unpack _). vm_compute. exact I. }
    split.
    + unfold bound. rewrite Hframe; [vm_compute; reflexivity | |].
      * rewrite unwrapFitBeforeDispose_next. lia.
      * intros k Hk. change (k ∈ [2; 3; 4; 5; 6; 7; 8]%nat) in Hk.
        repeat (apply elem_of_cons in Hk as [->|Hk]; [vm_compute; discriminate|]).
        apply elem_of_nil in Hk. destruct Hk.
    + rewrite Hout; [vm_compute; reflexivity|].
      apply (bool_decide_unpack _). vm_compute. exact I.
Defined.

(** ** A successful unwrapping *)

(** X26. If [UnwrapParentHandler.handleNode(currentNode, newNode)] returns,
    the new node has exactly as many children as the current node, less
    the one unwrapped child, plus the children of that child's syntax list,
    and the last thing it did was to rebind [currentNode] to the compiler
    node of [newNode] through the factory. *)
Theorem handleNode_success_children_counts
    (straightReplacementNodeHandler_handleNode : wid -> wid -> M unit)
    (compilerFactory_replaceCompilerNode : wid -> cnid -> M unit)
    (getChildSyntaxListOrThrow : wid -> M wid) (exhausted : exn)
    (childIndex fuel : nat) (currentNode newNode : wid) (s s'' : State)
    (Hrun :
       UnwrapParentHandler.handleNode straightReplacementNodeHandler_handleNode
         compilerFactory_replaceCompilerNode getChildSyntaxListOrThrow exhausted
         childIndex fuel currentNode newNode s = (Ok tt, s'')) :
  exists currentChildren newChildren currentChild childSyntaxList rehosted s1 s2 s3 s' nc,
    getChildrenIterator currentNode s = (Ok currentChildren, s) /\
    getChildrenIterator newNode s = (Ok newChildren, s) /\
    getChildSyntaxListOrThrow currentChild s1 = (Ok childSyntaxList, s2) /\
    getChildren childSyntaxList s2 = (Ok rehosted, s3) /\
    (1 <= length currentChildren)%nat /\
    length newChildren = (length currentChildren - 1 + length rehosted)%nat /\
    compilerNode newNode s' = (Ok nc, s') /\
    compilerFactory_replaceCompilerNode currentNode nc s' = (Ok tt, s'').
Proof.
  unfold UnwrapParentHandler.handleNode in Hrun.
  apply bind_Ok_inv in Hrun as (it & s' & Hpair & Hrest).
  destruct (AdvancedIterator.done it) eqn:Hdone; [|discriminate]. simpl in Hrest.
  apply bind_Ok_inv in Hrest as (nc & s0 & Hnc & Hreplace).
  assert (s0 = s') as ->.
  { unfold compilerNode in Hnc. destruct (_compilerNode (heap s' newNode)); congruence. }
  destruct (pairChildren_counts _ _ _ _ _ _ _ _ _ _ Hpair)
    as (currentChildren & newChildren & currentChild & childSyntaxList & rehosted
        & s1 & s2 & s3 & Hcur & Hnew & Hfind & Hrehosted & Hone & Hpending & Hle).
  exists currentChildren, newChildren, currentChild, childSyntaxList, rehosted,
    s1, s2, s3, s', nc.
  split; [done|]. split; [done|]. split; [done|]. split; [done|]. split; [done|].
  split; [|done].
  unfold AdvancedIterator.done in Hdone. rewrite Hpending in Hdone.
  destruct (drop _ newChildren) eqn:Hdrop; [|discriminate].
  apply (f_equal length) in Hdrop. rewrite length_drop in Hdrop. simpl in Hdrop. lia.
Qed.

Lemma handleNode_success_children_counts_witness :
  exists s'', sampleHandler 5 1%nat 3%nat unwrapFitState = (Ok tt, s'') /\
    exists currentChildren newChildren rehosted : list nat,
      length newChildren = (length currentChildren - 1 + length rehosted)%nat.
Proof.
  assert (Hrun : sampleHandler 5 1%nat 3%nat unwrapFitState
                 = (Ok tt, (sampleHandler 5 1%nat 3%nat unwrapFitState).2)).
  { vm_compute. reflexivity. }
  exists (sampleHandler 5 1%nat 3%nat unwrapFitState).2. split; [exact Hrun|].
  destruct (handleNode_success_children_counts sampleStraightReplacement
              CompilerFactory.replaceCompilerNode sampleChildSyntaxList sampleExhausted
              0 5 1%nat 3%nat unwrapFitState _ Hrun)
    as (currentChildren & newChildren & _ & _ & rehosted & _ & _ & _ & _ & _
        & _ & _ & _ & _ & _ & Hcount & _).
  exists currentChildren, newChildren, rehosted. exact Hcount.
Defined.

(** ** The indentation of a node *)

Lemma get_string_of_list (cs : list ascii) (n : nat) :
  String.get n (string_of_list_ascii cs) = cs !! n.
Proof.
  revert n. induction cs as [|ch cs IH]; intros [|n]; simpl; done.
Qed.

Lemma length_string_of_list (cs : list ascii) :
  String.length (string_of_list_ascii cs) = length cs.
Proof. induction cs as [|ch cs IH]; simpl; [done | by rewrite IH]. Qed.

Lemma get_inside (before rest : string) (cs : list ascii) (n : nat) :
  (n < length cs)%nat ->
  String.get (String.length before + n) (before ++ string_of_list_ascii cs ++ rest)
    = cs !! n.
Proof.
  intros Hn. rewrite Nat.add_comm, <- append_correct2, <- append_correct1.
  - apply get_string_of_list.
  - by rewrite length_string_of_list.
Qed.

Lemma takeWhile_all {A : Type} (f : A -> bool) (l : list A) :
  forallb f l = true -> takeWhile f l = l.
Proof.
  induction l as [|a l IH]; simpl; [done|]. destruct (f a); simpl; [|done].
  intros Hl. by rewrite IH.
Qed.

Lemma takeWhile_snoc {A : Type} (f : A -> bool) (l : list A) (x : A) :
  takeWhile f (l ++ [x]) = if forallb f l && f x then (l ++ [x])%list else takeWhile f l.
Proof.
  induction l as [|a l IH]; simpl; [by destruct (f x)|].
  destruct (f a); simpl; [|done]. rewrite IH. by destruct (forallb f l && f x).
Qed.

Lemma string_of_list_snoc (l : list ascii) (ch : ascii) (acc : string) :
  string_of_list_ascii (l ++ [ch]) ++ acc = string_of_list_ascii l ++ String ch acc.
Proof.
  induction l as [|a l IH]; [done|].
  change (String a (string_of_list_ascii (l ++ [ch]) ++ acc)
          = String a (string_of_list_ascii l ++ String ch acc)).
  by rewrite IH.
Qed.

Lemma append_empty_r (text : string) : text ++ "" = text.
Proof.
  induction text as [|ch text IH]; [done|].
  change (String ch (text ++ "") = String ch text). by rewrite IH.
Qed.

Lemma getIndentationText_loop_line (before rest : string) (line : list ascii) :
  (forall ch, In ch line -> ch <> "010"%char) ->
  forall (n : nat) (acc : string),
    (n <= length line)%nat ->
    getIndentationText_loop (before ++ string_of_list_ascii line ++ rest) n
      (Z.of_nat (String.length before + n) - 1) acc
    = string_of_list_ascii (takeWhile isIndentChar (take n line))
      ++ (if forallb isIndentChar (take n line) then acc else "").
Proof.
  intros Hline. induction n as [|n IH]; intros acc Hn; [done|].
  destruct (lookup_lt_is_Some_2 line n Hn) as [ch Hch].
  cbn [getIndentationText_loop]. unfold charAt.
  replace (Z.of_nat (String.length before + S n) - 1)
    with (Z.of_nat (String.length before + n)) by lia.
  destruct (Z.ltb_spec (Z.of_nat (String.length before + n)) 0) as [Hneg|_]; [lia|].
  rewrite Nat2Z.id, get_inside, Hch by lia.
  rewrite (take_S_r _ _ _ Hch), takeWhile_snoc, forallb_app. cbn [forallb].
  rewrite andb_true_r. fold (isIndentChar ch).
  destruct (isIndentChar ch) eqn:Hblank.
  - rewrite IH by lia. rewrite andb_true_r.
    destruct (forallb isIndentChar (take n line)) eqn:Hall; [|done].
    by rewrite (takeWhile_all _ _ Hall), string_of_list_snoc.
  - destruct (Ascii.eqb_spec ch "010") as [->|_].
    { destruct (Hline "010"%char); [|done].
      apply list_elem_of_lookup_2 in Hch. by apply list_elem_of_In in Hch. }
    rewrite IH by lia. rewrite andb_false_r.
    by destruct (forallb isIndentChar (take n line)).
Qed.

(** X27. On a live node of a live source file, if the text from the start
    of the node's line (as [getPreviousMatchingPos] reports it) to the start
    of the node holds no newline, [getIndentationText()] returns the
    leading spaces and tabs of that text: the indentation of the line,
    also when other code stands between it and the node. *)
Theorem getIndentationText_leading_blanks
    (getPreviousMatchingPos : string -> Z -> (ascii -> bool) -> Z)
    (s : State) (this : wid) (c sfc : cnid) (before rest : string) (line : list ascii)
    (Hlive : sourceFilesLive s) (Hbound : bound s this c)
    (Hsf : bound s (sourceFile (heap s this)) sfc)
    (Htext : ts.getFullText (nodes s sfc) = before ++ string_of_list_ascii line ++ rest)
    (Hstart : ts.getStart (nodes s c) = Z.of_nat (String.length before + length line))
    (HlinePos : getPreviousMatchingPos (ts.getFullText (nodes s sfc))
                  (ts.getStart (nodes s c)) (fun char => Ascii.eqb char "010")
                = Z.of_nat (String.length before))
    (Hline : forall ch, In ch line -> ch <> "010"%char) :
  getStartLinePos getPreviousMatchingPos this s = (Ok (Z.of_nat (String.length before)), s) /\
  getIndentationText getPreviousMatchingPos this s =
    (Ok (string_of_list_ascii (takeWhile isIndentChar line)), s).
Proof.
  destruct (Hlive _ _ Hsf) as [c' Hsf'].
  assert (HstartLine : getStartLinePos getPreviousMatchingPos this s
                       = (Ok (Z.of_nat (String.length before)), s)).
  { unfold getStartLinePos, getFullText, getStart, getSourceFile, tsGet, bind, ret.
    repeat (progress (rewrite ?(compilerNode_bound _ _ _ Hsf), ?(compilerNode_bound _ _ _ Hsf'),
      ?(compilerNode_bound _ _ _ Hbound); cbn beta iota)).
    by rewrite HlinePos. }
  split; [done|].
  unfold getIndentationText. unfold bind at 1. unfold getSourceFile at 1.
  unfold bind at 1. unfold getFullText at 1, getSourceFile, tsGet, bind at 1 2 3.
  rewrite (compilerNode_bound _ _ _ Hsf), (compilerNode_bound _ _ _ Hsf'). cbn beta iota.
  unfold bind at 1. rewrite HstartLine. unfold bind at 1.
  unfold getStart, getSourceFile, tsGet, bind, ret.
  rewrite (compilerNode_bound _ _ _ Hbound), (compilerNode_bound _ _ _ Hsf).
  cbn beta iota. rewrite Htext, Hstart. f_equal. f_equal.
  replace (Z.to_nat (Z.of_nat (String.length before + length line)
                     - Z.of_nat (String.length before))) with (length line) by lia.
  rewrite (getIndentationText_loop_line before rest line Hline (length line) "") by lia.
  rewrite firstn_all. destruct (forallb isIndentChar line); apply append_empty_r.
Qed.

Lemma getIndentationText_leading_blanks_witness :
  getIndentationText (fun _ _ _ => 3) 1%nat sampleWrapped = (Ok "  ", sampleWrapped).
Proof.
  exact (proj2 (getIndentationText_leading_blanks (fun _ _ _ => 3) sampleWrapped
                  1%nat 5%nat 0%nat ("a;" ++ String "010" "") "b;" [" "; " "]%char
                  sampleWrapped_sourceFilesLive eq_refl eq_refl eq_refl eq_refl eq_refl
                  ltac:(intros ch [<-|[<-|[]]]; discriminate))).
Defined.

(** ** A range of an array of nodes *)

Lemma slice_from_index {A : Type} (array : list A) (index length_ : Z) :
  0 <= index -> 0 <= length_ ->
  slice array index (index + length_) =
    take (Z.to_nat length_) (drop (Z.to_nat index) array).
Proof.
  intros Hindex Hlength. unfold slice.
  destruct (Z.ltb_spec index 0) as [?|_]; [lia|].
  destruct (Z.ltb_spec (index + length_) 0) as [?|_]; [lia|].
  destruct (decide (index + length_ <= Z.of_nat (length array))) as [Hin|Hout].
  - rewrite (Z.min_l index), (Z.min_l (index + length_)) by lia. do 2 f_equal; lia.
  - destruct (decide (index <= Z.of_nat (length array))) as [Hle|Hgt].
    + rewrite (Z.min_l index), (Z.min_r (index + length_)) by lia.
      rewrite !take_ge; [done | |]; rewrite length_drop; lia.
    + rewrite (Z.min_r index), (Z.min_r (index + length_)) by lia.
      rewrite !drop_ge by lia. by rewrite !take_nil.
Qed.

Lemma checkKinds_all (syntaxKindName : ts.SyntaxKind -> string) (s : State)
    (expectedKind : ts.SyntaxKind) (children : list wid) :
  Forall (fun w => exists k, bound s w k /\ ts.kind (nodes s k) = expectedKind) children ->
  checkKinds syntaxKindName expectedKind children s = (Ok tt, s).
Proof.
  induction 1 as [|w ws (k & Hw & Hkind) Hall IH]; [done|]. simpl.
  unfold bind. rewrite (getKind_bound _ _ _ Hw), Hkind.
  rewrite bool_decide_eq_true_2 by done. exact IH.
Qed.

(** X28. [getRangeFromArray(array, index, length, expectedKind)] with a
    range that lies within the array, all of whose nodes are live and of
    the expected kind, returns exactly the [length] nodes from [index] on
    and changes nothing. *)
Theorem getRangeFromArray_in_range (syntaxKindName : ts.SyntaxKind -> string)
    (numberText : Z -> string) (s : State) (array : list wid) (index length_ : Z)
    (expectedKind : ts.SyntaxKind)
    (Hindex : 0 <= index) (Hlength : 0 <= length_)
    (Hrange : index + length_ <= Z.of_nat (length array))
    (Hkinds : Forall (fun w => exists k, bound s w k /\ ts.kind (nodes s k) = expectedKind)
                (take (Z.to_nat length_) (drop (Z.to_nat index) array))) :
  getRangeFromArray syntaxKindName numberText array index length_ expectedKind s =
    (Ok (take (Z.to_nat length_) (drop (Z.to_nat index) array)), s) /\
  Z.of_nat (length (take (Z.to_nat length_) (drop (Z.to_nat index) array))) = length_.
Proof.
  assert (Hlen : Z.of_nat (length (take (Z.to_nat length_) (drop (Z.to_nat index) array)))
                 = length_).
  { rewrite length_take, length_drop. lia. }
  split; [|done]. unfold getRangeFromArray.
  rewrite (slice_from_index array index length_ Hindex Hlength), Hlen, Z.eqb_refl.
  cbn [negb]. unfold bind. by rewrite (checkKinds_all syntaxKindName s expectedKind _ Hkinds).
Qed.

Lemma getRangeFromArray_in_range_witness :
  getRangeFromArray (fun _ => "kind") (fun _ => "n") [0; 1; 2]%nat 1 2 ts.EndOfFileToken
    (stateOf sampleNodes [nodeOf 0; nodeOf 8; nodeOf 8])
  = (Ok [1; 2]%nat, stateOf sampleNodes [nodeOf 0; nodeOf 8; nodeOf 8]).
Proof.
  refine (proj1 (getRangeFromArray_in_range (fun _ => "kind") (fun _ => "n")
                   (stateOf sampleNodes [nodeOf 0; nodeOf 8; nodeOf 8])
                   [0; 1; 2]%nat 1 2 ts.EndOfFileToken _ _ _ _)); try (simpl; lia).
  repeat constructor; exists 8%nat; split; reflexivity.
Defined.

(** X29. [getRangeFromArray] with a non-empty range that reaches beyond
    the end of the array throws a NotImplementedError that reports the requested and
    the available number of nodes, before it looks at any node. *)
Theorem getRangeFromArray_short_range_throws (syntaxKindName : ts.SyntaxKind -> string)
    (numberText : Z -> string) (s : State) (array : list wid) (index length_ : Z)
    (expectedKind : ts.SyntaxKind)
    (Hindex : 0 <= index) (Hlength : 0 < length_)
    (Hbeyond : Z.of_nat (length array) < index + length_) :
  getRangeFromArray syntaxKindName numberText array index length_ expectedKind s =
    (Throw (NotImplementedError
              ("Unexpected! Inserted " ++ numberText length_ ++ " child/children, but "
               ++ numberText (Z.of_nat (length (drop (Z.to_nat index) array)))
               ++ " were inserted.")), s) /\
  Z.of_nat (length (drop (Z.to_nat index) array)) < length_.
Proof.
  assert (Hslice : slice array index (index + length_) = drop (Z.to_nat index) array).
  { unfold slice. destruct (Z.ltb_spec index 0) as [?|_]; [lia|].
    destruct (Z.ltb_spec (index + length_) 0) as [?|_]; [lia|].
    rewrite (Z.min_r (index + length_)) by lia.
    destruct (decide (index <= Z.of_nat (length array))) as [Hle|Hgt].
    - rewrite (Z.min_l index) by lia. apply take_ge. rewrite length_drop. lia.
    - rewrite (Z.min_r index) by lia. rewrite !drop_ge by lia. by rewrite take_nil. }
  assert (Hshort : Z.of_nat (length (drop (Z.to_nat index) array)) < length_).
  { rewrite length_drop. lia. }
  split; [|done]. unfold getRangeFromArray. rewrite Hslice.
  destruct (Z.eqb_spec (Z.of_nat (length (drop (Z.to_nat index) array))) length_) as [Heq|_];
    [lia | done].
Qed.

Lemma getRangeFromArray_short_range_throws_witness :
  getRangeFromArray (fun _ => "kind") (fun n => if n =? 2 then "2" else "1")
    [0; 1; 2]%nat 2 2 ts.EndOfFileToken sampleDisposed
  = (Throw (NotImplementedError
              "Unexpected! Inserted 2 child/children, but 1 were inserted."),
     sampleDisposed).
Proof.
  refine (proj1 (getRangeFromArray_short_range_throws (fun _ => "kind")
                   (fun n => if n =? 2 then "2" else "1") sampleDisposed
                   [0; 1; 2]%nat 2 2 ts.EndOfFileToken _ _ _)); simpl; lia.
Defined.

(** ** The descendant at a start position with a width *)

Lemma getStart_live (s : State) (w : wid) (k : cnid) :
  sourceFilesLive s -> bound s w k -> getStart w s = (Ok (ts.getStart (nodes s k)), s).
Proof.
  intros Hlive Hb. destruct (Hlive _ _ Hb) as [sfc Hsf].
  unfold getStart, getSourceFile, tsGet, bind.
  by rewrite (compilerNode_bound _ _ _ Hb), (compilerNode_bound _ _ _ Hsf).
Qed.

Lemma getWidth_live (compilerGetWidth : ts.Node -> Z) (s : State) (w : wid) (k : cnid) :
  sourceFilesLive s -> bound s w k ->
  getWidth compilerGetWidth w s = (Ok (compilerGetWidth (nodes s k)), s).
Proof.
  intros Hlive Hb. destruct (Hlive _ _ Hb) as [sfc Hsf].
  unfold getWidth, getSourceFile, tsGet, bind.
  by rewrite (compilerNode_bound _ _ _ Hb), (compilerNode_bound _ _ _ Hsf).
Qed.

Lemma descendants_of_child (t : Tree) (ts : list Tree) (d : cnid) :
  t ∈ ts -> d ∈ descendantsOf t -> d ∈ concat (map ids ts).
Proof.
  intros Ht Hd. apply (ids_subtree t); [done|].
  rewrite ids_root_descendants. apply elem_of_cons. by right.
Qed.

Lemma search_subtree (compilerGetWidth : ts.Node -> Z) (t : Tree) :
  searchesSubtree compilerGetWidth t.
Proof.
  induction t as [r ts IH] using Tree_ind.
  intros [|fuel] s nextNode foundNode start width Hfuel Hshape Hcons Hlive Hb;
    [simpl in Hfuel; lia|].
  pose proof (subtree_heights r ts fuel Hfuel) as Hheights.
  apply shape_children in Hshape as [Hchildren Hshapes]. simpl in Hb.
  destruct (getChildAtPos_childAtPos nextNode r start s Hcons Hlive Hb)
    as (r0 & s1 & Hr0 & Hcons1 & Hlive1 & Hn1 & Hext1 & Hchild).
  cbn [getDescendantAtStartWithWidth_loop]. unfold bind at 1. rewrite Hr0.
  unfold childAtPos in Hchild.
  assert (Hnone : exists r1 s2, (Ok foundNode, s1) = (Ok r1, s2) /\ consistent s2 /\
            sourceFilesLive s2 /\ extends s s2 /\
            (r1 = foundNode \/
             exists w d, r1 = Some w /\ bound s2 w d /\ d ∈ descendantsOf (T r ts) /\
               atStartWithWidth compilerGetWidth (nodes s) start width d)).
  { exists foundNode, s1. split; [done|]. split; [done|]. split; [done|].
    split; [by split | by left]. }
  destruct (start <? ts.pos (nodes s r)); [by subst r0|].
  destruct (start >=? ts.end_ (nodes s r)); [by subst r0|].
  destruct (find _ _) as [k|] eqn:Hfind; [|by subst r0].
  destruct Hchild as (wk & -> & Hwk).
  apply find_some in Hfind as [Hk Hkpos]. apply containsPosb_true in Hkpos.
  rewrite Hchildren in Hk. apply in_map_iff in Hk as (t & <- & Ht).
  apply list_elem_of_In in Ht.
  rewrite Forall_forall in IH, Hshapes, Hheights.
  unfold bind at 1. rewrite (getStart_live _ _ _ Hlive1 Hwk), Hn1.
  assert (Hdeeper : forall found,
            (found = foundNode \/
             (found = Some wk /\
              atStartWithWidth compilerGetWidth (nodes s) start width (rootOf t))) ->
            exists r1 s2,
              getDescendantAtStartWithWidth_loop compilerGetWidth fuel wk found start width s1
                = (Ok r1, s2) /\
              consistent s2 /\ sourceFilesLive s2 /\ extends s s2 /\
              (r1 = foundNode \/
               exists w d, r1 = Some w /\ bound s2 w d /\ d ∈ descendantsOf (T r ts) /\
                 atStartWithWidth compilerGetWidth (nodes s) start width d)).
  { intros found Hfound.
    destruct (IH t Ht fuel s1 wk found start width (Hheights t Ht))
      as (r1 & s2 & Hr1 & Hcons2 & Hlive2 & Hext2 & Hres); try done.
    { rewrite Hn1. by apply Hshapes. }
    exists r1, s2. split; [done|]. split; [done|]. split; [done|].
    split; [by eapply extends_trans; [split|]|].
    destruct Hres as [->|(w & d & -> & Hw & Hd & Hat)].
    - destruct Hfound as [->|[-> Hat]]; [by left|]. right.
      exists wk, (rootOf t). split; [done|]. split; [by apply Hext2|].
      split; [|done]. apply (ids_subtree t); [done | apply rootOf_in_ids].
    - right. exists w, d. split; [done|]. split; [done|].
      split; [by apply (descendants_of_child t) | by rewrite Hn1 in Hat]. }
  destruct (Z.eqb_spec (ts.getStart (nodes s (rootOf t))) start) as [Hstart|Hstart].
  - unfold bind at 1. unfold bind at 1.
    rewrite (getWidth_live _ _ _ _ Hlive1 Hwk), Hn1. cbn [ret].
    destruct (Z.eqb_spec (compilerGetWidth (nodes s (rootOf t))) width) as [Hwidth|Hwidth].
    + apply Hdeeper. right. split; [done|]. unfold atStartWithWidth. by split.
    + destruct foundNode as [found|]; [exact Hnone|]. apply Hdeeper. by left.
  - unfold bind at 1. cbn [ret].
    destruct foundNode as [found|]; [exact Hnone|]. apply Hdeeper. by left.
Qed.

(** X30. [getDescendantAtStartWithWidth(start, width)] searches from the
    source file of the node, not from the node itself: with the compiler
    nodes of that file forming a tree, it returns with enough fuel, and what
    it returns is [undefined] or the wrapper of a node below the source
    file that holds the position [start], starts there and has the width. *)
Theorem getDescendantAtStartWithWidth_found_node_fits
    (compilerGetWidth : ts.Node -> Z) (s : State) (this : wid) (t : Tree)
    (fuel : nat) (start width : Z)
    (Hconsistent : consistent s) (Hlive : sourceFilesLive s)
    (Hfile : bound s (sourceFile (heap s this)) (rootOf t))
    (Hshape : shape (nodes s) t = true) (Hfuel : (height t <= fuel)%nat) :
  exists r s1,
    getDescendantAtStartWithWidth compilerGetWidth fuel this start width s = (Ok r, s1) /\
    consistent s1 /\ nodes s1 = nodes s /\
    (forall w k, bound s w k -> bound s1 w k) /\
    (forall w, r = Some w ->
       exists d, bound s1 w d /\ d ∈ descendantsOf t /\
         containsPos (nodes s) d start /\
         ts.getStart (nodes s d) = start /\
         compilerGetWidth (nodes s d) = width).
Proof.
  destruct (search_subtree compilerGetWidth t fuel s (sourceFile (heap s this)) None
              start width Hfuel Hshape Hconsistent Hlive Hfile)
    as (r & s1 & Hrun & Hcons1 & _ & [Hn Hext] & Hr).
  exists r, s1. split; [done|]. split; [done|]. split; [done|]. split; [done|].
  intros w ->. destruct Hr as [Hr|(w' & d & [= <-] & Hw & Hd & Hpos & Hstart & Hwidth)];
    [discriminate|].
  by exists d.
Qed.

Lemma getDescendantAtStartWithWidth_found_node_fits_witness :
  (getDescendantAtStartWithWidth sampleWidth 4 0%nat 5 1 sampleFresh).1 = Ok (Some 4%nat) /\
  exists r s1,
    getDescendantAtStartWithWidth sampleWidth 4 0%nat 5 1 sampleFresh = (Ok r, s1) /\
    forall w, r = Some w ->
      exists d, bound s1 w d /\ ts.getStart (nodes sampleFresh d) = 5 /\
        sampleWidth (nodes sampleFresh d) = 1.
Proof.
  split; [vm_compute; reflexivity|].
  destruct (getDescendantAtStartWithWidth_found_node_fits sampleWidth sampleFresh 0%nat
              sampleTree 4 5 1 sampleFresh_consistent sampleFresh_sourceFilesLive
              eq_refl sampleTree_shape)
    as (r & s1 & Hrun & _ & _ & _ & Hr).
  { simpl. lia. }
  exists r, s1. split; [exact Hrun|]. intros w Hw.
  destruct (Hr w Hw) as (d & Hd & _ & _ & Hstart & Hwidth).
  exists d. split; [exact Hd|]. split; [exact Hstart | exact Hwidth].
Defined.
